(** * The code-aware chunking engine of chromamcp-vespo

    A shallow embedding of [mcp/vespo-patched/code-parser.js] and
    [mcp/vespo-patched/smart-chunker.js], and the properties the design
    document states about them; then the batching and the retry loop of
    the embedding client, the prompt and the configuration clean-up of
    the uninstaller, and further properties of all of them.

    Conventions of the embedding.
    - A JavaScript string is a list of code units; the development keeps
      the code units U+0000 to U+00FF, one [ascii] each.
    - Integers (offsets, line numbers, sizes) are [Z].  The two divisions
      of the oversize splitter are IEEE-754 binary64 divisions, as in
      JavaScript; they are computed with the standard library's
      [SpecFloat] at precision 53, and so is the delay of the retry loop.
      The sums and differences of the two splitting loops are exact in
      [Z]; binary64 computes the same integers while they stay below
      [2 ^ 53] in magnitude, as the lengths of strings and arrays always
      do; a property that holds only for sizes in that range states the
      range in a hypothesis.
    - What the repository takes from outside is a parameter: acorn's
      [parse], Node's [path.extname] and the regular-expression engine
      behind the two Python patterns.
    - The calls of a function that the embedding client retries are a
      parameter too: how the call number [k] ends.  The file system and
      the terminal of the uninstaller stay outside: its functions are
      given the text read and the answer typed.
    - A loop that the source does not bound runs on fuel; the result says
      whether the loop finished, raised, or is still running. *)

From Stdlib Require Import ZArith List Ascii String Bool Lia.
From Stdlib Require Import QArith Qround.
From Stdlib Require Import DecimalString.
From Stdlib Require Import Floats.SpecFloat.
From Stdlib Require Import Sorted Permutation.
Import ListNotations.

Local Open Scope Z_scope.
Local Open Scope bool_scope.

(* ================================================================= *)
(** * JavaScript strings and arrays *)

Module Js.

Definition jstring := list ascii.

(** A string literal of the source. *)
Definition js (s : string) : jstring := list_ascii_of_string s.

Definition len {A : Type} (l : list A) : Z := Z.of_nat (List.length l).

Fixpoint eqb (a b : jstring) : bool :=
  match a, b with
  | [], [] => true
  | x :: a', y :: b' => Ascii.eqb x y && eqb a' b'
  | _, _ => false
  end.

(** Truthiness of a string: the empty string is falsy. *)
Definition nonEmpty (s : jstring) : bool :=
  match s with [] => false | _ :: _ => true end.

(** Truthiness of a value that may be [null] or [undefined]. *)
Definition truthy (o : option jstring) : bool :=
  match o with Some s => nonEmpty s | None => false end.

Definition clamp (lo hi x : Z) : Z := Z.max lo (Z.min x hi).

(** [String.prototype.substring]: both indices are clamped to
    [0, length] and swapped when out of order. *)
Definition substring (s : jstring) (a b : Z) : jstring :=
  let a' := clamp 0 (len s) a in
  let b' := clamp 0 (len s) b in
  let from := Z.min a' b' in
  let to := Z.max a' b' in
  firstn (Z.to_nat (to - from)) (skipn (Z.to_nat from) s).

(** A relative index of [Array.prototype.slice]: negative indices count
    from the end. *)
Definition relIndex (n i : Z) : Z :=
  if i <? 0 then Z.max (n + i) 0 else Z.min i n.

(** [Array.prototype.slice]. *)
Definition slice {A : Type} (l : list A) (a b : Z) : list A :=
  let k := relIndex (len l) a in
  let final := relIndex (len l) b in
  firstn (Z.to_nat (final - k)) (skipn (Z.to_nat k) l).

(** [l[i]]: [None] stands for [undefined]. *)
Definition get {A : Type} (l : list A) (i : Z) : option A :=
  if i <? 0 then None else nth_error l (Z.to_nat i).

(** [String.prototype.split] on a one-character separator. *)
Fixpoint split (sep : ascii) (s : jstring) : list jstring :=
  match s with
  | [] => [[]]
  | c :: s' =>
      if Ascii.eqb c sep then [] :: split sep s'
      else match split sep s' with
           | l :: ls => (c :: l) :: ls
           | [] => [[c]]
           end
  end.

(** [Array.prototype.join]. *)
Fixpoint join (sep : jstring) (ls : list jstring) : jstring :=
  match ls with
  | [] => []
  | l :: ls' =>
      match ls' with
      | [] => l
      | _ :: _ => l ++ sep ++ join sep ls'
      end
  end.

Definition newline : ascii := ascii_of_nat 10.

(** White space and line terminators among the code units kept here:
    TAB, LF, VT, FF, CR, SPACE and NO-BREAK SPACE. *)
Definition isSpace (c : ascii) : bool :=
  let n := nat_of_ascii c in
  ((9 <=? n) && (n <=? 13))%nat || (n =? 32)%nat || (n =? 160)%nat.

Fixpoint trimStart (s : jstring) : jstring :=
  match s with
  | c :: s' => if isSpace c then trimStart s' else s
  | [] => []
  end.

Definition trimEnd (s : jstring) : jstring := rev (trimStart (rev s)).

Definition trim (s : jstring) : jstring := trimEnd (trimStart s).

Fixpoint startsWith (p s : jstring) : bool :=
  match p, s with
  | [], _ => true
  | x :: p', y :: s' => Ascii.eqb x y && startsWith p' s'
  | _ :: _, [] => false
  end.

Definition endsWith (p s : jstring) : bool := startsWith (rev p) (rev s).

(** [s.replace(/\n/g, ' ')]. *)
Definition flattenNewlines (s : jstring) : jstring :=
  map (fun c => if Ascii.eqb c newline then " "%char else c) s.

(** [String.prototype.toLowerCase] on the code units kept here. *)
Definition lowerChar (c : ascii) : ascii :=
  let n := nat_of_ascii c in
  if ((65 <=? n) && (n <=? 90))%nat then ascii_of_nat (n + 32)
  else if ((192 <=? n) && (n <=? 222) && negb (n =? 215))%nat
       then ascii_of_nat (n + 32)
  else c.

Definition toLowerCase (s : jstring) : jstring := map lowerChar s.

(** Decimal rendering of an integer inside a template literal. *)
Definition ofInt (z : Z) : jstring := js (NilZero.string_of_int (Z.to_int z)).

(** ** Numbers

    [ofZ] is the binary64 value of an integer, [div] the division of
    two numbers and [floor] is [Math.floor], defined on finite values
    only. *)

Definition number := spec_float.

Definition ofZ (z : Z) : number := binary_normalize 53 1024 z 0 false.

Definition div (x y : number) : number := SFdiv 53 1024 x y.

Definition floor (x : number) : option Z :=
  match x with
  | S754_zero _ => Some 0
  | S754_finite s m e => Some (Z.shiftl (cond_Zopp s (Zpos m)) e)
  | S754_infinity _ => None
  | S754_nan => None
  end.

Definition mul (x y : number) : number := SFmul 53 1024 x y.

(** [Math.pow(2, k)] for an integer [k]: the power of two itself while
    binary64 holds it, [Infinity] from [k = 1024] on. *)
Definition pow2 (k : Z) : number := SFldexp 53 1024 (ofZ 1) k.

End Js.

Import Js.

(* ================================================================= *)
(** * Chunks *)

(** The objects both parsers and both chunkers build.  A field the
    source leaves out of an object literal is [None] (or [false] for a
    flag that is only ever read for its truthiness). *)
Record Chunk := mkChunk {
  type : jstring;
  name : option jstring;
  startLine : Z;
  endLine : Z;
  startChar : Z;
  endChar : Z;
  content : jstring;
  signature : option jstring;
  docstring : option jstring;
  decorators : option (list jstring);
  isAsync : bool;
  isGenerator : bool;
  isExported : bool;
  isPartial : bool;
  partNumber : option Z;
  totalParts : option Z;
  parentChunk : option jstring
}.

(** The chunk every whole-file fallback builds: [type: 'other'], a fixed
    name, the whole text. *)
Definition wholeFile (nm : jstring) (lastLine : Z) (code : jstring) : Chunk :=
  {| type := js "other"; name := Some nm;
     startLine := 1; endLine := lastLine;
     startChar := 0; endChar := len code;
     content := code;
     signature := None; docstring := None; decorators := None;
     isAsync := false; isGenerator := false; isExported := false;
     isPartial := false; partNumber := None; totalParts := None;
     parentChunk := None |}.

(* ================================================================= *)
(** * code-parser.js *)

Module Parser.

(** ** What comes from outside the repository *)

(** The part of an acorn node the parser reads: [start], [end],
    [loc.start.line] and [loc.end.line]. *)
Record Span := {
  node_start : Z;
  node_end : Z;
  loc_start_line : Z;
  loc_end_line : Z
}.

(** A declarator of a variable declaration: its span, [id.name] (absent
    when the target is a pattern), and of its initialiser, when there is
    one, the node type and the [async] flag. *)
Record Declarator := {
  decl_start : Z;
  decl_end : Z;
  decl_name : option jstring;
  decl_init : option (jstring * bool)
}.

(** Top-level statements, by [node.type]. *)
#[warnings="-register-all"]
Inductive Node :=
| FunctionDeclaration (sp : Span) (id : option jstring)
    (async generator : bool) (body_start : Z)
| ClassDeclaration (sp : Span) (id : option jstring)
| VariableDeclaration (sp : Span) (declarations : list Declarator)
| ExportNamedDeclaration (sp : Span) (declaration : option Node)
| ExportDefaultDeclaration (sp : Span) (declaration : option Node)
| OtherNode (sp : Span).

(** [parse] returns a program body or raises a [SyntaxError]. *)
Inductive ParseResult :=
| ParseOk (body : list Node)
| ParseError (message : jstring).

(** One match of [functionPattern]: [match.index] and the groups 1-5. *)
Record FunctionMatch := {
  fm_index : Z;
  fm_indent : jstring;
  fm_decorators : option jstring;
  fm_async : option jstring;
  fm_name : jstring;
  fm_params : jstring
}.

(** One match of [classPattern]: [match.index] and the groups 1-3. *)
Record ClassMatch := {
  cm_index : Z;
  cm_indent : jstring;
  cm_name : jstring;
  cm_bases : option jstring
}.

(** The environment: Node's [path.extname], acorn's [parse] with the
    options of the source, and the successive results of
    [pattern.exec(code)] for the two Python patterns.  [path.extname]
    answers the empty string or a string that opens with a dot, so the
    lookup in [languageMap] never meets a property that every object
    inherits. *)
Record Env := {
  extname : jstring -> jstring;
  parse : jstring -> ParseResult;
  execFunctionPattern : jstring -> list FunctionMatch;
  execClassPattern : jstring -> list ClassMatch
}.

(** An evaluation inside the [try] block: a value, or an exception. *)
Inductive attempt (A : Type) :=
| Value (a : A)
| Raise.
Arguments Value {A} a.
Arguments Raise {A}.

(** ** detectLanguage *)

Definition languageMap : list (jstring * jstring) :=
  [ (js ".js", js "javascript");
    (js ".jsx", js "javascript");
    (js ".ts", js "typescript");
    (js ".tsx", js "typescript");
    (js ".mjs", js "javascript");
    (js ".cjs", js "javascript");
    (js ".py", js "python");
    (js ".pyw", js "python") ].

Fixpoint lookup (k : jstring) (m : list (jstring * jstring)) : option jstring :=
  match m with
  | [] => None
  | (k', v) :: m' => if Js.eqb k k' then Some v else lookup k m'
  end.

Definition unknown : jstring := js "unknown".

Section WithEnv.

Variable env : Env.

Definition detectLanguage (filePath : jstring) : jstring :=
  let ext := toLowerCase (extname env filePath) in
  match lookup ext languageMap with
  | Some l => l
  | None => unknown
  end.

(** ** The brace-delimited strategy *)

Definition extractSignature (sp : Span) (body_start : Z) (code : jstring)
  : jstring :=
  trim (substring code (node_start sp) body_start).

Definition extractArrowSignature (d : Declarator) (code : jstring) : jstring :=
  let declText := substring code (decl_start d) (decl_end d) in
  trim (hd [] (split "{"%char declText)) ++ js " {...}".

Fixpoint jsDocLoop (lines : list jstring) (startLine : Z) (fuel : nat) (i : Z)
  : attempt (option jstring) :=
  match fuel with
  | O => Value None
  | S fuel' =>
      if (0 <=? i) && (startLine - 10 <=? i) then
        match get lines i with
        | None => Raise
        | Some l =>
            let line := trim l in
            if startsWith (js "/**") line then
              Value (Some (trim (join [newline] (slice lines i (startLine - 1)))))
            else if nonEmpty line && negb (startsWith (js "*") line)
                    && negb (startsWith (js "//") line) then Value None
            else jsDocLoop lines startLine fuel' (i - 1)
        end
      else Value None
  end.

(** The look-back visits at most the nine lines [startLine - 2] down to
    [startLine - 10]. *)
Definition extractJSDoc (sp : Span) (lines : list jstring)
  : attempt (option jstring) :=
  let startLine := loc_start_line sp in
  jsDocLoop lines startLine 9 (startLine - 2).

Definition anonymous : jstring := js "anonymous".

Definition isFunctionInit (d : Declarator) : option bool :=
  match decl_init d with
  | Some (ty, async) =>
      if Js.eqb ty (js "ArrowFunctionExpression")
         || Js.eqb ty (js "FunctionExpression")
      then Some async else None
  | None => None
  end.

(** The first declarator whose initialiser is a function. *)
Fixpoint firstFunctionDeclarator (ds : list Declarator)
  : option (Declarator * bool) :=
  match ds with
  | [] => None
  | d :: ds' =>
      match isFunctionInit d with
      | Some async => Some (d, async)
      | None => firstFunctionDeclarator ds'
      end
  end.

Definition declChunk (ty : jstring) (nm : option jstring) (sp : Span)
  (code : jstring) (sig doc : option jstring) (async generator : bool)
  : Chunk :=
  {| type := ty; name := nm;
     startLine := loc_start_line sp; endLine := loc_end_line sp;
     startChar := node_start sp; endChar := node_end sp;
     content := substring code (node_start sp) (node_end sp);
     signature := sig; docstring := doc; decorators := None;
     isAsync := async; isGenerator := generator; isExported := false;
     isPartial := false; partNumber := None; totalParts := None;
     parentChunk := None |}.

Definition setExported (c : Chunk) : Chunk :=
  {| type := type c; name := name c;
     startLine := startLine c; endLine := endLine c;
     startChar := startChar c; endChar := endChar c;
     content := content c;
     signature := signature c; docstring := docstring c;
     decorators := decorators c;
     isAsync := isAsync c; isGenerator := isGenerator c; isExported := true;
     isPartial := isPartial c; partNumber := partNumber c;
     totalParts := totalParts c; parentChunk := parentChunk c |}.

Fixpoint extractNodeInfo (node : Node) (code : jstring) (lines : list jstring)
  : attempt (option Chunk) :=
  match node with
  | FunctionDeclaration sp id async generator body_start =>
      let nm := match id with Some n => n | None => anonymous end in
      let sig := extractSignature sp body_start code in
      match extractJSDoc sp lines with
      | Raise => Raise
      | Value doc =>
          Value (Some (declChunk (js "function") (Some nm) sp code
                         (Some sig) doc async generator))
      end
  | ClassDeclaration sp id =>
      let nm := match id with Some n => n | None => anonymous end in
      match extractJSDoc sp lines with
      | Raise => Raise
      | Value doc =>
          Value (Some (declChunk (js "class") (Some nm) sp code
                         (Some (js "class " ++ nm)) doc false false))
      end
  | VariableDeclaration sp declarations =>
      match firstFunctionDeclarator declarations with
      | None => Value None
      | Some (d, async) =>
          let sig := extractArrowSignature d code in
          match extractJSDoc sp lines with
          | Raise => Raise
          | Value doc =>
              Value (Some (declChunk (js "function") (decl_name d) sp code
                             (Some sig) doc async false))
          end
      end
  | ExportNamedDeclaration _ declaration
  | ExportDefaultDeclaration _ declaration =>
      match declaration with
      | None => Value None
      | Some d =>
          match extractNodeInfo d code lines with
          | Raise => Raise
          | Value None => Value None
          | Value (Some c) => Value (Some (setExported c))
          end
      end
  | OtherNode _ => Value None
  end.

(** The loop over [ast.body]: the chunks pushed, and whether the loop
    was left by an exception. *)
Fixpoint collectNodes (body : list Node) (code : jstring) (lines : list jstring)
  : list Chunk * bool :=
  match body with
  | [] => ([], false)
  | node :: body' =>
      match extractNodeInfo node code lines with
      | Raise => ([], true)
      | Value None => collectNodes body' code lines
      | Value (Some c) =>
          let '(cs, raised) := collectNodes body' code lines in
          (c :: cs, raised)
      end
  end.

Definition lineCount (code : jstring) : Z := len (split newline code).

Definition parseJavaScript (code filePath : jstring) : list Chunk :=
  match parse env code with
  | ParseError _ =>
      [wholeFile (js "unparseable") (lineCount code) code]
  | ParseOk body =>
      let lines := split newline code in
      match collectNodes body code lines with
      | (chunks, true) =>
          chunks ++ [wholeFile (js "unparseable") (lineCount code) code]
      | ([], false) => [wholeFile (js "module") (len lines) code]
      | (chunks, false) => chunks
      end
  end.

(** ** The indentation-delimited strategy *)

(** The [while] loop of [findPythonBlockEnd], on the lines from
    [endLine] on. *)
Fixpoint scanBlock (rest : list jstring) (endLine baseIndent : Z) : Z :=
  match rest with
  | [] => endLine
  | line :: rest' =>
      let trimmed := trim line in
      if negb (nonEmpty trimmed) || startsWith (js "#") trimmed then
        scanBlock rest' (endLine + 1) baseIndent
      else
        let indent := len line - len (trimStart line) in
        if indent <=? baseIndent then endLine
        else scanBlock rest' (endLine + 1) baseIndent
  end.

(** Returns [(endLine, endChar)]. *)
Definition findPythonBlockEnd (lines : list jstring) (startLine baseIndent : Z)
  : Z * Z :=
  let endLine :=
    scanBlock (skipn (Z.to_nat (startLine + 1)) lines) (startLine + 1)
      baseIndent in
  (endLine, len (join [newline] (slice lines 0 endLine))).

Definition dquote : ascii := ascii_of_nat 34.
Definition tripleDouble : jstring := [dquote; dquote; dquote].
Definition tripleSingle : jstring := js "'''".

(** The inner loop of the multi-line case: [docLines] grows by one line
    per step until a line ends with the quote. *)
Fixpoint closeDocstring (rest : list jstring) (quote : jstring)
  (docLines : list jstring) : option jstring :=
  match rest with
  | [] => None
  | l :: rest' =>
      let docLines' := docLines ++ [l] in
      if endsWith quote (trim l) then Some (trim (join [newline] docLines'))
      else closeDocstring rest' quote docLines'
  end.

Fixpoint docstringLoop (lines : list jstring) (stop : Z) (fuel : nat) (i : Z)
  : option jstring :=
  match fuel with
  | O => None
  | S fuel' =>
      if i <? stop then
        match get lines i with
        | None => None
        | Some l =>
            let line := trim l in
            let quoted :=
              startsWith tripleDouble line || startsWith tripleSingle line in
            let quote := substring line 0 3 in
            if quoted && endsWith quote line && (6 <? len line) then
              Some (trim (substring line 3 (len line - 3)))
            else
              match
                (if quoted
                 then closeDocstring (skipn (Z.to_nat (i + 1)) lines) quote [line]
                 else None)
              with
              | Some d => Some d
              | None =>
                  if nonEmpty line && negb (startsWith (js "#") line) then None
                  else docstringLoop lines stop fuel' (i + 1)
              end
        end
      else None
  end.

(** The outer loop visits at most the five lines from [startLine] on. *)
Definition extractPythonDocstring (lines : list jstring) (startLine : Z)
  : option jstring :=
  docstringLoop lines (Z.min (startLine + 5) (len lines)) 5 startLine.

(** [match[2].trim().split('\n').map(d => d.trim()).filter(Boolean)]. *)
Definition decoratorList (g : option jstring) : list jstring :=
  match g with
  | Some t =>
      if nonEmpty t
      then filter nonEmpty (map trim (split newline (trim t)))
      else []
  | None => []
  end.

Definition functionChunk (code : jstring) (lines : list jstring)
  (m : FunctionMatch) : Chunk :=
  let isAsync := match fm_async m with Some _ => true | None => false end in
  let startChar := fm_index m in
  let startLine := len (split newline (substring code 0 startChar)) in
  let '(endLine, endChar) :=
    findPythonBlockEnd lines (startLine - 1) (len (fm_indent m)) in
  {| type := js "function"; name := Some (fm_name m);
     startLine := startLine; endLine := endLine;
     startChar := startChar; endChar := endChar;
     content := substring code startChar endChar;
     signature :=
       Some ((if isAsync then js "async " else []) ++ js "def " ++ fm_name m
             ++ js "(" ++ fm_params m ++ js ")");
     docstring := extractPythonDocstring lines startLine;
     decorators := Some (decoratorList (fm_decorators m));
     isAsync := isAsync; isGenerator := false; isExported := false;
     isPartial := false; partNumber := None; totalParts := None;
     parentChunk := None |}.

Definition classChunk (code : jstring) (lines : list jstring)
  (m : ClassMatch) : Chunk :=
  let bases := match cm_bases m with Some b => b | None => [] end in
  let startChar := cm_index m in
  let startLine := len (split newline (substring code 0 startChar)) in
  let '(endLine, endChar) :=
    findPythonBlockEnd lines (startLine - 1) (len (cm_indent m)) in
  {| type := js "class"; name := Some (cm_name m);
     startLine := startLine; endLine := endLine;
     startChar := startChar; endChar := endChar;
     content := substring code startChar endChar;
     signature :=
       Some (js "class " ++ cm_name m
             ++ (if nonEmpty bases then js "(" ++ bases ++ js ")" else []));
     docstring := extractPythonDocstring lines startLine;
     decorators := None;
     isAsync := false; isGenerator := false; isExported := false;
     isPartial := false; partNumber := None; totalParts := None;
     parentChunk := None |}.

(** [chunks.sort((a, b) => a.startChar - b.startChar)]: the sort is
    stable, an element goes after those that do not start later. *)
Fixpoint insertByStart (c : Chunk) (sorted : list Chunk) : list Chunk :=
  match sorted with
  | [] => [c]
  | d :: sorted' =>
      if startChar c <? startChar d then c :: sorted
      else d :: insertByStart c sorted'
  end.

Definition sortByStart (chunks : list Chunk) : list Chunk :=
  fold_left (fun acc c => insertByStart c acc) chunks [].

Definition parsePython (code filePath : jstring) : list Chunk :=
  let lines := split newline code in
  let chunks :=
    map (functionChunk code lines) (execFunctionPattern env code)
    ++ map (classChunk code lines) (execClassPattern env code) in
  let chunks :=
    match chunks with
    | [] => [wholeFile (js "module") (len lines) code]
    | _ :: _ => chunks
    end in
  sortByStart chunks.

(** ** extractChunks *)

Definition extractChunks (code filePath : jstring) : list Chunk :=
  let language := detectLanguage filePath in
  if Js.eqb language (js "javascript") || Js.eqb language (js "typescript")
  then parseJavaScript code filePath
  else if Js.eqb language (js "python") then parsePython code filePath
  else [wholeFile unknown (lineCount code) code].

End WithEnv.

End Parser.

(* ================================================================= *)
(** * smart-chunker.js *)

Module Chunker.

Import Parser.

(** How a call ends: it returns, a [TypeError] escapes it, the fuel given
    to its loop ran out with the loop still going, or the line geometry of
    the splitter is not a finite number (the model stops there). *)
Inductive outcome (A : Type) :=
| Returns (a : A)
| Throws
| Running
| NonFinite.
Arguments Returns {A} a.
Arguments Throws {A}.
Arguments Running {A}.
Arguments NonFinite {A}.

(** How a loop stands after the iterations the fuel allowed. *)
Inductive status := Finished | Raised | OutOfFuel.

(** ** The oversize splitter *)

Definition isBraceLanguage (language : jstring) : bool :=
  Js.eqb language (js "javascript") || Js.eqb language (js "typescript").

Definition scoreSplitPoint (line language : jstring) : Z :=
  let trimmed := trim line in
  if negb (nonEmpty trimmed) then 10
  else if
    (if isBraceLanguage language then
       startsWith (js "//") trimmed || startsWith (js "/*") trimmed
       || startsWith (js "*") trimmed
     else if Js.eqb language (js "python") then startsWith (js "#") trimmed
     else false)
  then 8
  else if Js.eqb trimmed (js "}") || Js.eqb trimmed (js "};")
          || Js.eqb trimmed (js "])") || Js.eqb trimmed (js "];")
  then 7
  else if startsWith (js "return ") trimmed then 6
  else if Js.eqb trimmed (js "break;") || Js.eqb trimmed (js "continue;")
  then 5
  else 1.

(** The [for] loop of [findOptimalSplitPoint]: [count] indices from [i]
    on.  [None] is the [TypeError] of [undefined.trim()]. *)
Fixpoint scanWindow (lines : list jstring) (language : jstring) (count : nat)
  (i bestScore bestLine : Z) : option Z :=
  match count with
  | O => Some bestLine
  | S count' =>
      match get lines i with
      | None => None
      | Some line =>
          let score := scoreSplitPoint line language in
          if score >? bestScore
          then scanWindow lines language count' (i + 1) score i
          else scanWindow lines language count' (i + 1) bestScore bestLine
      end
  end.

Definition windowSize : Z := 10.

Definition findOptimalSplitPoint (lines : list jstring)
  (startLine idealEndLine : Z) (language : jstring) : option Z :=
  let searchStart := Z.max startLine (idealEndLine - windowSize) in
  let searchEnd := Z.min (len lines) (idealEndLine + windowSize) in
  scanWindow lines language (Z.to_nat (searchEnd - searchStart)) searchStart
    (-1) idealEndLine.

(** The object pushed by one iteration. *)
Definition subChunk (chunk : Chunk) (lines : list jstring)
  (preserveSignatures : bool) (currentLine splitPoint partNumber : Z) : Chunk :=
  let chunkLines := slice lines currentLine splitPoint in
  let chunkLines :=
    if preserveSignatures && truthy (signature chunk) && (partNumber >? 0)
    then (match signature chunk with Some s => s | None => [] end ++ js " {")
         :: chunkLines
    else chunkLines in
  {| type := type chunk; name := name chunk;
     startLine := startLine chunk + currentLine;
     endLine := startLine chunk + splitPoint - 1;
     startChar :=
       startChar chunk + len (join [newline] (slice lines 0 currentLine));
     endChar :=
       startChar chunk + len (join [newline] (slice lines 0 splitPoint));
     content := join [newline] chunkLines;
     signature := signature chunk;
     docstring := if partNumber =? 0 then docstring chunk else None;
     decorators := decorators chunk;
     isAsync := isAsync chunk; isGenerator := isGenerator chunk;
     isExported := isExported chunk;
     isPartial := true;
     partNumber := Some partNumber;
     totalParts := Some 0;
     parentChunk := name chunk |}.

(** The [while] loop of [splitWithOverlap], from the state
    [(currentLine, partNumber)]: the chunks pushed from here on, in
    order, and how the loop stands.  Line numbers are exact integers
    here; the code holds them in binary64, which computes the same sums
    and differences while they stay below [2 ^ 53] in magnitude. *)
Fixpoint splitLoop (fuel : nat) (chunk : Chunk) (lines : list jstring)
  (linesPerChunk overlapLines : Z) (preserveSignatures : bool)
  (language : jstring) (currentLine partNumber : Z) : list Chunk * status :=
  match fuel with
  | O => ([], OutOfFuel)
  | S fuel' =>
      if currentLine <? len lines then
        let endLine := Z.min (currentLine + linesPerChunk) (len lines) in
        match findOptimalSplitPoint lines currentLine endLine language with
        | None => ([], Raised)
        | Some splitPoint =>
            let c := subChunk chunk lines preserveSignatures currentLine
                       splitPoint partNumber in
            let currentLine' := splitPoint - overlapLines in
            if currentLine' >=? len lines - overlapLines then ([c], Finished)
            else
              let '(cs, st) :=
                splitLoop fuel' chunk lines linesPerChunk overlapLines
                  preserveSignatures language currentLine' (partNumber + 1) in
              (c :: cs, st)
        end
      else ([], Finished)
  end.

Definition setTotalParts (n : Z) (c : Chunk) : Chunk :=
  {| type := type c; name := name c;
     startLine := startLine c; endLine := endLine c;
     startChar := startChar c; endChar := endChar c;
     content := content c;
     signature := signature c; docstring := docstring c;
     decorators := decorators c;
     isAsync := isAsync c; isGenerator := isGenerator c;
     isExported := isExported c;
     isPartial := isPartial c; partNumber := partNumber c;
     totalParts := Some n; parentChunk := parentChunk c |}.

(** [chunks.forEach(c => c.totalParts = chunks.length)]. *)
Definition backfill (chunks : list Chunk) : list Chunk :=
  map (setTotalParts (len chunks)) chunks.

(** [Math.floor(size / avgLineLength)] for both sizes, where
    [avgLineLength = content.length / lines.length].  [None] when a
    quotient is not a finite number: the code goes on with [Infinity]
    or [NaN] there, and the embedding does not follow it. *)
Definition lineGeometry (maxChunkSize overlap : Z) (contentLength lineTotal : Z)
  : option (Z * Z) :=
  let avgLineLength := div (ofZ contentLength) (ofZ lineTotal) in
  match floor (div (ofZ maxChunkSize) avgLineLength),
        floor (div (ofZ overlap) avgLineLength) with
  | Some linesPerChunk, Some overlapLines => Some (linesPerChunk, overlapLines)
  | _, _ => None
  end.

(** The chunks [splitWithOverlap] has pushed after at most [fuel]
    iterations of its loop, and how the loop stands then. *)
Definition splitRun (fuel : nat) (chunk : Chunk)
  (maxChunkSize overlap : Z) (preserveSignatures : bool) (language : jstring)
  : option (list Chunk * status) :=
  let lines := split newline (content chunk) in
  match lineGeometry maxChunkSize overlap (len (content chunk)) (len lines) with
  | Some (linesPerChunk, overlapLines) =>
      Some (splitLoop fuel chunk lines linesPerChunk overlapLines
              preserveSignatures language 0 0)
  | None => None
  end.

Definition splitWithOverlap (fuel : nat) (chunk : Chunk)
  (maxChunkSize overlap : Z) (preserveSignatures : bool) (language : jstring)
  : outcome (list Chunk) :=
  match splitRun fuel chunk maxChunkSize overlap preserveSignatures language with
  | Some (chunks, Finished) => Returns (backfill chunks)
  | Some (_, Raised) => Throws
  | Some (_, OutOfFuel) => Running
  | None => NonFinite
  end.

(** ** The fallback windower *)

Definition textChunk (content : jstring) (maxChunkSize start stop partNumber : Z)
  : Chunk :=
  {| type := js "text"; name := Some (js "chunk_" ++ ofInt partNumber);
     startLine := len (split newline (substring content 0 start)) + 1;
     endLine := len (split newline (substring content 0 stop));
     startChar := start; endChar := stop;
     content := substring content start stop;
     signature := None; docstring := None; decorators := None;
     isAsync := false; isGenerator := false; isExported := false;
     isPartial := maxChunkSize <? len content;
     partNumber := Some partNumber;
     totalParts := Some 0;
     parentChunk := None |}.

(** The [while] loop of [simpleChunk], from the state
    [(start, partNumber)].  Offsets are exact integers here; the code
    holds them in binary64, which computes the same sums and differences
    while they stay below [2 ^ 53] in magnitude. *)
Fixpoint simpleLoop (fuel : nat) (content : jstring) (maxChunkSize overlap : Z)
  (start partNumber : Z) : list Chunk * status :=
  match fuel with
  | O => ([], OutOfFuel)
  | S fuel' =>
      if start <? len content then
        let stop := Z.min (start + maxChunkSize) (len content) in
        let c := textChunk content maxChunkSize start stop partNumber in
        let start' := stop - overlap in
        if start' >=? len content - overlap then ([c], Finished)
        else
          let '(cs, st) :=
            simpleLoop fuel' content maxChunkSize overlap start'
              (partNumber + 1) in
          (c :: cs, st)
      else ([], Finished)
  end.

Definition simpleChunk (fuel : nat) (content : jstring)
  (maxChunkSize overlap : Z) : outcome (list Chunk) :=
  if len content <=? maxChunkSize then
    Returns
      [ {| type := js "text"; name := Some (js "content");
           startLine := 1; endLine := lineCount content;
           startChar := 0; endChar := len content;
           content := content;
           signature := None; docstring := None; decorators := None;
           isAsync := false; isGenerator := false; isExported := false;
           isPartial := false; partNumber := None; totalParts := None;
           parentChunk := None |} ]
  else
    match simpleLoop fuel content maxChunkSize overlap 0 0 with
    | (chunks, Finished) => Returns (backfill chunks)
    | (_, Raised) => Throws
    | (_, OutOfFuel) => Running
    end.

(** ** The metadata enricher *)

Definition isCommentStart (trimmed : jstring) : bool :=
  startsWith (js "//") trimmed || startsWith (js "#") trimmed
  || startsWith (js "/*") trimmed || startsWith (js "*") trimmed.

Definition calculateLOC (content : jstring) : Z :=
  len (filter (fun line => let trimmed := trim line in
                           nonEmpty trimmed && negb (isCommentStart trimmed))
         (split newline content)).

(** *** The patterns of [estimateComplexity]

    A pattern is a function that, given the code unit before a position
    and the text from the position on, returns the length of the match
    that starts there.  [content.match(pattern)] with the [g] flag takes
    the matches from left to right, each search starting where the match
    before ended. *)

Definition pattern := option ascii -> jstring -> option nat.

Definition isWordChar (c : ascii) : bool :=
  let n := nat_of_ascii c in
  (((48 <=? n) && (n <=? 57)) || ((65 <=? n) && (n <=? 90))
   || ((97 <=? n) && (n <=? 122)) || (n =? 95))%nat.

Definition isWordAt (o : option ascii) : bool :=
  match o with Some c => isWordChar c | None => false end.

(** The assertion [\b] between two neighbours. *)
Definition wordBoundary (before after : option ascii) : bool :=
  xorb (isWordAt before) (isWordAt after).

Definition lastOf (w : jstring) (before : option ascii) : option ascii :=
  match rev w with c :: _ => Some c | [] => before end.

(** [/\bw\b/] *)
Definition word (w : jstring) : pattern := fun before s =>
  let rest := skipn (List.length w) s in
  if wordBoundary before (head s) && startsWith w s
     && wordBoundary (lastOf w before) (head rest)
  then Some (List.length w) else None.

(** [/\belse\s+if\b/] *)
Definition elseIf : pattern := fun before s =>
  let afterElse := skipn 4 s in
  let afterSpace := trimStart afterElse in
  let spaces := (List.length afterElse - List.length afterSpace)%nat in
  if wordBoundary before (head s) && startsWith (js "else") s
     && (1 <=? spaces)%nat && startsWith (js "if") afterSpace
     && wordBoundary (Some "f"%char) (head (skipn 2 afterSpace))
  then Some (4 + spaces + 2)%nat else None.

(** A pattern that is plain text. *)
Definition literal (w : jstring) : pattern := fun _ s =>
  if startsWith w s then Some (List.length w) else None.

(** [(content.match(p) || []).length]: [skip] code units of the current
    match remain to be passed over. *)
Fixpoint countMatches (p : pattern) (skip : nat) (before : option ascii)
  (s : jstring) : nat :=
  match s with
  | [] => 0
  | c :: s' =>
      match skip with
      | S skip' => countMatches p skip' (Some c) s'
      | O =>
          match p before s with
          | Some n => S (countMatches p (Nat.pred n) (Some c) s')
          | None => countMatches p 0 (Some c) s'
          end
      end
  end.

Definition patterns : list pattern :=
  [ word (js "if"); elseIf; word (js "else"); word (js "for");
    word (js "while"); word (js "case"); word (js "catch"); word (js "try");
    word (js "and"); word (js "or");
    literal (js "&&"); literal (js "||"); literal (js "?") ].

Definition estimateComplexity (content : jstring) : Z :=
  let complexity :=
    fold_left (fun acc p => acc + Z.of_nat (countMatches p 0 None content))
      patterns 1 in
  Z.min complexity 100.

(** [Math.round]: the nearest integer, halves going up. *)
Definition round (x : Q) : Z := Qfloor (x + (1 # 2))%Q.

Definition isPublicName (nm : option jstring) : bool :=
  match nm with
  | Some n => nonEmpty n && negb (startsWith (js "_") n)
  | None => false
  end.

Definition scoreChunk (chunk : Chunk) : Z :=
  let score := 5%Q in
  let score := if isExported chunk then (score + 2)%Q else score in
  let score := if isPublicName (name chunk) then (score + 1)%Q else score in
  let score :=
    if Js.eqb (type chunk) (js "function") then (score + 1)%Q else score in
  let score :=
    if Js.eqb (type chunk) (js "class") then (score + 1)%Q else score in
  let score := if truthy (docstring chunk) then (score + 1)%Q else score in
  let score := if isAsync chunk then (score + (1 # 2))%Q else score in
  let score := if isGenerator chunk then (score + (1 # 2))%Q else score in
  Z.min (round score) 10.

(** [v || null]. *)
Definition orNull (v : option jstring) : option jstring :=
  if truthy v then v else None.

(** The [metadata] object.  The four keys that share their name with a
    key of the chunk carry the prefix [meta_]. *)
Record Metadata := {
  chunk_type : jstring;
  meta_name : option jstring;
  language : jstring;
  start_line : Z;
  end_line : Z;
  start_char : Z;
  end_char : Z;
  line_count : Z;
  char_count : Z;
  is_partial : bool;
  part_number : Z;
  total_parts : Z;
  parent_chunk : option jstring;
  meta_signature : option jstring;
  has_docstring : bool;
  meta_docstring : option jstring;
  meta_decorators : option jstring;
  complexity_estimate : Z;
  loc : Z;
  chunk_score : Z;
  is_public : option bool;
  is_exported : bool;
  is_async : bool;
  is_generator : bool;
  preview : jstring
}.

(** What [intelligentChunk] puts in the array it returns: the object
    [{ content, metadata }] of the enricher, or a chunk as the windower
    built it. *)
Inductive Item :=
| Enriched (text : jstring) (metadata : Metadata)
| Plain (chunk : Chunk).

(** The options object; a key that is left out takes its default. *)
Record Options := {
  maxChunkSize : option Z;
  overlap : option Z;
  minChunkSize : option Z;
  preserveSignatures : option bool;
  calculateComplexity : option bool
}.

Definition noOptions : Options :=
  {| maxChunkSize := None; overlap := None; minChunkSize := None;
     preserveSignatures := None; calculateComplexity := None |}.

Definition orDefault {A : Type} (d : A) (o : option A) : A :=
  match o with Some a => a | None => d end.

Section WithEnv.

Variable env : Env.

(** [is_public] is the value of
    [chunk.name && !chunk.name.startsWith('_')]: a boolean, or the falsy
    name itself ([None] here). *)
Definition enrichChunkMetadata (chunk : Chunk) (fullContent filePath : jstring)
  (calculate : bool) : Item :=
  let loc := calculateLOC (content chunk) in
  let complexity := if calculate then estimateComplexity (content chunk) else 0 in
  let score := scoreChunk chunk in
  let isPublic :=
    match name chunk with
    | Some n => if nonEmpty n then Some (negb (startsWith (js "_") n)) else None
    | None => None
    end in
  Enriched (content chunk)
    {| chunk_type := type chunk;
       meta_name := name chunk;
       language := detectLanguage env filePath;
       start_line := startLine chunk;
       end_line := endLine chunk;
       start_char := startChar chunk;
       end_char := endChar chunk;
       line_count := endLine chunk - startLine chunk + 1;
       char_count := len (content chunk);
       is_partial := isPartial chunk;
       part_number := orDefault 0 (partNumber chunk);
       total_parts := orDefault 1 (totalParts chunk);
       parent_chunk := orNull (parentChunk chunk);
       meta_signature := orNull (signature chunk);
       has_docstring := truthy (docstring chunk);
       meta_docstring := orNull (docstring chunk);
       meta_decorators :=
         match decorators chunk with
         | Some ds => Some (join (js ", ") ds)
         | None => None
         end;
       complexity_estimate := complexity;
       loc := loc;
       chunk_score := score;
       is_public := isPublic;
       is_exported := isExported chunk;
       is_async := isAsync chunk;
       is_generator := isGenerator chunk;
       preview := trim (flattenNewlines (substring (content chunk) 0 200)) |}.

(** The loop of [intelligentChunk] over the parsed chunks. *)
Fixpoint processChunks (fuel : nat) (parsedChunks : list Chunk)
  (fileContent filePath : jstring) (maxSize over : Z) (preserve calculate : bool)
  (language : jstring) : outcome (list Item) :=
  match parsedChunks with
  | [] => Returns []
  | chunk :: rest =>
      let next :=
        processChunks fuel rest fileContent filePath maxSize over preserve
          calculate language in
      if len (content chunk) <=? maxSize then
        match next with
        | Returns items =>
            Returns (enrichChunkMetadata chunk fileContent filePath calculate
                     :: items)
        | other => other
        end
      else
        match splitWithOverlap fuel chunk maxSize over preserve language with
        | Returns splitChunks =>
            match next with
            | Returns items =>
                Returns
                  (map (fun c => enrichChunkMetadata c fileContent filePath calculate)
                     splitChunks ++ items)
            | other => other
            end
        | Throws => Throws
        | Running => Running
        | NonFinite => NonFinite
        end
  end.

Definition intelligentChunk (fuel : nat) (fileContent filePath : jstring)
  (options : Options) : outcome (list Item) :=
  let maxSize := orDefault 4000 (maxChunkSize options) in
  let over := orDefault 200 (overlap options) in
  let preserve := orDefault true (preserveSignatures options) in
  let calculate := orDefault true (calculateComplexity options) in
  let language := detectLanguage env filePath in
  if Js.eqb language unknown then
    match simpleChunk fuel fileContent maxSize over with
    | Returns chunks => Returns (map Plain chunks)
    | Throws => Throws
    | Running => Running
    | NonFinite => NonFinite
    end
  else
    processChunks fuel (extractChunks env fileContent filePath) fileContent filePath
      maxSize over preserve calculate language.

End WithEnv.

End Chunker.

(* ================================================================= *)
(** * The embedding client *)

Module Embedder.

Import Chunker.

(** The [for] loop of [createBatches], from index [i]. *)
Fixpoint batchLoop {A : Type} (fuel : nat) (items : list A) (size i : Z)
  : list (list A) * status :=
  match fuel with
  | O => ([], OutOfFuel)
  | S fuel' =>
      if i <? len items then
        let '(batches, st) := batchLoop fuel' items size (i + size) in
        (slice items i (i + size) :: batches, st)
      else ([], Finished)
  end.

Definition createBatches {A : Type} (fuel : nat) (items : list A) (size : Z)
  : outcome (list (list A)) :=
  match batchLoop fuel items size 0 with
  | (batches, Finished) => Returns batches
  | (_, Raised) => Throws
  | (_, OutOfFuel) => Running
  end.

(** What [shouldRetryError] reads of an error: [status], a number or
    absent, and [code], a string or absent. *)
Record ApiError := {
  status_code : option Z;
  error_code : option jstring
}.

Definition shouldRetryError (error : ApiError) : bool :=
  match status_code error with
  | Some s => (s =? 429) || ((500 <=? s) && (s <? 600))
  | None => false
  end
  || match error_code error with
     | Some c => Js.eqb c (js "ECONNRESET") || Js.eqb c (js "ETIMEDOUT")
     | None => false
     end.

(** How a call of [fn] ends. *)
Inductive Settled (A : Type) :=
| Fulfilled (a : A)
| Rejected (error : ApiError).
Arguments Fulfilled {A} a.
Arguments Rejected {A} error.

(** [withRetry(fn, retryCount)]: [fn call] is how the call number [call]
    of [fn] ends.  The result is the list of the delays handed to
    [setTimeout], in milliseconds, and how the promise settles ([None]:
    the fuel ran out).  A delay is the binary64 product the source
    computes.  [retryCount] starts at 0 and grows by one. *)
Fixpoint withRetry {A : Type} (fuel : nat) (maxRetries : Z)
  (fn : nat -> Settled A) (call : nat) (retryCount : Z)
  : list number * option (Settled A) :=
  match fuel with
  | O => ([], None)
  | S fuel' =>
      match fn call with
      | Fulfilled a => ([], Some (Fulfilled a))
      | Rejected error =>
          let shouldRetry :=
            shouldRetryError error && (retryCount <? maxRetries) in
          if negb shouldRetry then ([], Some (Rejected error))
          else
            let delay := mul (pow2 retryCount) (ofZ 1000) in
            let '(delays, settled) :=
              withRetry fuel' maxRetries fn (S call) (retryCount + 1) in
            (delay :: delays, settled)
      end
  end.

End Embedder.

(* ================================================================= *)
(** * The uninstaller *)

Module Uninstaller.

Import Chunker.

(** What the promise of [confirm] resolves to for an answer typed at
    the prompt. *)
Definition confirm (answer : jstring) (defaultValue : bool) : bool :=
  if Js.eqb (trim answer) [] then defaultValue
  else startsWith (js "y") (toLowerCase answer).

(** ** String search *)

(** The search of [indexOf] in [s], whose first code unit has index
    [pos] in the whole string. *)
Fixpoint indexFrom (p s : jstring) (pos : Z) : Z :=
  if startsWith p s then pos
  else match s with
       | [] => -1
       | _ :: s' => indexFrom p s' (pos + 1)
       end.

(** [s.indexOf(p, from)] *)
Definition indexOf (s p : jstring) (from : Z) : Z :=
  let k := clamp 0 (len s) from in
  indexFrom p (skipn (Z.to_nat k) s) k.

(** The search of [lastIndexOf], from index [i] down to 0. *)
Fixpoint lastIndexFrom (p s : jstring) (i : nat) : Z :=
  if startsWith p (skipn i s) then Z.of_nat i
  else match i with
       | O => -1
       | S i' => lastIndexFrom p s i'
       end.

(** [s.lastIndexOf(p, from)]: the last match that starts at or before
    [from]. *)
Definition lastIndexOf (s p : jstring) (from : Z) : Z :=
  let start := Z.min (clamp 0 (len s) from) (len s - len p) in
  if start <? 0 then -1 else lastIndexFrom p s (Z.to_nat start).

(** [s.includes(p)] *)
Definition includes (s p : jstring) : bool :=
  negb (indexOf s p 0 =? -1).

(** [s.replace(/\n{3,}/g, '\n\n')]: of a run of line feeds the first two
    stay; [run] counts the line feeds just passed. *)
Fixpoint collapseBlankLines (s : jstring) (run : nat) : jstring :=
  match s with
  | [] => []
  | c :: s' =>
      if Ascii.eqb c newline then
        if (run <? 2)%nat then c :: collapseBlankLines s' (S run)
        else collapseBlankLines s' (S run)
      else c :: collapseBlankLines s' 0
  end.

(** ** cleanCodexConfig *)

Definition startMarkers : list jstring :=
  [ js "# Patched vespo92 ChromaDB MCP server";
    js "# ChromaDB MCP Server";
    js "[mcp_servers.chromadb_context_vespo]";
    js "[mcp_servers.chromadb-vespo]";
    js "[mcp_servers.chromadb_vespo]" ].

(** The loop that walks back over the lines above the marker, from the
    nearest line on; the lines come in that order. *)
Fixpoint lookBack (config : jstring) (startIdx : Z) (above : list jstring)
  (sectionStart : Z) : Z :=
  match above with
  | [] => sectionStart
  | l :: above' =>
      let line := trim l in
      if startsWith (js "#") line || Js.eqb line [] then
        let sectionStart :=
          if includes (toLowerCase line) (js "chroma")
             || includes (toLowerCase line) (js "vespo")
             || Js.eqb line []
          then lastIndexOf config l startIdx
          else sectionStart in
        lookBack config startIdx above' sectionStart
      else sectionStart
  end.

(** One turn of the [while] loop: the section found at [startIdx] is cut
    out. *)
Definition removeSection (config : jstring) (startIdx : Z) : jstring :=
  let lines := split newline (substring config 0 startIdx) in
  let sectionStart := lookBack config startIdx (rev lines) startIdx in
  let nextSection := indexOf config (newline :: js "[") (startIdx + 1) in
  let sectionEnd := if nextSection =? -1 then len config else nextSection in
  substring config 0 sectionStart ++ substring config sectionEnd (len config).

(** The [while] loop for one marker; [None] when the fuel runs out. *)
Fixpoint removeMarker (fuel : nat) (marker config : jstring) (modified : bool)
  : option (jstring * bool) :=
  match fuel with
  | O => None
  | S fuel' =>
      let startIdx := indexOf config marker 0 in
      if startIdx =? -1 then Some (config, modified)
      else removeMarker fuel' marker (removeSection config startIdx) true
  end.

(** The [for] loop over the markers. *)
Fixpoint removeMarkers (fuel : nat) (markers : list jstring) (config : jstring)
  (modified : bool) : option (jstring * bool) :=
  match markers with
  | [] => Some (config, modified)
  | marker :: markers' =>
      match removeMarker fuel marker config modified with
      | Some (config', modified') =>
          removeMarkers fuel markers' config' modified'
      | None => None
      end
  end.

(** [cleanCodexConfig], on the content of the configuration file
    ([None]: there is no such file): the text written back to the file,
    if any.  Reading and writing the file are left outside; an exception
    of either is caught and logged by the source. *)
Definition cleanCodexConfig (fuel : nat) (file : option jstring)
  : outcome (option jstring) :=
  match file with
  | None => Returns None
  | Some config =>
      match removeMarkers fuel startMarkers config false with
      | Some (config', true) =>
          Returns (Some (trim (collapseBlankLines config' 0) ++ [newline]))
      | Some (_, false) => Returns None
      | None => Running
      end
  end.

End Uninstaller.

(* ================================================================= *)
(** * Vocabulary of the statements *)

(** acorn reports, for every node, a span inside the text. *)
Definition spanInside (n : Z) (sp : Parser.Span) : Prop :=
  0 <= Parser.node_start sp /\ Parser.node_start sp <= Parser.node_end sp
  /\ Parser.node_end sp <= n.

Fixpoint nodeInside (n : Z) (node : Parser.Node) : Prop :=
  match node with
  | Parser.FunctionDeclaration sp _ _ _ _ => spanInside n sp
  | Parser.ClassDeclaration sp _ => spanInside n sp
  | Parser.VariableDeclaration sp _ => spanInside n sp
  | Parser.OtherNode sp => spanInside n sp
  | Parser.ExportNamedDeclaration sp d
  | Parser.ExportDefaultDeclaration sp d =>
      spanInside n sp
      /\ match d with Some d' => nodeInside n d' | None => True end
  end.

(** What the statements about offsets ask of the environment on a text:
    the nodes of the program lie inside the text, and a match of a Python
    pattern starts inside the text. *)
Definition wellFormed (env : Parser.Env) (code : jstring) : Prop :=
  match Parser.parse env code with
  | Parser.ParseOk body => Forall (nodeInside (len code)) body
  | Parser.ParseError _ => True
  end
  /\ Forall (fun m => 0 <= Parser.fm_index m <= len code)
       (Parser.execFunctionPattern env code)
  /\ Forall (fun m => 0 <= Parser.cm_index m <= len code)
       (Parser.execClassPattern env code).

(** The offsets of a chunk lie inside the text, in order. *)
Definition offsetsInside (code : jstring) (c : Chunk) : Prop :=
  0 <= startChar c /\ startChar c <= endChar c /\ endChar c <= len code.

(** The content of a chunk is the text between its offsets. *)
Definition isSlice (code : jstring) (c : Chunk) : Prop :=
  content c = substring code (startChar c) (endChar c).

(** A number that is not negative: its sign bit is clear, or it is NaN. *)
Definition unsigned (x : number) : Prop :=
  match x with
  | S754_zero s | S754_infinity s | S754_finite s _ _ => s = false
  | S754_nan => True
  end.

(** The windows [simpleChunk] lays out from [start] on: every window but
    the last is [maxSize] long and stops before the end, the next one
    starts [over] code units before that stop, and the last one stops at
    the end of the text. *)
Inductive windows (content : jstring) (maxSize over : Z)
  : Z -> list Chunk -> Prop :=
| windows_last (start : Z) (c : Chunk) :
    startChar c = start -> endChar c = len content ->
    start < len content -> windows content maxSize over start [c]
| windows_step (start : Z) (c : Chunk) (rest : list Chunk) :
    startChar c = start -> endChar c = start + maxSize ->
    start + maxSize < len content ->
    windows content maxSize over (start + maxSize - over) rest ->
    windows content maxSize over start (c :: rest).

(** The array [chunks] of [splitWithOverlap] after at most [fuel]
    iterations of its loop; [totalParts] is filled in once the loop is
    over, and the array is then what the call returns. *)
Definition chunksAfter (fuel : nat) (chunk : Chunk) (maxChunkSize overlap : Z)
  (preserveSignatures : bool) (language : jstring) : list Chunk :=
  match Chunker.splitRun fuel chunk maxChunkSize overlap preserveSignatures
          language with
  | Some (chunks, Chunker.Finished) => Chunker.backfill chunks
  | Some (chunks, _) => chunks
  | None => []
  end.

(** Order of the Python parser's output: by start offset. *)
Definition byStart (a b : Chunk) : Prop := startChar a <= startChar b.

(** The two statements that export a declaration. *)
Definition isExportNode (node : Parser.Node) : bool :=
  match node with
  | Parser.ExportNamedDeclaration _ _
  | Parser.ExportDefaultDeclaration _ _ => true
  | _ => false
  end.

(** A line that [findPythonBlockEnd] passes over whatever its
    indentation: blank, or a comment. *)
Definition pythonSkipped (line : jstring) : bool :=
  negb (nonEmpty (trim line)) || startsWith (js "#") (trim line).

Definition indentation (line : jstring) : Z := len line - len (trimStart line).

(** The 1-based number of the line that holds offset [p] of a text. *)
Definition lineAt (text : jstring) (p : Z) : Z :=
  1 + len (filter (Ascii.eqb newline) (firstn (Z.to_nat p) text)).

(** A chunk as a parser builds it: not a part of a split. *)
Definition unsplit (c : Chunk) : Prop :=
  isPartial c = false /\ partNumber c = None /\ totalParts c = None.

(** The kinds of chunk the two structural parsers build. *)
Definition structuralKind (ty : jstring) : Prop :=
  ty = js "function" \/ ty = js "class" \/ ty = js "other".

(** [p] occurs in [s]. *)
Definition occurs (p s : jstring) : Prop := exists a b, s = a ++ p ++ b.

(** A text without a line feed. *)
Definition oneLined (p : jstring) : Prop := ~ In newline p.

Definition tripleNewline : jstring := [newline; newline; newline].


(** Two numbers are the same datum. *)
Definition sameNumber (x y : number) : bool :=
  match x, y with
  | S754_zero a, S754_zero b => Bool.eqb a b
  | S754_infinity a, S754_infinity b => Bool.eqb a b
  | S754_nan, S754_nan => true
  | S754_finite s m e, S754_finite s' m' e' =>
      Bool.eqb s s' && Pos.eqb m m' && Z.eqb e e'
  | _, _ => false
  end.

(** For [retryCount = n] the product [Math.pow(2, n) * 1000] is the
    binary64 value of the integer [1000 * 2 ^ n], and that value is the
    integer itself. *)
Definition backoffIsExact (n : nat) : bool :=
  let k := Z.of_nat n in
  sameNumber (mul (pow2 k) (ofZ 1000)) (ofZ (1000 * 2 ^ k))
  && match floor (ofZ (1000 * 2 ^ k)) with
     | Some z => z =? 1000 * 2 ^ k
     | None => false
     end.

(** Case analysis on the condition of the first conditional of the
    goal. *)
Ltac case_if :=
  match goal with
  | |- context [if ?b then _ else _] => destruct b
  end.

(* ================================================================= *)
(** * Inputs of the examples *)

Definition unlines (ls : list jstring) : jstring := join [newline] ls.

(** A stand-in for [path.extname] that agrees with it on plain file
    names such as [notes.txt]: the text from the last dot on. *)
Fixpoint untilDot (reversed acc : jstring) : jstring :=
  match reversed with
  | [] => []
  | c :: r => if Ascii.eqb c "."%char then c :: acc else untilDot r (c :: acc)
  end.

Definition extnameOfPlainName (p : jstring) : jstring := untilDot (rev p) [].

(** An environment in which [parse] answers [r] and no Python pattern
    matches. *)
Definition envWith (r : Parser.ParseResult) : Parser.Env :=
  {| Parser.extname := extnameOfPlainName;
     Parser.parse := fun _ => r;
     Parser.execFunctionPattern := fun _ => [];
     Parser.execClassPattern := fun _ => [] |}.

Definition syntaxError : Parser.ParseResult :=
  Parser.ParseError (js "Unexpected token").

Definition wholeSpan (code : jstring) : Parser.Span :=
  {| Parser.node_start := 0; Parser.node_end := len code;
     Parser.loc_start_line := 1;
     Parser.loc_end_line := Parser.lineCount code |}.

Definition sizes (maxSize over : Z) : Chunker.Options :=
  {| Chunker.maxChunkSize := Some maxSize; Chunker.overlap := Some over;
     Chunker.minChunkSize := None; Chunker.preserveSignatures := None;
     Chunker.calculateComplexity := None |}.

Definition withoutComplexity : Chunker.Options :=
  {| Chunker.maxChunkSize := None; Chunker.overlap := None;
     Chunker.minChunkSize := None; Chunker.preserveSignatures := None;
     Chunker.calculateComplexity := Some false |}.

(** What a call returned; empty when it did not return. *)
Definition returned {A : Type} (o : Chunker.outcome (list A)) : list A :=
  match o with Chunker.Returns l => l | _ => [] end.

(** The output for a small file that does not parse, with
    [calculateComplexity: false]. *)
Definition brokenFileOutput : list Chunker.Item :=
  Eval vm_compute in
    returned (Chunker.intelligentChunk (envWith syntaxError) 1
                (js "function (") (js "broken.js") withoutComplexity).

(** A file of one line of 4001 code units, one more than the default
    [maxChunkSize]; acorn reads it as one expression statement. *)
Definition oneLine : jstring := repeat "a"%char 4001.

Definition oneLineEnv : Parser.Env :=
  envWith (Parser.ParseOk [Parser.OtherNode (wholeSpan oneLine)]).

(** A documentation comment of one line and a function of four lines:
    38 code units.  The function starts at offset 11, on line 2, its body
    opens at offset 24, and it ends at offset 38, on line 5. *)
Definition functionSource : jstring :=
  unlines [js "/** doc */"; js "function f() {"; js ""; js "return 1;"; js "}"].

Definition functionEnv : Parser.Env :=
  envWith
    (Parser.ParseOk
       [Parser.FunctionDeclaration
          {| Parser.node_start := 11; Parser.node_end := 38;
             Parser.loc_start_line := 2; Parser.loc_end_line := 5 |}
          (Some (js "f")) false false 24]).

(** The chunk the parser builds for that function: 27 code units, with
    the signature [function f()] and the comment as documentation. *)
Definition documentedFunction : Chunk :=
  Eval vm_compute in
    hd (wholeFile [] 0 [])
      (Parser.extractChunks functionEnv functionSource (js "f.js")).



(** The engine on that function with [maxChunkSize: 14] and
    [overlap: -1]: the splitter returns two parts. *)
Definition functionOutput : list Chunker.Item :=
  Eval vm_compute in
    returned (Chunker.intelligentChunk functionEnv 3 functionSource
                (js "f.js") (sizes 14 (-1))).

(** The array of the splitter after two iterations on the documented
    function, with [maxChunkSize: 14] and [overlap: 0]. *)
Definition documentedParts : list Chunk :=
  Eval vm_compute in
    chunksAfter 2 documentedFunction 14 0 true (js "javascript").

(** What the splitter returns for the documented function with
    [maxChunkSize: 14] and [overlap: -1]: two parts. *)
Definition documentedReturn : list Chunk :=
  Eval vm_compute in
    returned (Chunker.splitWithOverlap 3 documentedFunction 14 (-1) true
                (js "javascript")).

(** A text file of eleven code units. *)
Definition notes : jstring := js "hello world".





(** The documented function of [functionSource] behind an [export]:
    45 code units.  The export statement starts at offset 11, on line 2,
    the function at offset 18, its body at offset 31, and both end at
    offset 45, on line 5. *)
Definition exportedSource : jstring :=
  unlines [js "/** doc */"; js "export function f() {"; js ""; js "return 1;";
           js "}"].

Definition exportedNode : Parser.Node :=
  Parser.ExportNamedDeclaration
    {| Parser.node_start := 11; Parser.node_end := 45;
       Parser.loc_start_line := 2; Parser.loc_end_line := 5 |}
    (Some
       (Parser.FunctionDeclaration
          {| Parser.node_start := 18; Parser.node_end := 45;
             Parser.loc_start_line := 2; Parser.loc_end_line := 5 |}
          (Some (js "f")) false false 31)).

Definition exportedChunk : Chunk :=
  Eval vm_compute in
    match Parser.extractNodeInfo exportedNode exportedSource
            (split newline exportedSource) with
    | Parser.Value (Some c) => c
    | _ => wholeFile [] 0 []
    end.

(** Two functions separated by two carriage returns and no line feed: 30
    code units in one line of [split], three lines for acorn.  The
    second function starts at offset 16, on acorn's line 3. *)
Definition carriageSource : jstring :=
  js "function g(){}" ++ [ascii_of_nat 13; ascii_of_nat 13]
  ++ js "function f(){}".

Definition firstCarriageNode : Parser.Node :=
  Parser.FunctionDeclaration
    {| Parser.node_start := 0; Parser.node_end := 14;
       Parser.loc_start_line := 1; Parser.loc_end_line := 1 |}
    (Some (js "g")) false false 12.

Definition secondCarriageNode : Parser.Node :=
  Parser.FunctionDeclaration
    {| Parser.node_start := 16; Parser.node_end := 30;
       Parser.loc_start_line := 3; Parser.loc_end_line := 3 |}
    (Some (js "f")) false false 28.

Definition carriageEnv : Parser.Env :=
  envWith (Parser.ParseOk [firstCarriageNode; secondCarriageNode]).

Definition carriageChunks : list Chunk :=
  Eval vm_compute in
    fst (Parser.collectNodes [firstCarriageNode] carriageSource
           (split newline carriageSource)).

(** A Python function of two lines, an empty line and a statement at
    the left margin. *)
Definition pythonLines : list jstring :=
  [js "def f():"; js "  pass"; js ""; js "x = 1"].

(** Twelve code units in one line. *)
Definition alphabet : jstring := js "abcdefghijkl".

(** The windows of [alphabet] with [maxChunkSize: 5] and [overlap: 2]. *)
Definition alphabetWindows : list Chunk :=
  Eval vm_compute in returned (Chunker.simpleChunk 12 alphabet 5 2).

(** An error of the API that is worth a retry: HTTP 429. *)
Definition rateLimited : Embedder.ApiError :=
  {| Embedder.status_code := Some 429; Embedder.error_code := None |}.

(** A configuration file of 117 code units with the server's section,
    under its comment, between two other sections. *)
Definition codexConfig : jstring :=
  unlines [js "model = x"; js "";
           js "# Patched vespo92 ChromaDB MCP server";
           js "[mcp_servers.chromadb_context_vespo]";
           js "command = docker"; js "";
           js "[other]"; js "a = 1"].

Definition cleanedCodexConfig : jstring :=
  Eval vm_compute in
    match Uninstaller.cleanCodexConfig 118 (Some codexConfig) with
    | Chunker.Returns (Some text) => text
    | _ => []
    end.

(* ================================================================= *)
(** * Facts about strings, arrays and numbers *)

Import Parser Chunker.

Section JsFacts.

Lemma len_nonneg {A : Type} (l : list A) : 0 <= len l.
Proof. unfold len. lia. Qed.

Lemma len_nil {A : Type} : len (@nil A) = 0.
Proof. reflexivity. Qed.

Lemma len_cons {A : Type} (x : A) (l : list A) : len (x :: l) = len l + 1.
Proof. unfold len. simpl List.length. lia. Qed.

Lemma len_app {A : Type} (l1 l2 : list A) : len (l1 ++ l2) = len l1 + len l2.
Proof. unfold len. rewrite length_app. lia. Qed.

Lemma len_map {A B : Type} (f : A -> B) (l : list A) : len (map f l) = len l.
Proof. unfold len. now rewrite length_map. Qed.

Lemma eqb_true_iff (a b : jstring) : Js.eqb a b = true <-> a = b.
Proof.
  revert b. induction a as [|x a IH]; destruct b as [|y b]; simpl;
    try (split; [discriminate | discriminate]); try tauto.
  rewrite andb_true_iff, Ascii.eqb_eq, IH. split.
  - intros [-> ->]. reflexivity.
  - intros E. injection E. auto.
Qed.

Lemma eqb_refl (a : jstring) : Js.eqb a a = true.
Proof. now apply eqb_true_iff. Qed.

(** [split] never returns the empty array. *)
Lemma split_cons (sep : ascii) (s : jstring) :
  exists l ls, split sep s = l :: ls.
Proof.
  induction s as [|c s IH]; simpl.
  - eauto.
  - destruct (Ascii.eqb c sep); [eauto|].
    destruct IH as (l & ls & ->). eauto.
Qed.

Lemma len_split_pos (sep : ascii) (s : jstring) : 1 <= len (split sep s).
Proof.
  destruct (split_cons sep s) as (l & ls & ->). rewrite len_cons.
  pose proof (len_nonneg ls). lia.
Qed.

(** Joining the pieces with the separator gives the string back. *)
Lemma join_split (sep : ascii) (s : jstring) : join [sep] (split sep s) = s.
Proof.
  induction s as [|c s IH]; simpl; [reflexivity|].
  destruct (Ascii.eqb c sep) eqn:E.
  - apply Ascii.eqb_eq in E. subst c.
    destruct (split_cons sep s) as (l & ls & Hs). rewrite Hs in *.
    simpl. simpl in IH. now rewrite IH.
  - destruct (split_cons sep s) as (l & ls & Hs). rewrite Hs in *.
    simpl in *. destruct ls; simpl in *; now rewrite <- IH.
Qed.

Lemma to_nat_len {A : Type} (l : list A) : Z.to_nat (len l) = List.length l.
Proof. unfold len. apply Nat2Z.id. Qed.

Lemma substring_inside (s : jstring) (a b : Z) :
  0 <= a -> a <= b -> b <= len s ->
  substring s a b = firstn (Z.to_nat (b - a)) (skipn (Z.to_nat a) s).
Proof.
  intros Ha Hab Hb. unfold substring, clamp.
  pose proof (len_nonneg s).
  replace (Z.max 0 (Z.min a (len s))) with a by lia.
  replace (Z.max 0 (Z.min b (len s))) with b by lia.
  replace (Z.min a b) with a by lia.
  replace (Z.max a b) with b by lia. reflexivity.
Qed.

Lemma substring_whole (s : jstring) : substring s 0 (len s) = s.
Proof.
  pose proof (len_nonneg s).
  rewrite substring_inside by lia. simpl skipn.
  rewrite Z.sub_0_r, to_nat_len. apply firstn_all.
Qed.

Lemma len_substring (s : jstring) (a b : Z) :
  0 <= a -> a <= b -> b <= len s -> len (substring s a b) = b - a.
Proof.
  intros Ha Hab Hb. rewrite substring_inside by assumption.
  unfold len in *. rewrite length_firstn, length_skipn. lia.
Qed.

(** A prefix of a substring that starts at [a] is the substring that
    starts at [a] and has the length of the prefix. *)
Lemma substring_prefix (s p r : jstring) (a b : Z) :
  0 <= a -> a <= b -> substring s a b = p ++ r ->
  substring s a (a + len p) = p.
Proof.
  intros Ha Hab E.
  pose proof (len_nonneg s) as Hs. pose proof (len_nonneg p) as Hp.
  assert (Hlen : len (p ++ r) = Z.max 0 (Z.min b (len s) - Z.min a (len s))).
  { rewrite <- E. unfold substring, clamp, len.
    rewrite length_firstn, length_skipn. lia. }
  rewrite len_app in Hlen. pose proof (len_nonneg r) as Hr.
  destruct p as [|c p].
  - change (len (@nil ascii)) with 0. rewrite Z.add_0_r.
    unfold substring. rewrite Z.max_id, Z.min_id, Z.sub_diag. reflexivity.
  - rewrite len_cons in *. pose proof (len_nonneg p) as Hp'.
    assert (a < len s) by lia.
    assert (a + (len p + 1) <= len s) by lia.
    rewrite substring_inside by lia.
    revert E. unfold substring, clamp.
    replace (Z.max 0 (Z.min a (len s))) with a by lia.
    replace (Z.max 0 (Z.min b (len s))) with (Z.min b (len s)) by lia.
    replace (Z.min a (Z.min b (len s))) with a by lia.
    replace (Z.max a (Z.min b (len s))) with (Z.min b (len s)) by lia.
    intros E.
    replace (a + (len p + 1) - a) with (len (c :: p))
      by (rewrite len_cons; lia).
    rewrite to_nat_len.
    assert (F : firstn (List.length (c :: p))
                  (firstn (Z.to_nat (Z.min b (len s) - a))
                     (skipn (Z.to_nat a) s)) = c :: p).
    { rewrite E. rewrite firstn_app, Nat.sub_diag, firstn_all. simpl.
      now rewrite app_nil_r. }
    rewrite firstn_firstn in F.
    replace (Nat.min (List.length (c :: p)) (Z.to_nat (Z.min b (len s) - a)))
      with (List.length (c :: p)) in F; [exact F|].
    unfold len in *. simpl List.length in *. lia.
Qed.

(** [lines.slice(0, b)] is a prefix of [lines]. *)
Lemma slice_zero {A : Type} (l : list A) (b : Z) :
  slice l 0 b = firstn (Z.to_nat (relIndex (len l) b)) l.
Proof.
  unfold slice. pose proof (len_nonneg l).
  assert (E : relIndex (len l) 0 = 0).
  { unfold relIndex. simpl. lia. }
  rewrite E. simpl skipn. now rewrite Z.sub_0_r.
Qed.

Lemma slice_zero_nonneg {A : Type} (l : list A) (b : Z) :
  0 <= b -> slice l 0 b = firstn (Z.to_nat b) l.
Proof.
  intros Hb. rewrite slice_zero. unfold relIndex.
  destruct (b <? 0) eqn:E; [apply Z.ltb_lt in E; lia|].
  destruct (Z.le_gt_cases b (len l)).
  - now replace (Z.min b (len l)) with b by lia.
  - replace (Z.min b (len l)) with (len l) by lia.
    rewrite to_nat_len, firstn_all. symmetry. apply firstn_all2.
    unfold len in *. lia.
Qed.

Lemma join_firstn_prefix (sep : jstring) (m : nat) (l : list jstring) :
  exists r, join sep l = join sep (firstn m l) ++ r.
Proof.
  revert m. induction l as [|x l IH]; intros m.
  - rewrite firstn_nil. exists []. reflexivity.
  - destruct m as [|m].
    + exists (join sep (x :: l)). reflexivity.
    + destruct l as [|y l].
      * exists []. simpl firstn. rewrite firstn_nil. simpl.
        now rewrite app_nil_r.
      * destruct (IH m) as (r & Hr).
        destruct m as [|m].
        -- exists (sep ++ join sep (y :: l)). reflexivity.
        -- exists r. change (firstn (S (S m)) (x :: y :: l))
             with (x :: y :: firstn m l).
           change (join sep (x :: y :: l)) with (x ++ sep ++ join sep (y :: l)).
           change (join sep (x :: y :: firstn m l))
             with (x ++ sep ++ join sep (y :: firstn m l)).
           change (firstn (S m) (y :: l)) with (y :: firstn m l) in Hr.
           rewrite Hr. now rewrite <- !app_assoc.
Qed.

Lemma len_join_firstn_le (sep : jstring) (m : nat) (l : list jstring) :
  len (join sep (firstn m l)) <= len (join sep l).
Proof.
  destruct (join_firstn_prefix sep m l) as (r & ->).
  rewrite len_app. pose proof (len_nonneg r). lia.
Qed.

Lemma len_join_firstn_mono (sep : jstring) (m1 m2 : nat) (l : list jstring) :
  (m1 <= m2)%nat ->
  len (join sep (firstn m1 l)) <= len (join sep (firstn m2 l)).
Proof.
  intros H.
  replace (firstn m1 l) with (firstn m1 (firstn m2 l)).
  - apply len_join_firstn_le.
  - rewrite firstn_firstn. now rewrite Nat.min_l.
Qed.


End JsFacts.

(* ================================================================= *)
(** * The metadata enricher *)

Section EnricherFacts.

Lemma complexity_fold_ge (content : jstring) (ps : list pattern) (acc : Z) :
  acc <= fold_left
           (fun acc p => acc + Z.of_nat (countMatches p 0 None content)) ps acc.
Proof.
  revert acc. induction ps as [|p ps IH]; intros acc; simpl; [lia|].
  specialize (IH (acc + Z.of_nat (countMatches p 0 None content))). lia.
Qed.

Lemma estimateComplexity_range (content : jstring) :
  1 <= estimateComplexity content <= 100.
Proof.
  unfold estimateComplexity.
  pose proof (complexity_fold_ge content patterns 1). lia.
Qed.

Lemma scoreChunk_range (chunk : Chunk) : 5 <= scoreChunk chunk <= 10.
Proof.
  unfold scoreChunk.
  destruct (isExported chunk), (isPublicName (name chunk)),
    (Js.eqb (type chunk) (js "function")), (Js.eqb (type chunk) (js "class")),
    (truthy (docstring chunk)), (isAsync chunk), (isGenerator chunk);
    vm_compute; split; intro; discriminate.
Qed.

End EnricherFacts.

(* ================================================================= *)
(** * The fallback windower *)

Section WindowerFacts.

Variable content : jstring.
Variables maxSize over : Z.

Lemma simpleLoop_more_fuel (fuel fuel' : nat) (start part : Z)
  (cs : list Chunk) :
  simpleLoop fuel content maxSize over start part = (cs, Finished) ->
  (fuel <= fuel')%nat ->
  simpleLoop fuel' content maxSize over start part = (cs, Finished).
Proof.
  revert fuel' start part cs.
  induction fuel as [|fuel IH]; intros fuel' start part cs H Hle;
    [discriminate|].
  destruct fuel' as [|fuel']; [lia|].
  simpl in *.
  destruct (start <? len content); [|exact H].
  destruct (Z.min (start + maxSize) (len content) - over >=? len content - over);
    [exact H|].
  destruct (simpleLoop fuel content maxSize over
              (Z.min (start + maxSize) (len content) - over) (part + 1))
    as [cs0 st0] eqn:E.
  injection H as <- ->.
  rewrite (IH fuel' _ _ _ E) by lia. reflexivity.
Qed.

Hypothesis over_pos : 0 < over.
Hypothesis over_small : over < maxSize.

Lemma simpleLoop_windows (fuel : nat) (start part : Z) :
  0 <= start -> start < len content ->
  len content - start <= Z.of_nat fuel ->
  exists cs,
    simpleLoop fuel content maxSize over start part = (cs, Finished)
    /\ windows content maxSize over start cs.
Proof.
  revert start part.
  induction fuel as [|fuel IH]; intros start part H0 Hlt Hfuel; [simpl in *; lia|].
  simpl.
  destruct (start <? len content) eqn:E1; [|apply Z.ltb_ge in E1; lia].
  destruct (Z.le_gt_cases (len content) (start + maxSize)) as [Hend|Hmid].
  - replace (Z.min (start + maxSize) (len content)) with (len content) by lia.
    destruct (len content - over >=? len content - over) eqn:E2;
      [|rewrite Z.geb_leb in E2; apply Z.leb_gt in E2; lia].
    eexists. split; [reflexivity|].
    apply windows_last; simpl; lia.
  - replace (Z.min (start + maxSize) (len content)) with (start + maxSize)
      by lia.
    destruct (start + maxSize - over >=? len content - over) eqn:E2;
      [rewrite Z.geb_leb in E2; apply Z.leb_le in E2; lia|].
    destruct (IH (start + maxSize - over) (part + 1)) as (cs & Hcs & Hw);
      try lia.
    rewrite Hcs. eexists. split; [reflexivity|].
    apply windows_step; simpl; try lia. exact Hw.
Qed.

Lemma windows_head (start : Z) (cs : list Chunk) :
  windows content maxSize over start cs -> exists c rest, cs = c :: rest /\ startChar c = start.
Proof. intros H. destruct H; eauto. Qed.

Lemma windows_chain (start : Z) (cs : list Chunk) :
  windows content maxSize over start cs ->
  forall i c d, nth_error cs i = Some c -> nth_error cs (S i) = Some d ->
                startChar d = endChar c - over.
Proof.
  induction 1 as [start c Hs He Hlt | start c rest Hs He Hlt Hw IH];
    intros i x y Hx Hy.
  - destruct i; simpl in Hy; [discriminate|].
    destruct i; discriminate.
  - destruct i as [|i].
    + simpl in Hx. injection Hx as ->.
      destruct (windows_head _ _ Hw) as (d & rest' & -> & Hd).
      simpl in Hy. injection Hy as ->. lia.
    + simpl in Hx. apply (IH i x y Hx Hy).
Qed.

Lemma windows_last_end (start : Z) (cs : list Chunk) (d : Chunk) :
  windows content maxSize over start cs -> endChar (last cs d) = len content.
Proof.
  induction 1 as [start c Hs He Hlt | start c rest Hs He Hlt Hw IH].
  - exact He.
  - destruct (windows_head _ _ Hw) as (x & rest' & -> & _). exact IH.
Qed.

Lemma windows_cover (start : Z) (cs : list Chunk) :
  windows content maxSize over start cs ->
  forall p, start <= p < len content ->
            exists c, In c cs /\ startChar c <= p < endChar c.
Proof.
  induction 1 as [start c Hs He Hlt | start c rest Hs He Hlt Hw IH];
    intros p Hp.
  - exists c. split; [now left|lia].
  - destruct (Z.lt_ge_cases p (start + maxSize)) as [Hin|Hout].
    + exists c. split; [now left|lia].
    + destruct (IH p) as (d & Hd & Hr); [lia|].
      exists d. split; [now right|exact Hr].
Qed.

End WindowerFacts.

Section WindowerResults.

Lemma windows_backfill (content : jstring) (maxSize over n start : Z)
  (cs : list Chunk) :
  windows content maxSize over start cs ->
  windows content maxSize over start (map (setTotalParts n) cs).
Proof.
  induction 1 as [start c Hs He Hlt | start c rest Hs He Hlt Hw IH]; simpl.
  - apply windows_last; simpl; assumption.
  - apply windows_step; simpl; assumption.
Qed.

(** C10.  When the text is longer than [maxChunkSize] and
    [0 < overlap < maxChunkSize], the windower returns (with fuel for one
    iteration per code unit): the first chunk starts at offset 0, every
    next chunk starts exactly [overlap] code units before the end of the
    chunk before it, the last chunk ends at the length of the text, and
    every position of the text lies inside a chunk. *)
Theorem simpleChunk_covers_input (content : jstring) (maxSize over : Z) :
  maxSize < len content -> 0 < over -> over < maxSize ->
  exists chunks first,
    (forall fuel, (Z.to_nat (len content) <= fuel)%nat ->
                  simpleChunk fuel content maxSize over = Returns chunks)
    /\ head chunks = Some first
    /\ startChar first = 0
    /\ (forall i c d,
           nth_error chunks i = Some c -> nth_error chunks (S i) = Some d ->
           startChar d = endChar c - over)
    /\ endChar (last chunks first) = len content
    /\ (forall p, 0 <= p < len content ->
                  exists c, In c chunks /\ startChar c <= p < endChar c).
Proof.
  intros Hlong Hpos Hsmall.
  pose proof (len_nonneg content) as Hn.
  destruct (simpleLoop_windows content maxSize over Hpos Hsmall
              (Z.to_nat (len content)) 0 0) as (cs & Hrun & Hw); try lia.
  pose proof (windows_backfill _ _ _ (len cs) _ _ Hw) as Hb.
  fold (backfill cs) in Hb.
  destruct (windows_head _ _ _ _ _ Hb) as (first & rest & Hcs & Hfirst).
  exists (backfill cs), first. repeat split.
  - intros fuel Hfuel. unfold simpleChunk.
    destruct (len content <=? maxSize) eqn:E; [apply Z.leb_le in E; lia|].
    now rewrite (simpleLoop_more_fuel _ _ _ _ _ _ _ _ Hrun Hfuel).
  - now rewrite Hcs.
  - exact Hfirst.
  - exact (windows_chain _ _ _ _ _ Hb).
  - exact (windows_last_end _ _ _ _ _ first Hb).
  - intros p Hp.
    destruct (windows_cover _ _ _ Hpos _ _ Hb p Hp) as (c & Hc & Hr).
    exists c. split; [exact Hc|lia].
Qed.

Lemma simpleChunk_covers_input_witness :
  (5 < len (js "abcdefghijkl") /\ 0 < 2 /\ 2 < 5)
  /\ exists chunks first,
       (forall fuel, (Z.to_nat (len (js "abcdefghijkl")) <= fuel)%nat ->
                     simpleChunk fuel (js "abcdefghijkl") 5 2 = Returns chunks)
       /\ head chunks = Some first
       /\ startChar first = 0
       /\ (forall i c d,
              nth_error chunks i = Some c -> nth_error chunks (S i) = Some d ->
              startChar d = endChar c - 2)
       /\ endChar (last chunks first) = len (js "abcdefghijkl")
       /\ (forall p, 0 <= p < len (js "abcdefghijkl") ->
                     exists c, In c chunks /\ startChar c <= p < endChar c).
Proof.
  split; [repeat split; reflexivity|].
  apply (simpleChunk_covers_input (js "abcdefghijkl") 5 2); reflexivity.
Defined.

End WindowerResults.

(* ================================================================= *)
(** * The oversize splitter *)

Section SplitterFacts.

Lemma scoreSplitPoint_range (line language : jstring) :
  1 <= scoreSplitPoint line language <= 10.
Proof.
  unfold scoreSplitPoint. repeat case_if; lia.
Qed.

Lemma scanWindow_range (lines : list jstring) (language : jstring)
  (count : nat) (i bestScore bestLine b : Z) :
  scanWindow lines language count i bestScore bestLine = Some b ->
  b = bestLine \/ i <= b < i + Z.of_nat count.
Proof.
  revert i bestScore bestLine.
  induction count as [|count IH]; intros i bestScore bestLine H; simpl in H.
  - left. congruence.
  - destruct (get lines i) as [line|]; [|discriminate].
    destruct (scoreSplitPoint line language >? bestScore).
    + apply IH in H. lia.
    + apply IH in H. lia.
Qed.

(** A window that is not empty moves the split point into the window:
    every score is above the initial best score. *)
Lemma scanWindow_inside (lines : list jstring) (language : jstring)
  (count : nat) (i bestLine r : Z) :
  (0 < count)%nat ->
  scanWindow lines language count i (-1) bestLine = Some r ->
  i <= r < i + Z.of_nat count.
Proof.
  intros Hc H. destruct count as [|count]; [lia|].
  simpl in H. destruct (get lines i) as [line|]; [|discriminate].
  pose proof (scoreSplitPoint_range line language) as Hs.
  destruct (scoreSplitPoint line language >? -1) eqn:E;
    [|rewrite Z.gtb_ltb in E; apply Z.ltb_ge in E; lia].
  apply scanWindow_range in H. lia.
Qed.

Lemma findOptimalSplitPoint_inside (lines : list jstring) (language : jstring)
  (startLine idealEndLine sp : Z) :
  Z.max startLine (idealEndLine - windowSize)
    < Z.min (len lines) (idealEndLine + windowSize) ->
  findOptimalSplitPoint lines startLine idealEndLine language = Some sp ->
  Z.max startLine (idealEndLine - windowSize) <= sp
  /\ sp < Z.min (len lines) (idealEndLine + windowSize).
Proof.
  intros Hw H. unfold findOptimalSplitPoint in H.
  apply scanWindow_inside in H; lia.
Qed.


(** With a line budget that is not negative, the split point of an
    iteration lies between the current line and the last line. *)
Lemma splitPoint_bounds (lines : list jstring) (language : jstring)
  (linesPerChunk currentLine sp : Z) :
  0 <= linesPerChunk -> currentLine < len lines ->
  findOptimalSplitPoint lines currentLine
    (Z.min (currentLine + linesPerChunk) (len lines)) language = Some sp ->
  currentLine <= sp < len lines.
Proof.
  intros Hl Hc H. unfold windowSize in *.
  apply findOptimalSplitPoint_inside in H; unfold windowSize in *; lia.
Qed.

Variable chunk : Chunk.
Variable lines : list jstring.
Variables linesPerChunk overlapLines : Z.
Variable preserve : bool.
Variable language : jstring.

(** The loop never leaves by itself when neither the line budget nor the
    overlap is negative: the split point stays below the number of lines,
    so neither the [break] nor the loop condition lets go. *)
Lemma splitLoop_not_finished (fuel : nat) (currentLine part : Z) :
  0 <= linesPerChunk -> 0 <= overlapLines -> currentLine < len lines ->
  snd (splitLoop fuel chunk lines linesPerChunk overlapLines preserve language
         currentLine part) <> Finished.
Proof.
  intros Hl Ho. revert currentLine part.
  induction fuel as [|fuel IH]; intros currentLine part Hc; simpl;
    [discriminate|].
  destruct (currentLine <? len lines) eqn:E; [|apply Z.ltb_ge in E; lia].
  destruct (findOptimalSplitPoint lines currentLine
              (Z.min (currentLine + linesPerChunk) (len lines)) language)
    as [sp|] eqn:Hsp; [|discriminate].
  apply splitPoint_bounds in Hsp; try assumption.
  destruct (sp - overlapLines >=? len lines - overlapLines) eqn:E2;
    [rewrite Z.geb_leb in E2; apply Z.leb_le in E2; lia|].
  specialize (IH (sp - overlapLines) (part + 1)).
  destruct (splitLoop fuel chunk lines linesPerChunk overlapLines preserve
              language (sp - overlapLines) (part + 1)) as [cs st].
  simpl in *. apply IH. lia.
Qed.

(** Every chunk the loop pushes is the object of one iteration: the
    [i]-th chunk pushed from the state [(currentLine, part)] carries the
    part number [part + i], and the first one starts at [currentLine]. *)
Lemma splitLoop_pushed (fuel : nat) (currentLine part : Z)
  (cs : list Chunk) (st : status) :
  splitLoop fuel chunk lines linesPerChunk overlapLines preserve language
    currentLine part = (cs, st) ->
  forall i c, nth_error cs i = Some c ->
    exists line sp,
      c = subChunk chunk lines preserve line sp (part + Z.of_nat i)
      /\ (i = 0%nat -> line = currentLine)
      /\ line < len lines
      /\ findOptimalSplitPoint lines line
           (Z.min (line + linesPerChunk) (len lines)) language = Some sp.
Proof.
  revert currentLine part cs st.
  induction fuel as [|fuel IH]; intros currentLine part cs st H i c Hi;
    simpl in H.
  - injection H as <- <-. destruct i; discriminate.
  - destruct (currentLine <? len lines) eqn:E;
      [apply Z.ltb_lt in E | injection H as <- <-; destruct i; discriminate].
    destruct (findOptimalSplitPoint lines currentLine
                (Z.min (currentLine + linesPerChunk) (len lines)) language)
      as [sp|] eqn:Hsp; [|injection H as <- <-; destruct i; discriminate].
    assert (Hhead : forall rest, nth_error
                (subChunk chunk lines preserve currentLine sp part :: rest) i
                = Some c -> i = 0%nat ->
              exists line sp0,
                c = subChunk chunk lines preserve line sp0 (part + Z.of_nat i)
                /\ (i = 0%nat -> line = currentLine)
                /\ line < len lines
                /\ findOptimalSplitPoint lines line
                     (Z.min (line + linesPerChunk) (len lines)) language
                   = Some sp0).
    { intros rest Hc ->. simpl in Hc. injection Hc as <-.
      exists currentLine, sp. rewrite Z.add_0_r. auto. }
    destruct (sp - overlapLines >=? len lines - overlapLines).
    + injection H as <- <-. destruct i as [|i]; [now apply (Hhead [])|].
      destruct i; discriminate.
    + destruct (splitLoop fuel chunk lines linesPerChunk overlapLines preserve
                  language (sp - overlapLines) (part + 1)) as [cs0 st0] eqn:E0.
      injection H as <- <-. destruct i as [|i]; [now apply (Hhead cs0)|].
      simpl in Hi. destruct (IH _ _ _ _ E0 i c Hi) as (line & sp0 & -> & _ & Hl & Hf).
      exists line, sp0. repeat split; try assumption; [|lia].
      f_equal. lia.
Qed.

End SplitterFacts.

(* ================================================================= *)
(** * The structural parsers *)

Section ParserFacts.

Variable env : Env.
Variable code : jstring.

Lemma wholeFile_inside (nm : jstring) (k : Z) :
  offsetsInside code (wholeFile nm k code) /\ isSlice code (wholeFile nm k code).
Proof.
  pose proof (len_nonneg code). unfold offsetsInside, isSlice. simpl.
  rewrite substring_whole. repeat split; lia.
Qed.

Lemma declChunk_inside (ty : jstring) (nm : option jstring) (sp : Span)
  (sig doc : option jstring) (async generator : bool) :
  spanInside (len code) sp ->
  offsetsInside code (declChunk ty nm sp code sig doc async generator)
  /\ isSlice code (declChunk ty nm sp code sig doc async generator).
Proof.
  intros (H1 & H2 & H3). unfold offsetsInside, isSlice. simpl. auto.
Qed.

Lemma extractNodeInfo_inside (lines : list jstring) :
  forall (node : Node) (c : Chunk),
    nodeInside (len code) node ->
    extractNodeInfo node code lines = Value (Some c) ->
    offsetsInside code c /\ isSlice code c.
Proof.
  fix IH 1. intros node c Hn H.
  destruct node as [sp id async generator body_start | sp id
                   | sp declarations | sp d | sp d | sp]; simpl in H, Hn.
  - destruct (extractJSDoc sp lines); [|discriminate].
    injection H as <-. now apply declChunk_inside.
  - destruct (extractJSDoc sp lines); [|discriminate].
    injection H as <-. now apply declChunk_inside.
  - destruct (firstFunctionDeclarator declarations) as [[d async]|];
      [|discriminate].
    destruct (extractJSDoc sp lines); [|discriminate].
    injection H as <-. now apply declChunk_inside.
  - destruct d as [d|]; [|discriminate]. destruct Hn as [_ Hd].
    destruct (extractNodeInfo d code lines) as [[c0|]|] eqn:E;
      try discriminate.
    injection H as <-. apply (IH d c0 Hd) in E. exact E.
  - destruct d as [d|]; [|discriminate]. destruct Hn as [_ Hd].
    destruct (extractNodeInfo d code lines) as [[c0|]|] eqn:E;
      try discriminate.
    injection H as <-. apply (IH d c0 Hd) in E. exact E.
  - discriminate.
Qed.

Lemma collectNodes_inside (lines : list jstring) (body : list Node) :
  Forall (nodeInside (len code)) body ->
  forall c, In c (fst (collectNodes body code lines)) ->
            offsetsInside code c /\ isSlice code c.
Proof.
  induction 1 as [|node body Hn Hb IH]; intros c Hc; simpl in Hc; [tauto|].
  destruct (extractNodeInfo node code lines) as [[c0|]|] eqn:E;
    simpl in Hc; try tauto.
  - destruct (collectNodes body code lines) as [cs raised]. simpl in *.
    destruct Hc as [<-|Hc]; [|now apply IH].
    eapply extractNodeInfo_inside; eassumption.
  - now apply IH.
Qed.

Lemma parseJavaScript_inside (filePath : jstring) :
  wellFormed env code ->
  forall c, In c (parseJavaScript env code filePath) ->
            offsetsInside code c /\ isSlice code c.
Proof.
  intros (Hp & _) c Hc. unfold parseJavaScript in Hc.
  destruct (parse env code) as [body|msg].
  - pose proof (collectNodes_inside (split newline code) body Hp) as Hall.
    destruct (collectNodes body code (split newline code)) as [chunks raised].
    simpl in Hall. destruct chunks as [|c0 chunks], raised.
    + destruct Hc as [<-|[]]. apply wholeFile_inside.
    + destruct Hc as [<-|[]]. apply wholeFile_inside.
    + apply in_app_or in Hc. destruct Hc as [Hc|[<-|[]]];
        [now apply Hall | apply wholeFile_inside].
    + now apply Hall.
  - destruct Hc as [<-|[]]. apply wholeFile_inside.
Qed.

(** *** The Python strategy *)

(** The first [k] lines, where [k] is the number of lines of the first
    [p] code units, reach at least the offset [p]. *)
Lemma lines_reach_offset (s : jstring) (p : nat) :
  (p <= List.length s)%nat ->
  (p <= List.length
          (join [newline]
             (firstn (List.length (split newline (firstn p s)))
                (split newline s))))%nat.
Proof.
  revert p. induction s as [|c s IH]; intros p Hp; simpl in Hp.
  - assert (p = 0%nat) by lia. subst. simpl. lia.
  - destruct p as [|p]; [lia|].
    specialize (IH p ltac:(lia)).
    simpl firstn at 2. simpl split.
    destruct (Ascii.eqb c newline).
    + destruct (split_cons newline (firstn p s)) as (l0 & ls0 & E0).
      rewrite E0 in *. simpl List.length in *.
      destruct (split_cons newline s) as (l & ls & E). rewrite E in *.
      simpl firstn in *. simpl join. simpl List.length. simpl in IH. lia.
    + destruct (split_cons newline (firstn p s)) as (l0 & ls0 & E0).
      rewrite E0 in *.
      destruct (split_cons newline s) as (l & ls & E). rewrite E in *.
      simpl List.length in *. simpl firstn in *.
      destruct (firstn (List.length ls0) ls); simpl in *; lia.
Qed.

Lemma scanBlock_ge (rest : list jstring) (endLine baseIndent : Z) :
  endLine <= scanBlock rest endLine baseIndent.
Proof.
  revert endLine. induction rest as [|line rest IH]; intros endLine;
    [simpl; lia|].
  cbn [scanBlock].
  destruct (negb (nonEmpty (trim line)) || startsWith (js "#") (trim line)).
  - specialize (IH (endLine + 1)). lia.
  - destruct (len line - len (trimStart line) <=? baseIndent); [lia|].
    specialize (IH (endLine + 1)). lia.
Qed.

(** A block that starts at the offset [p] ends at or after [p] and inside
    the text. *)
Lemma findPythonBlockEnd_inside (p baseIndent : Z) :
  0 <= p -> p <= len code ->
  let lines := split newline code in
  let startLine := len (split newline (substring code 0 p)) in
  p <= snd (findPythonBlockEnd lines (startLine - 1) baseIndent) <= len code.
Proof.
  intros Hp0 Hp lines startLine. unfold findPythonBlockEnd. simpl snd.
  replace (startLine - 1 + 1) with startLine by lia.
  pose proof (scanBlock_ge (skipn (Z.to_nat startLine) lines) startLine
                baseIndent) as Hge.
  set (endLine := scanBlock _ startLine baseIndent) in *.
  assert (Hs : 1 <= startLine) by apply len_split_pos.
  rewrite slice_zero_nonneg by lia.
  split.
  - transitivity (len (join [newline] (firstn (Z.to_nat startLine) lines))).
    + unfold startLine. rewrite to_nat_len.
      rewrite substring_inside by lia. simpl skipn. rewrite Z.sub_0_r.
      pose proof (lines_reach_offset code (Z.to_nat p)) as H.
      unfold lines, len in *. lia.
    + apply len_join_firstn_mono. lia.
  - replace (len code) with (len (join [newline] lines))
      by (unfold lines; now rewrite join_split).
    apply len_join_firstn_le.
Qed.

Lemma functionChunk_inside (m : FunctionMatch) :
  0 <= fm_index m <= len code ->
  offsetsInside code (functionChunk code (split newline code) m)
  /\ isSlice code (functionChunk code (split newline code) m).
Proof.
  intros [H0 H1]. unfold functionChunk.
  pose proof (findPythonBlockEnd_inside (fm_index m) (len (fm_indent m)) H0 H1)
    as Hb. cbv zeta in Hb.
  destruct (findPythonBlockEnd _ _ _) as [endLine endChar]. simpl snd in Hb.
  unfold offsetsInside, isSlice. simpl. repeat split; lia.
Qed.

Lemma classChunk_inside (m : ClassMatch) :
  0 <= cm_index m <= len code ->
  offsetsInside code (classChunk code (split newline code) m)
  /\ isSlice code (classChunk code (split newline code) m).
Proof.
  intros [H0 H1]. unfold classChunk.
  pose proof (findPythonBlockEnd_inside (cm_index m) (len (cm_indent m)) H0 H1)
    as Hb. cbv zeta in Hb.
  destruct (findPythonBlockEnd _ _ _) as [endLine endChar]. simpl snd in Hb.
  unfold offsetsInside, isSlice. simpl. repeat split; lia.
Qed.

Lemma In_insertByStart (c x : Chunk) (l : list Chunk) :
  In x (insertByStart c l) -> x = c \/ In x l.
Proof.
  induction l as [|d l IH]; simpl.
  - intros [<-|[]]. now left.
  - destruct (startChar c <? startChar d); simpl.
    + intros [<-|H]; auto.
    + intros [<-|H]; auto. destruct (IH H); auto.
Qed.

Lemma In_sortByStart (x : Chunk) (l : list Chunk) :
  In x (sortByStart l) -> In x l.
Proof.
  unfold sortByStart.
  assert (G : forall acc, In x (fold_left (fun a c => insertByStart c a) l acc)
                          -> In x acc \/ In x l).
  { induction l as [|c l IH]; intros acc H; simpl in *; [auto|].
    apply IH in H. destruct H as [H|H]; [|auto].
    apply In_insertByStart in H. destruct H as [->|H]; auto. }
  intros H. apply G in H. destruct H as [[]|H]. exact H.
Qed.

Lemma parsePython_inside (filePath : jstring) :
  wellFormed env code ->
  forall c, In c (parsePython env code filePath) ->
            offsetsInside code c /\ isSlice code c.
Proof.
  intros (_ & Hf & Hc) c Hin. unfold parsePython in Hin.
  apply In_sortByStart in Hin.
  assert (Hall : forall x,
             In x (map (functionChunk code (split newline code))
                     (execFunctionPattern env code)
                   ++ map (classChunk code (split newline code))
                        (execClassPattern env code)) ->
             offsetsInside code x /\ isSlice code x).
  { intros x Hx. apply in_app_or in Hx. rewrite Forall_forall in Hf, Hc.
    destruct Hx as [Hx|Hx]; apply in_map_iff in Hx;
      destruct Hx as (m & <- & Hm).
    - apply functionChunk_inside. now apply Hf.
    - apply classChunk_inside. now apply Hc. }
  destruct (map (functionChunk code (split newline code))
              (execFunctionPattern env code)
            ++ map (classChunk code (split newline code))
                 (execClassPattern env code)) as [|c0 cs].
  - destruct Hin as [<-|[]]. apply wholeFile_inside.
  - now apply Hall.
Qed.

(** Every chunk of a parser lies inside the text and holds the text
    between its offsets. *)
Lemma extractChunks_inside (filePath : jstring) :
  wellFormed env code ->
  forall c, In c (extractChunks env code filePath) ->
            offsetsInside code c /\ isSlice code c.
Proof.
  intros Hw c Hc. unfold extractChunks in Hc.
  destruct (Js.eqb (detectLanguage env filePath) (js "javascript")
            || Js.eqb (detectLanguage env filePath) (js "typescript")).
  - eapply parseJavaScript_inside; eassumption.
  - destruct (Js.eqb (detectLanguage env filePath) (js "python")).
    + eapply parsePython_inside; eassumption.
    + destruct Hc as [<-|[]]. apply wholeFile_inside.
Qed.

End ParserFacts.

(* ================================================================= *)
(** * Signs of the line geometry *)

Section NumberFacts.

Lemma binary_round_aux_unsigned (m e : Z) (l : location) :
  unsigned (binary_round_aux 53 1024 false m e l).
Proof.
  unfold binary_round_aux.
  destruct (shr_fexp 53 1024 m e l) as [mrs e'].
  destruct (shr_fexp 53 1024 _ e' loc_Exact) as [mrs' e''].
  destruct (shr_m mrs'); try exact I; try reflexivity.
  case_if; reflexivity.
Qed.

Lemma ofZ_unsigned (z : Z) : 0 <= z -> unsigned (ofZ z).
Proof.
  intros H. unfold ofZ, binary_normalize.
  destruct z as [|p|p]; [reflexivity| |lia].
  unfold binary_round.
  destruct (shl_align p 0 _) as [mz ez]. apply binary_round_aux_unsigned.
Qed.

Lemma div_unsigned (x y : number) :
  unsigned x -> unsigned y -> unsigned (div x y).
Proof.
  unfold div, SFdiv.
  destruct x as [sx|sx| |sx mx ex], y as [sy|sy| |sy my ey]; simpl;
    intros; subst; simpl; auto.
  destruct (SFdiv_core_binary 53 1024 (Z.pos mx) ex (Z.pos my) ey)
    as [[mz ez] lz].
  apply binary_round_aux_unsigned.
Qed.

Lemma floor_unsigned (x : number) (z : Z) :
  unsigned x -> floor x = Some z -> 0 <= z.
Proof.
  destruct x as [s|s| |s m e]; simpl; intros Hx H; try discriminate.
  - injection H as <-. lia.
  - subst s. injection H as <-. simpl. apply Z.shiftl_nonneg. lia.
Qed.

(** Sizes that are not negative give line counts that are not negative. *)
Lemma lineGeometry_unsigned (maxSize over contentLength lineTotal lpc ol : Z) :
  0 <= contentLength -> 0 <= lineTotal ->
  lineGeometry maxSize over contentLength lineTotal = Some (lpc, ol) ->
  (0 <= maxSize -> 0 <= lpc) /\ (0 <= over -> 0 <= ol).
Proof.
  intros Hc Hn H. unfold lineGeometry in H.
  assert (Havg : unsigned (div (ofZ contentLength) (ofZ lineTotal)))
    by (apply div_unsigned; now apply ofZ_unsigned).
  destruct (floor (div (ofZ maxSize) _)) as [a|] eqn:Ea; [|discriminate].
  destruct (floor (div (ofZ over) _)) as [b|] eqn:Eb; [|discriminate].
  injection H as <- <-. split; intros Hs.
  - eapply floor_unsigned; [|exact Ea].
    apply div_unsigned; [now apply ofZ_unsigned|exact Havg].
  - eapply floor_unsigned; [|exact Eb].
    apply div_unsigned; [now apply ofZ_unsigned|exact Havg].
Qed.

End NumberFacts.

(* ================================================================= *)
(** * Offsets of the sub-chunks *)

Section SplitterOffsets.

Variable chunk : Chunk.
Variable lines : list jstring.
Variables linesPerChunk overlapLines : Z.
Variable preserve : bool.
Variable language : jstring.



End SplitterOffsets.

Section SplitterResults.

Variable code : jstring.
Variable chunk : Chunk.
Variables maxSize over : Z.
Variable preserve : bool.
Variable language : jstring.

Lemma In_backfill (c : Chunk) (cs : list Chunk) :
  In c (backfill cs) -> exists c0, In c0 cs /\ c = setTotalParts (len cs) c0.
Proof.
  unfold backfill. intros H. apply in_map_iff in H.
  destruct H as (c0 & <- & H0). eauto.
Qed.

Hypothesis chunk_inside : offsetsInside code chunk.
Hypothesis chunk_slice : isSlice code chunk.



(** The first chunk the loop pushes holds the text between its offsets. *)
Lemma splitLoop_first_slice (fuel : nat) (lpc ol : Z) (cs : list Chunk)
  (st : status) :
  splitLoop fuel chunk (split newline (content chunk)) lpc ol preserve
    language 0 0 = (cs, st) ->
  forall c, In c cs -> partNumber c = Some 0 -> isSlice code c.
Proof.
  intros L c Hc Hp.
  apply In_nth_error in Hc. destruct Hc as (i & Hi).
  destruct (splitLoop_pushed _ _ _ _ _ _ _ _ _ _ _ L i c Hi)
    as (line & sp & -> & Hfirst & _ & _).
  simpl in Hp. injection Hp as Hp.
  assert (i = 0%nat) by lia. subst i. rewrite (Hfirst eq_refl).
  unfold isSlice. simpl.
  replace (0 + 0 >? 0) with false by reflexivity.
  rewrite andb_false_r.
  rewrite (slice_zero_nonneg _ 0) by lia. simpl firstn. simpl join.
  change (len (@nil ascii)) with 0. rewrite Z.add_0_r.
  rewrite slice_zero.
  destruct (join_firstn_prefix [newline]
              (Z.to_nat (relIndex (len (split newline (content chunk))) sp))
              (split newline (content chunk))) as (r & Hr).
  rewrite join_split in Hr.
  destruct chunk_inside as (I0 & I1 & I2).
  symmetry. apply (substring_prefix code _ r _ (endChar chunk)); try lia.
  rewrite <- Hr. symmetry. exact chunk_slice.
Qed.

(** So does the chunk numbered 0 of the array, at any time. *)
Lemma chunksAfter_first_slice (fuel : nat) (c : Chunk) :
  In c (chunksAfter fuel chunk maxSize over preserve language) ->
  partNumber c = Some 0 -> isSlice code c.
Proof.
  unfold chunksAfter, splitRun.
  destruct (lineGeometry maxSize over (len (content chunk))
              (len (split newline (content chunk)))) as [[lpc ol]|];
    [|intros []].
  destruct (splitLoop fuel chunk (split newline (content chunk)) lpc ol
              preserve language 0 0) as [cs st] eqn:L.
  pose proof (splitLoop_first_slice fuel lpc ol cs st L) as G.
  destruct st; intros Hc Hp; try (now apply G).
  apply In_backfill in Hc. destruct Hc as (c0 & Hc0 & ->).
  apply (G c0 Hc0 Hp).
Qed.

End SplitterResults.

(* ================================================================= *)
(** * Offsets of the windows *)

Section WindowerOffsets.

Variable content : jstring.
Variables maxSize over : Z.

Lemma simpleLoop_pushed (fuel : nat) (start part : Z) (cs : list Chunk)
  (st : status) :
  simpleLoop fuel content maxSize over start part = (cs, st) ->
  forall c, In c cs ->
    exists s k,
      c = textChunk content maxSize s (Z.min (s + maxSize) (len content)) k.
Proof.
  revert start part cs st.
  induction fuel as [|fuel IH]; intros start part cs st H c Hin; simpl in H.
  - injection H as <- <-. destruct Hin.
  - destruct (start <? len content); [|injection H as <- <-; destruct Hin].
    destruct (Z.min (start + maxSize) (len content) - over
              >=? len content - over).
    + injection H as <- <-. destruct Hin as [<-|[]]. eauto.
    + destruct (simpleLoop fuel content maxSize over
                  (Z.min (start + maxSize) (len content) - over) (part + 1))
        as [cs0 st0] eqn:E0.
      injection H as <- <-. destruct Hin as [<-|Hin]; [eauto|].
      eapply IH; eassumption.
Qed.


(** With [overlap >= maxChunkSize] the windows never move forward, and
    the loop never ends. *)
Lemma simpleLoop_not_finished (fuel : nat) (start part : Z) :
  0 <= maxSize -> maxSize < len content -> maxSize <= over -> start <= 0 ->
  snd (simpleLoop fuel content maxSize over start part) <> Finished.
Proof.
  intros Hmax Hlong Hbig. revert start part.
  induction fuel as [|fuel IH]; intros start part Hs; simpl; [discriminate|].
  destruct (start <? len content) eqn:E; [|apply Z.ltb_ge in E; lia].
  replace (Z.min (start + maxSize) (len content)) with (start + maxSize)
    by lia.
  destruct (start + maxSize - over >=? len content - over) eqn:E2;
    [rewrite Z.geb_leb in E2; apply Z.leb_le in E2; lia|].
  specialize (IH (start + maxSize - over) (part + 1) ltac:(lia)).
  destruct (simpleLoop fuel content maxSize over (start + maxSize - over)
              (part + 1)) as [cs st].
  exact IH.
Qed.

Lemma simpleChunk_slices (fuel : nat) (chunks : list Chunk) :
  simpleChunk fuel content maxSize over = Returns chunks ->
  forall c, In c chunks -> isSlice content c.
Proof.
  intros H c Hc. unfold simpleChunk in H.
  destruct (len content <=? maxSize).
  - injection H as <-. destruct Hc as [<-|[]].
    unfold isSlice. simpl. now rewrite substring_whole.
  - destruct (simpleLoop fuel content maxSize over 0 0) as [cs st] eqn:L.
    destruct st; try discriminate. injection H as <-.
    apply In_backfill in Hc. destruct Hc as (c0 & Hc0 & ->).
    destruct (simpleLoop_pushed _ _ _ _ _ L c0 Hc0) as (s & k & ->).
    reflexivity.
Qed.


End WindowerOffsets.

(* ================================================================= *)
(** * The engine *)

Section EngineFacts.

Variable env : Env.
Variable fuel : nat.
Variables fileContent filePath : jstring.
Variables maxSize over : Z.
Variables preserve calculate : bool.
Variable language : jstring.

(** Every element [processChunks] returns is the enrichment of a parsed
    chunk that fits the budget, or of a sub-chunk of a parsed chunk that
    does not. *)
Lemma processChunks_items (parsed : list Chunk) (items : list Item) :
  processChunks env fuel parsed fileContent filePath maxSize over preserve
    calculate language = Returns items ->
  forall item, In item items ->
    exists c,
      item = enrichChunkMetadata env c fileContent filePath calculate
      /\ ((In c parsed /\ len (content c) <= maxSize)
          \/ exists parent subs,
               In parent parsed /\ maxSize < len (content parent)
               /\ splitWithOverlap fuel parent maxSize over preserve language
                  = Returns subs
               /\ In c subs).
Proof.
  revert items. induction parsed as [|chunk rest IH]; intros items H item Hi;
    simpl in H.
  - injection H as <-. destruct Hi.
  - destruct (len (content chunk) <=? maxSize) eqn:E.
    + apply Z.leb_le in E.
      destruct (processChunks env fuel rest fileContent filePath maxSize over
                  preserve calculate language) as [its| | |];
        try discriminate.
      injection H as <-. destruct Hi as [<-|Hi].
      * exists chunk. split; [reflexivity|]. left. simpl. auto.
      * destruct (IH its eq_refl item Hi) as (c & Hc & Hor).
        exists c. split; [exact Hc|].
        destruct Hor as [(Hin & Hl)|(parent & subs & Hin & Hr)].
        -- left. simpl. auto.
        -- right. exists parent, subs. simpl. tauto.
    + apply Z.leb_gt in E.
      destruct (splitWithOverlap fuel chunk maxSize over preserve language)
        as [subs| | |] eqn:S; try discriminate.
      destruct (processChunks env fuel rest fileContent filePath maxSize over
                  preserve calculate language) as [its| | |];
        try discriminate.
      injection H as <-. apply in_app_or in Hi. destruct Hi as [Hi|Hi].
      * apply in_map_iff in Hi. destruct Hi as (c & <- & Hc).
        exists c. split; [reflexivity|]. right.
        exists chunk, subs. simpl. auto.
      * destruct (IH its eq_refl item Hi) as (c & Hc & Hor).
        exists c. split; [exact Hc|].
        destruct Hor as [(Hin & Hl)|(parent & subs' & Hin & Hr)].
        -- left. simpl. auto.
        -- right. exists parent, subs'. simpl. tauto.
Qed.

End EngineFacts.

(* ================================================================= *)
(** * Part numbers of the sub-chunks *)

Section SplitterParts.

Variable chunk : Chunk.
Variables maxSize over : Z.
Variable preserve : bool.
Variable language : jstring.

Lemma nth_error_backfill (cs : list Chunk) (i : nat) (c : Chunk) :
  nth_error (backfill cs) i = Some c ->
  exists c0, nth_error cs i = Some c0 /\ c = setTotalParts (len cs) c0.
Proof.
  unfold backfill. rewrite nth_error_map.
  destruct (nth_error cs i) as [c0|]; simpl; [|discriminate].
  intros H. injection H as <-. eauto.
Qed.

Lemma len_backfill (cs : list Chunk) : len (backfill cs) = len cs.
Proof. unfold backfill. apply len_map. Qed.

(** The first iteration always runs: an array of lines is never empty. *)
Lemma splitLoop_pushes (fuel : nat) (lines : list jstring) (lpc ol : Z) :
  0 < len lines ->
  splitLoop fuel chunk lines lpc ol preserve language 0 0 <> ([], Finished).
Proof.
  intros Hn. destruct fuel as [|fuel]; simpl; [discriminate|].
  destruct (0 <? len lines) eqn:E; [|apply Z.ltb_ge in E; lia].
  match goal with
  | |- context [findOptimalSplitPoint ?a ?b ?c ?d] =>
      destruct (findOptimalSplitPoint a b c d) as [sp|]; [|discriminate]
  end.
  destruct (sp - ol >=? len lines - ol); [discriminate|].
  match goal with
  | |- context [splitLoop ?f ?a ?b ?c ?d ?e ?g ?h ?i] =>
      destruct (splitLoop f a b c d e g h i) as [cs st]
  end.
  discriminate.
Qed.

(** What a call returns is numbered from 0, and every element carries the
    length of the array. *)
Lemma splitWithOverlap_numbered (fuel : nat) (subs : list Chunk) :
  splitWithOverlap fuel chunk maxSize over preserve language = Returns subs ->
  subs <> []
  /\ forall i c, nth_error subs i = Some c ->
       partNumber c = Some (Z.of_nat i)
       /\ totalParts c = Some (len subs)
       /\ isPartial c = true
       /\ parentChunk c = name chunk.
Proof.
  intros H. unfold splitWithOverlap, splitRun in H.
  destruct (lineGeometry maxSize over (len (content chunk))
              (len (split newline (content chunk)))) as [[lpc ol]|];
    [|discriminate].
  destruct (splitLoop fuel chunk (split newline (content chunk)) lpc ol
              preserve language 0 0) as [cs st] eqn:L.
  destruct st; try discriminate. injection H as <-. split.
  - intros E. unfold backfill in E. apply map_eq_nil in E. subst cs.
    apply (splitLoop_pushes fuel (split newline (content chunk)) lpc ol);
      [|exact L].
    pose proof (len_split_pos newline (content chunk)). lia.
  - intros i c Hi. apply nth_error_backfill in Hi.
    destruct Hi as (c0 & Hi & ->).
    destruct (splitLoop_pushed _ _ _ _ _ _ _ _ _ _ _ L i c0 Hi)
      as (line & sp & -> & _).
    rewrite len_backfill. simpl. auto.
Qed.

(** What a call returns is its array when the loop is over. *)
Lemma returns_chunksAfter (fuel : nat) (subs : list Chunk) :
  splitWithOverlap fuel chunk maxSize over preserve language = Returns subs ->
  chunksAfter fuel chunk maxSize over preserve language = subs.
Proof.
  unfold splitWithOverlap, chunksAfter.
  destruct (splitRun fuel chunk maxSize over preserve language)
    as [[cs st]|]; [|discriminate].
  destruct st; try discriminate. intros H. now injection H.
Qed.

(** Every chunk in the array, at any time, is partial and numbered, and
    carries the documentation of its parent only when its number is 0. *)
Lemma chunksAfter_parts (fuel : nat) (c : Chunk) :
  In c (chunksAfter fuel chunk maxSize over preserve language) ->
  isPartial c = true
  /\ exists k, 0 <= k /\ partNumber c = Some k
               /\ docstring c = if k =? 0 then docstring chunk else None.
Proof.
  unfold chunksAfter, splitRun.
  destruct (lineGeometry maxSize over (len (content chunk))
              (len (split newline (content chunk)))) as [[lpc ol]|];
    [|intros []].
  destruct (splitLoop fuel chunk (split newline (content chunk)) lpc ol
              preserve language 0 0) as [cs st] eqn:L.
  assert (G : forall c0, In c0 cs ->
                isPartial c0 = true
                /\ exists k, 0 <= k /\ partNumber c0 = Some k
                     /\ docstring c0 = if k =? 0 then docstring chunk else None).
  { intros c0 H0. apply In_nth_error in H0. destruct H0 as (i & Hi).
    destruct (splitLoop_pushed _ _ _ _ _ _ _ _ _ _ _ L i c0 Hi)
      as (line & sp & -> & _).
    split; [reflexivity|]. exists (0 + Z.of_nat i).
    repeat split; try reflexivity. lia. }
  destruct st; intros Hc; try (now apply G).
  apply In_backfill in Hc. destruct Hc as (c0 & Hc0 & ->).
  destruct (G c0 Hc0) as (Hp & k & Hk & Hn & Hd).
  split; [exact Hp|]. exists k. auto.
Qed.


(** Every chunk of the array, at any time, is the object of one
    iteration, numbered by its place, with [totalParts] filled in when
    the loop is over. *)
Lemma chunksAfter_pushed (fuel : nat) (i : nat) (c : Chunk) :
  nth_error (chunksAfter fuel chunk maxSize over preserve language) i = Some c ->
  exists lpc ol line sp n,
    lineGeometry maxSize over (len (content chunk))
      (len (split newline (content chunk))) = Some (lpc, ol)
    /\ c = setTotalParts n
             (subChunk chunk (split newline (content chunk)) preserve line sp
                (Z.of_nat i))
    /\ line < len (split newline (content chunk))
    /\ findOptimalSplitPoint (split newline (content chunk)) line
         (Z.min (line + lpc) (len (split newline (content chunk)))) language
       = Some sp.
Proof.
  unfold chunksAfter, splitRun.
  destruct (lineGeometry maxSize over (len (content chunk))
              (len (split newline (content chunk)))) as [[lpc ol]|] eqn:G;
    [|destruct i; discriminate].
  destruct (splitLoop fuel chunk (split newline (content chunk)) lpc ol
              preserve language 0 0) as [cs st] eqn:L.
  assert (P : forall c0, nth_error cs i = Some c0 ->
                exists line sp,
                  c0 = subChunk chunk (split newline (content chunk)) preserve
                         line sp (Z.of_nat i)
                  /\ line < len (split newline (content chunk))
                  /\ findOptimalSplitPoint (split newline (content chunk)) line
                       (Z.min (line + lpc)
                          (len (split newline (content chunk)))) language
                     = Some sp).
  { intros c0 Hi.
    destruct (splitLoop_pushed _ _ _ _ _ _ _ _ _ _ _ L i c0 Hi)
      as (line & sp & -> & _ & Hl & Hf).
    exists line, sp. auto. }
  destruct st; intros Hc.
  - apply nth_error_backfill in Hc. destruct Hc as (c0 & Hc0 & ->).
    destruct (P c0 Hc0) as (line & sp & -> & Hl & Hf).
    exists lpc, ol, line, sp, (len cs). auto.
  - destruct (P c Hc) as (line & sp & -> & Hl & Hf).
    exists lpc, ol, line, sp, 0. auto.
  - destruct (P c Hc) as (line & sp & -> & Hl & Hf).
    exists lpc, ol, line, sp, 0. auto.
Qed.


(** In exact line arithmetic no call returns when neither size is
    negative; this is the arithmetic of the code while its line numbers
    stay below [2 ^ 53] in magnitude. *)
Lemma splitWithOverlap_never_returns (fuel : nat) (subs : list Chunk) :
  0 <= maxSize -> 0 <= over ->
  splitWithOverlap fuel chunk maxSize over preserve language <> Returns subs.
Proof.
  intros Hm Ho H. unfold splitWithOverlap, splitRun in H.
  destruct (lineGeometry maxSize over (len (content chunk))
              (len (split newline (content chunk)))) as [[lpc ol]|] eqn:G;
    [|discriminate].
  apply lineGeometry_unsigned in G; try apply len_nonneg.
  destruct G as [Hl Hol].
  pose proof (splitLoop_not_finished chunk (split newline (content chunk))
                lpc ol preserve language fuel 0 0 (Hl Hm) (Hol Ho)) as Hnf.
  destruct (splitLoop fuel chunk (split newline (content chunk)) lpc ol
              preserve language 0 0) as [cs st].
  destruct st; try discriminate. apply Hnf; [|reflexivity].
  pose proof (len_split_pos newline (content chunk)). lia.
Qed.

(** A loop whose split point is its current line, with no overlap, is
    in the same state after the iteration. *)
Lemma splitLoop_stuck (lines : list jstring) (lpc line : Z) :
  line < len lines ->
  findOptimalSplitPoint lines line (Z.min (line + lpc) (len lines)) language
  = Some line ->
  forall fuel part,
    snd (splitLoop fuel chunk lines lpc 0 preserve language line part)
    = OutOfFuel.
Proof.
  intros Hl Hsp fuel. induction fuel as [|fuel IH]; intros part; simpl;
    [reflexivity|].
  destruct (line <? len lines) eqn:E; [|apply Z.ltb_ge in E; lia].
  rewrite Hsp. rewrite !Z.sub_0_r.
  destruct (line >=? len lines) eqn:E2;
    [rewrite Z.geb_leb in E2; apply Z.leb_le in E2; lia|].
  specialize (IH (part + 1)).
  destruct (splitLoop fuel chunk lines lpc 0 preserve language line (part + 1))
    as [cs st].
  exact IH.
Qed.

Lemma splitLoop_stuck_pushed (lines : list jstring) (lpc line : Z) :
  line < len lines ->
  findOptimalSplitPoint lines line (Z.min (line + lpc) (len lines)) language
  = Some line ->
  forall fuel part c,
    In c (fst (splitLoop fuel chunk lines lpc 0 preserve language line part)) ->
    exists k, c = subChunk chunk lines preserve line line k.
Proof.
  intros Hl Hsp fuel. induction fuel as [|fuel IH]; intros part c; simpl;
    [intros []|].
  destruct (line <? len lines) eqn:E; [|apply Z.ltb_ge in E; lia].
  rewrite Hsp. rewrite !Z.sub_0_r.
  destruct (line >=? len lines) eqn:E2;
    [rewrite Z.geb_leb in E2; apply Z.leb_le in E2; lia|].
  specialize (IH (part + 1) c).
  destruct (splitLoop fuel chunk lines lpc 0 preserve language line (part + 1))
    as [cs st].
  simpl in *. intros [<-|Hc]; eauto.
Qed.

Lemma splitWithOverlap_stuck (lpc : Z) :
  lineGeometry maxSize over (len (content chunk))
    (len (split newline (content chunk))) = Some (lpc, 0) ->
  findOptimalSplitPoint (split newline (content chunk)) 0
    (Z.min (0 + lpc) (len (split newline (content chunk)))) language = Some 0 ->
  forall fuel,
    splitWithOverlap fuel chunk maxSize over preserve language = Running
    /\ forall c,
         In c (chunksAfter fuel chunk maxSize over preserve language) ->
         exists k,
           c = subChunk chunk (split newline (content chunk)) preserve 0 0 k.
Proof.
  intros G Hsp fuel. unfold splitWithOverlap, chunksAfter, splitRun.
  rewrite G.
  pose proof (len_split_pos newline (content chunk)) as Hn.
  pose proof (splitLoop_stuck (split newline (content chunk)) lpc 0
                ltac:(lia) Hsp fuel 0) as Hs.
  pose proof (splitLoop_stuck_pushed (split newline (content chunk)) lpc 0
                ltac:(lia) Hsp fuel 0) as Hp.
  destruct (splitLoop fuel chunk (split newline (content chunk)) lpc 0
              preserve language 0 0) as [cs st].
  simpl in Hs, Hp. subst st. auto.
Qed.

End SplitterParts.

(* ================================================================= *)
(** * The properties of the design document *)

Section Properties.

(** ** The metadata enricher *)

(** C9.  The importance score of every enriched chunk is at least 5 (and
    at most 10): the score starts at 5, the bonuses only add to it, and
    the result is rounded and capped at 10. *)
Theorem chunk_score_at_least_5 (env : Env) (chunk : Chunk)
  (fullContent filePath : jstring) (calculate : bool) :
  match enrichChunkMetadata env chunk fullContent filePath calculate with
  | Enriched _ m => 5 <= chunk_score m <= 10
  | Plain _ => False
  end.
Proof. simpl. apply scoreChunk_range. Qed.

Lemma enriched_ranges (env : Env) (chunk : Chunk)
  (fullContent filePath : jstring) (calculate : bool) :
  match enrichChunkMetadata env chunk fullContent filePath calculate with
  | Enriched _ m =>
      (calculate = true -> 1 <= complexity_estimate m <= 100)
      /\ (calculate = false -> complexity_estimate m = 0)
      /\ 0 <= chunk_score m <= 10
  | Plain _ => False
  end.
Proof.
  simpl. pose proof (scoreChunk_range chunk).
  pose proof (estimateComplexity_range (content chunk)).
  destruct calculate; repeat split; intros; try discriminate; lia.
Qed.

(** C6, as the code has it.  In every output of the engine, an enriched
    chunk has [complexity_estimate] in [1,100] when [calculateComplexity]
    is on (the default) and 0 when it is off, and [chunk_score] in
    [0,10]. *)
Theorem complexity_and_score_ranges (env : Env) (fuel : nat)
  (fileContent filePath : jstring) (options : Options) (items : list Item) :
  intelligentChunk env fuel fileContent filePath options = Returns items ->
  forall text m, In (Enriched text m) items ->
    let calculate := orDefault true (calculateComplexity options) in
    (calculate = true -> 1 <= complexity_estimate m <= 100)
    /\ (calculate = false -> complexity_estimate m = 0)
    /\ 0 <= chunk_score m <= 10.
Proof.
  intros H text m Hin calculate. unfold intelligentChunk in H.
  destruct (Js.eqb (detectLanguage env filePath) unknown).
  - destruct (simpleChunk fuel fileContent _ _) as [cs| | |];
      try discriminate.
    injection H as <-. apply in_map_iff in Hin.
    destruct Hin as (c & Hc & _). discriminate.
  - destruct (processChunks_items _ _ _ _ _ _ _ _ _ _ _ H _ Hin)
      as (c & Hc & _).
    pose proof (enriched_ranges env c fileContent filePath calculate) as R.
    fold calculate in Hc. rewrite <- Hc in R. exact R.
Qed.

(** With [calculateComplexity: false] the estimate of the only chunk of
    a small file is 0, outside [1,100]. *)
Lemma complexity_is_zero_when_switched_off :
  exists text m,
    intelligentChunk (envWith syntaxError) 1 (js "function (")
      (js "broken.js") withoutComplexity = Returns [Enriched text m]
    /\ complexity_estimate m = 0
    /\ ~ (1 <= complexity_estimate m <= 100).
Proof.
  eexists. eexists. split; [vm_compute; reflexivity|].
  split; [reflexivity|]. simpl. lia.
Qed.

Lemma complexity_and_score_ranges_witness :
  intelligentChunk (envWith syntaxError) 1 (js "function (") (js "broken.js")
    withoutComplexity = Returns brokenFileOutput
  /\ forall text m, In (Enriched text m) brokenFileOutput ->
        complexity_estimate m = 0 /\ 0 <= chunk_score m <= 10.
Proof.
  assert (H : intelligentChunk (envWith syntaxError) 1 (js "function (")
                (js "broken.js") withoutComplexity = Returns brokenFileOutput)
    by (vm_compute; reflexivity).
  split; [exact H|]. intros text m Hin.
  destruct (complexity_and_score_ranges (envWith syntaxError) 1
              (js "function (") (js "broken.js") withoutComplexity
              brokenFileOutput H text m Hin) as (_ & H0 & Hs).
  split; [now apply H0 | exact Hs].
Defined.

(** ** The fallback path of the engine *)

Lemma unknown_language_is_never_enriched (env : Env) (fuel : nat)
  (fileContent filePath : jstring) (options : Options) (items : list Item) :
  detectLanguage env filePath = unknown ->
  intelligentChunk env fuel fileContent filePath options = Returns items ->
  exists chunks,
    simpleChunk fuel fileContent (orDefault 4000 (maxChunkSize options))
      (orDefault 200 (overlap options)) = Returns chunks
    /\ items = map Plain chunks.
Proof.
  intros Hl H. unfold intelligentChunk in H. rewrite Hl, eqb_refl in H.
  destruct (simpleChunk fuel fileContent _ _) as [cs| | |]; try discriminate.
  injection H as <-. eauto.
Qed.

(** C4, at a file with an unrecognized extension.  For [notes.txt]
    holding [hello] the engine returns the one chunk of the windower as
    the windower built it: a chunk of type [text] without a [metadata]
    object, hence without a [language] key. *)
Theorem unknown_extension_returns_plain_chunk :
  detectLanguage (envWith syntaxError) (js "notes.txt") = unknown
  /\ intelligentChunk (envWith syntaxError) 1 (js "hello") (js "notes.txt")
       noOptions
     = Returns
         [Plain
            {| type := js "text"; name := Some (js "content");
               startLine := 1; endLine := 1; startChar := 0; endChar := 5;
               content := js "hello";
               signature := None; docstring := None; decorators := None;
               isAsync := false; isGenerator := false; isExported := false;
               isPartial := false; partNumber := None; totalParts := None;
               parentChunk := None |}].
Proof. split; vm_compute; reflexivity. Qed.

(** ** The brace-delimited parser on a syntax error *)

(** C5, as the code has it.  When [parse] raises a syntax error,
    [parseJavaScript] returns exactly one chunk; its type is [other], its
    name is [unparseable], and it spans the whole file: offsets 0 and the
    length of the source, with the source as content.  The function has
    no way to raise. *)
Theorem syntax_error_gives_one_whole_file_chunk (env : Env)
  (code filePath message : jstring) :
  parse env code = ParseError message ->
  exists c,
    parseJavaScript env code filePath = [c]
    /\ type c = js "other"
    /\ name c = Some (js "unparseable")
    /\ startChar c = 0
    /\ endChar c = len code
    /\ content c = code.
Proof.
  intros H. unfold parseJavaScript. rewrite H.
  eexists. split; [reflexivity|]. simpl. auto.
Qed.

Lemma syntax_error_gives_one_whole_file_chunk_witness :
  parse (envWith syntaxError) (js "function (")
  = ParseError (js "Unexpected token")
  /\ exists c,
       parseJavaScript (envWith syntaxError) (js "function (")
         (js "broken.js") = [c]
       /\ type c = js "other"
       /\ name c = Some (js "unparseable")
       /\ startChar c = 0
       /\ endChar c = len (js "function (")
       /\ content c = js "function (".
Proof.
  split; [reflexivity|].
  apply (syntax_error_gives_one_whole_file_chunk (envWith syntaxError)
           (js "function (") (js "broken.js") (js "Unexpected token")).
  reflexivity.
Defined.

(** The chunk of a file that does not parse is not of type
    [unparseable]: that word is its name. *)
Lemma syntax_error_chunk_has_type_other :
  exists c,
    parseJavaScript (envWith syntaxError) (js "function (") (js "broken.js")
    = [c]
    /\ type c = js "other"
    /\ type c <> js "unparseable".
Proof.
  eexists. split; [reflexivity|]. split; [reflexivity|].
  simpl. discriminate.
Qed.

(** ** The oversize splitter *)

(** C1, at a file the engine accepts.  A JavaScript file of one line of
    4001 code units, chunked with the default options, is longer than
    [maxChunkSize]; its line budget and its overlap are 0 lines, the
    split point is the current line, and [currentLine] is 0 again after
    every iteration: whatever the number of iterations, the call is still
    running, and every chunk it has pushed is the empty chunk of an
    iteration that starts and splits at line 0. *)
Theorem one_line_file_never_returns :
  lineGeometry 4000 200 (len oneLine) (len (split newline oneLine))
  = Some (0, 0)
  /\ forall fuel,
       intelligentChunk oneLineEnv fuel oneLine (js "bundle.js") noOptions
       = Running
       /\ forall c,
            In c (chunksAfter fuel (wholeFile (js "module") 1 oneLine)
                    4000 200 true (js "javascript")) ->
            exists k,
              c = subChunk (wholeFile (js "module") 1 oneLine) [oneLine] true
                    0 0 k
              /\ startLine c = 1 /\ content c = [].
Proof.
  split; [vm_compute; reflexivity|]. intros fuel.
  assert (S : splitWithOverlap fuel (wholeFile (js "module") 1 oneLine)
                4000 200 true (js "javascript") = Running
              /\ forall c,
                   In c (chunksAfter fuel (wholeFile (js "module") 1 oneLine)
                           4000 200 true (js "javascript")) ->
                   exists k,
                     c = subChunk (wholeFile (js "module") 1 oneLine)
                           (split newline
                              (content (wholeFile (js "module") 1 oneLine)))
                           true 0 0 k).
  { apply splitWithOverlap_stuck with (lpc := 0); vm_compute; reflexivity. }
  destruct S as [S P]. split.
  - unfold intelligentChunk.
    replace (detectLanguage oneLineEnv (js "bundle.js"))
      with (js "javascript") by (vm_compute; reflexivity).
    replace (extractChunks oneLineEnv oneLine (js "bundle.js"))
      with [wholeFile (js "module") 1 oneLine] by (vm_compute; reflexivity).
    replace (Js.eqb (js "javascript") unknown) with false by reflexivity.
    cbn [processChunks orDefault noOptions maxChunkSize overlap
           preserveSignatures calculateComplexity].
    rewrite S.
    replace (len (content (wholeFile (js "module") 1 oneLine)) <=? 4000)
      with false by (vm_compute; reflexivity).
    reflexivity.
  - intros c Hc. destruct (P c Hc) as (k & ->). exists k.
    replace (split newline (content (wholeFile (js "module") 1 oneLine)))
      with [oneLine] by (vm_compute; reflexivity).
    repeat split; reflexivity.
Qed.

Lemma processChunks_blocked (env : Env) (fuel : nat) (parsed : list Chunk)
  (code filePath : jstring) (maxSize over : Z) (preserve calculate : bool)
  (language : jstring) (items : list Item) :
  0 <= maxSize -> 0 <= over ->
  (exists c, In c parsed /\ maxSize < len (content c)) ->
  processChunks env fuel parsed code filePath maxSize over preserve calculate
    language <> Returns items.
Proof.
  intros Hm Ho. revert items.
  induction parsed as [|x parsed IH]; intros items (c & Hc & Hbig) H;
    [destruct Hc|].
  simpl in H.
  destruct (len (content x) <=? maxSize) eqn:E.
  - apply Z.leb_le in E. destruct Hc as [->|Hc]; [lia|].
    destruct (processChunks env fuel parsed code filePath maxSize over
                preserve calculate language) as [its| | |] eqn:P;
      try discriminate.
    apply (IH its); [eauto|reflexivity].
  - destruct (splitWithOverlap fuel x maxSize over preserve language)
      as [subs| | |] eqn:S; try discriminate.
    now apply splitWithOverlap_never_returns in S.
Qed.

(** In exact line arithmetic, with sizes that are not negative, a parsed
    chunk above the budget keeps the engine from returning. *)
Lemma oversize_chunk_blocks_engine (env : Env) (fuel : nat)
  (code filePath : jstring) (options : Options) (items : list Item) :
  Js.eqb (detectLanguage env filePath) unknown = false ->
  0 <= orDefault 4000 (maxChunkSize options) ->
  0 <= orDefault 200 (overlap options) ->
  (exists c, In c (extractChunks env code filePath)
             /\ orDefault 4000 (maxChunkSize options) < len (content c)) ->
  intelligentChunk env fuel code filePath options <> Returns items.
Proof.
  intros Hl Hm Ho Hc H. unfold intelligentChunk in H. rewrite Hl in H.
  now apply processChunks_blocked in H.
Qed.




(** C8.  In a split, the sub-chunk in the first place, numbered 0,
    carries the documentation comment of the chunk that was split, and
    the sub-chunk in any other place, numbered by its place, carries
    none; every sub-chunk is partial.  This holds in the array of the
    splitter at any time, and in what the splitter returns. *)
Theorem docstring_only_on_first_part (fuel : nat) (chunk : Chunk)
  (maxSize over : Z) (preserve : bool) (language : jstring) :
  (forall i c,
      nth_error (chunksAfter fuel chunk maxSize over preserve language) i
      = Some c ->
      isPartial c = true
      /\ partNumber c = Some (Z.of_nat i)
      /\ docstring c = match i with O => docstring chunk | S _ => None end)
  /\ (forall subs,
         splitWithOverlap fuel chunk maxSize over preserve language
         = Returns subs ->
         forall i c, nth_error subs i = Some c ->
           isPartial c = true
           /\ partNumber c = Some (Z.of_nat i)
           /\ docstring c
              = match i with O => docstring chunk | S _ => None end).
Proof.
  assert (G : forall i c,
             nth_error (chunksAfter fuel chunk maxSize over preserve language)
               i = Some c ->
             isPartial c = true
             /\ partNumber c = Some (Z.of_nat i)
             /\ docstring c
                = match i with O => docstring chunk | S _ => None end).
  { intros i c Hc.
    destruct (chunksAfter_pushed chunk maxSize over preserve language fuel i c
                Hc) as (lpc & ol & line & sp & n & _ & -> & _).
    split; [reflexivity|]. split; [reflexivity|].
    cbn [docstring setTotalParts subChunk].
    destruct i as [|i]; [reflexivity|].
    replace (Z.of_nat (S i) =? 0) with false
      by (symmetry; apply Z.eqb_neq; lia).
    reflexivity. }
  split; [exact G|].
  intros subs H i c Hc. apply G.
  now rewrite (returns_chunksAfter _ _ _ _ _ _ _ H).
Qed.

Lemma docstring_only_on_first_part_witness :
  docstring documentedFunction = Some (js "/** doc */")
  /\ (chunksAfter 2 documentedFunction 14 0 true (js "javascript")
      = documentedParts
      /\ len documentedParts = 2
      /\ forall i c,
           nth_error documentedParts i = Some c ->
           isPartial c = true
           /\ partNumber c = Some (Z.of_nat i)
           /\ docstring c
              = match i with
                | O => docstring documentedFunction
                | S _ => None
                end)
  /\ (splitWithOverlap 3 documentedFunction 14 (-1) true (js "javascript")
      = Returns documentedReturn
      /\ len documentedReturn = 2
      /\ map docstring documentedReturn = [Some (js "/** doc */"); None]
      /\ forall i c,
           nth_error documentedReturn i = Some c ->
           isPartial c = true
           /\ partNumber c = Some (Z.of_nat i)
           /\ docstring c
              = match i with
                | O => docstring documentedFunction
                | S _ => None
                end).
Proof.
  assert (R : splitWithOverlap 3 documentedFunction 14 (-1) true
                (js "javascript") = Returns documentedReturn)
    by (vm_compute; reflexivity).
  split; [reflexivity|]. split.
  - split; [vm_compute; reflexivity|]. split; [reflexivity|].
    exact (proj1 (docstring_only_on_first_part 2 documentedFunction 14 0 true
                    (js "javascript"))).
  - split; [exact R|]. split; [reflexivity|]. split; [reflexivity|].
    exact (proj2 (docstring_only_on_first_part 3 documentedFunction 14 (-1)
                    true (js "javascript")) documentedReturn R).
Defined.

(** ** Offsets in the output of the engine *)

(** C2, as the code has it.  The content of a chunk is the text of the
    source between its offsets whenever the chunk is not a later part of
    a split.  In every output of the engine this holds for the chunks of
    the windower, for the parsed chunks that fit the budget, and for the
    first part (part number 0) of a split; and in the array the splitter
    builds for a parsed chunk it holds, at any time, for the chunk
    numbered 0. *)
Theorem content_is_source_slice_outside_later_parts (env : Env) (fuel : nat)
  (code filePath : jstring) (options : Options) :
  wellFormed env code ->
  (forall items,
      intelligentChunk env fuel code filePath options = Returns items ->
      forall item, In item items ->
        match item with
        | Plain c => content c = substring code (startChar c) (endChar c)
        | Enriched text m =>
            part_number m = 0 ->
            text = substring code (start_char m) (end_char m)
        end)
  /\ (forall parent maxSize over preserve language c,
         In parent (extractChunks env code filePath) ->
         In c (chunksAfter fuel parent maxSize over preserve language) ->
         partNumber c = Some 0 ->
         content c = substring code (startChar c) (endChar c)).
Proof.
  intros Hw. split.
  - intros items H item Hin. unfold intelligentChunk in H.
    destruct (Js.eqb (detectLanguage env filePath) unknown).
    + destruct (simpleChunk fuel code _ _) as [cs| | |] eqn:S;
        try discriminate.
      injection H as <-. apply in_map_iff in Hin.
      destruct Hin as (c & <- & Hc).
      exact (simpleChunk_slices _ _ _ _ _ S c Hc).
    + destruct (processChunks_items _ _ _ _ _ _ _ _ _ _ _ H _ Hin)
        as (c & -> & Hor).
      simpl. intros Hpart.
      destruct Hor as [(Hc & _)|(parent & subs & Hp & _ & Hs & Hc)].
      * apply (extractChunks_inside env code filePath Hw c Hc).
      * destruct (extractChunks_inside env code filePath Hw parent Hp)
          as [Hi Hsl].
        pose proof (returns_chunksAfter _ _ _ _ _ _ _ Hs) as Hca.
        rewrite <- Hca in Hc.
        apply (chunksAfter_first_slice code parent _ _ _ _ Hi Hsl fuel c Hc).
        rewrite Hca in Hc.
        apply In_nth_error in Hc. destruct Hc as (i & Hc).
        destruct (splitWithOverlap_numbered _ _ _ _ _ _ _ Hs) as [_ Hall].
        destruct (Hall i c Hc) as (Hn & _).
        rewrite Hn in *. simpl in Hpart. now rewrite Hpart.
  - intros parent maxSize over preserve language c Hp Hc Hn.
    destruct (extractChunks_inside env code filePath Hw parent Hp)
      as [Hi Hsl].
    exact (chunksAfter_first_slice code parent _ _ _ _ Hi Hsl fuel c Hc Hn).
Qed.

Lemma functionEnv_wellFormed : wellFormed functionEnv functionSource.
Proof.
  split; [|split; constructor].
  simpl. constructor; [|constructor].
  unfold nodeInside, spanInside. simpl.
  replace (len functionSource) with 38 by reflexivity. lia.
Qed.

Lemma content_is_source_slice_outside_later_parts_witness :
  wellFormed functionEnv functionSource
  /\ (intelligentChunk functionEnv 3 functionSource (js "f.js") (sizes 14 (-1))
      = Returns functionOutput
      /\ match nth_error functionOutput 0 with
         | Some (Enriched text m) =>
             part_number m = 0
             /\ text = js "function f() {"
             /\ text = substring functionSource (start_char m) (end_char m)
         | _ => False
         end)
  /\ (In documentedFunction
        (extractChunks functionEnv functionSource (js "f.js"))
      /\ In (nth 0 documentedParts documentedFunction)
           (chunksAfter 2 documentedFunction 14 0 true (js "javascript"))
      /\ partNumber (nth 0 documentedParts documentedFunction) = Some 0
      /\ startChar (nth 0 documentedParts documentedFunction) = 11
      /\ endChar (nth 0 documentedParts documentedFunction) = 25
      /\ content (nth 0 documentedParts documentedFunction)
         = substring functionSource
             (startChar (nth 0 documentedParts documentedFunction))
             (endChar (nth 0 documentedParts documentedFunction))).
Proof.
  assert (H : intelligentChunk functionEnv 3 functionSource (js "f.js")
                (sizes 14 (-1)) = Returns functionOutput)
    by (vm_compute; reflexivity).
  assert (Hp : In documentedFunction
                 (extractChunks functionEnv functionSource (js "f.js")))
    by (vm_compute; left; reflexivity).
  assert (Hc : In (nth 0 documentedParts documentedFunction)
                 (chunksAfter 2 documentedFunction 14 0 true
                    (js "javascript")))
    by (vm_compute; left; reflexivity).
  pose proof (proj1 (content_is_source_slice_outside_later_parts functionEnv 3
                       functionSource (js "f.js") (sizes 14 (-1))
                       functionEnv_wellFormed)) as P.
  pose proof (proj2 (content_is_source_slice_outside_later_parts functionEnv 2
                       functionSource (js "f.js") noOptions
                       functionEnv_wellFormed)) as Q.
  split; [exact functionEnv_wellFormed|]. split; [split; [exact H|]|].
  - specialize (P functionOutput H
                  (nth 0 functionOutput (Plain documentedFunction))
                  (or_introl eq_refl)).
    simpl in P. simpl. split; [reflexivity|]. split; [reflexivity|].
    exact (P eq_refl).
  - split; [exact Hp|]. split; [exact Hc|]. split; [reflexivity|].
    split; [reflexivity|]. split; [reflexivity|].
    exact (Q documentedFunction 14 0 true (js "javascript")
             (nth 0 documentedParts documentedFunction) Hp Hc eq_refl).
Defined.

(** The second part of that split opens with the signature line and its
    offsets start at the line break before its first line: its content is
    not the text between its offsets.  With [overlap: 0] in place of
    [overlap: -1] the second chunk the splitter pushes is the signature
    line alone, between the offsets 25 and 25. *)
Lemma later_part_is_not_a_source_slice :
  (exists first text m,
      intelligentChunk functionEnv 3 functionSource (js "f.js") (sizes 14 (-1))
      = Returns [first; Enriched text m]
      /\ part_number m = 1
      /\ text = unlines [js "function f() {"; js "return 1;"]
      /\ substring functionSource (start_char m) (end_char m)
         = newline :: js "return 1;"
      /\ text <> substring functionSource (start_char m) (end_char m))
  /\ (exists first c,
         chunksAfter 2 documentedFunction 14 0 true (js "javascript")
         = [first; c]
         /\ partNumber c = Some 1
         /\ content c = js "function f() {"
         /\ startChar c = 25 /\ endChar c = 25
         /\ content c <> substring functionSource (startChar c) (endChar c)).
Proof.
  split.
  - eexists. eexists. eexists. split; [vm_compute; reflexivity|].
    split; [reflexivity|]. split; [reflexivity|]. split; [reflexivity|].
    vm_compute. discriminate.
  - eexists. eexists. split; [vm_compute; reflexivity|].
    repeat split; try reflexivity. vm_compute. discriminate.
Qed.





(** ** Further examples *)

(** A Python file that opens with an empty line before a top-level
    [def]: the function pattern matches at offset 0 with the line break
    as its first group, the block is closed at once by the [def] line
    itself, and the chunk is empty, from offset 0 to offset 0. *)
Lemma blank_line_before_def_gives_empty_chunk :
  let code := unlines [js ""; js "def f():"; js "  pass"] in
  let env :=
    {| extname := extnameOfPlainName;
       parse := fun _ => syntaxError;
       execFunctionPattern := fun _ =>
         [ {| fm_index := 0; fm_indent := [newline]; fm_decorators := None;
              fm_async := None; fm_name := js "f"; fm_params := [] |} ];
       execClassPattern := fun _ => [] |} in
  exists c,
    extractChunks env code (js "m.py") = [c]
    /\ name c = Some (js "f")
    /\ startChar c = 0 /\ endChar c = 0 /\ content c = [].
Proof.
  intros code env. eexists. split; [vm_compute; reflexivity|].
  repeat split; reflexivity.
Qed.

(** With an overlap as large as the budget the current line moves back
    below 0, and the second iteration reads [lines[-1]]: the call ends
    with a [TypeError]. *)
Lemma overlap_as_large_as_budget_raises :
  lineGeometry 14 14 (len (content documentedFunction))
    (len (split newline (content documentedFunction))) = Some (2, 2)
  /\ splitWithOverlap 1 documentedFunction 14 14 true (js "javascript")
     = Running
  /\ forall fuel, (2 <= fuel)%nat ->
       splitWithOverlap fuel documentedFunction 14 14 true (js "javascript")
       = Throws.
Proof.
  split; [vm_compute; reflexivity|]. split; [vm_compute; reflexivity|].
  intros fuel Hf. destruct fuel as [|[|fuel]]; try lia.
  unfold splitWithOverlap, splitRun.
  replace (lineGeometry 14 14 (len (content documentedFunction))
             (len (split newline (content documentedFunction))))
    with (Some (2, 2)) by (vm_compute; reflexivity).
  cbn [splitLoop].
  replace (0 <? len (split newline (content documentedFunction))) with true
    by (vm_compute; reflexivity).
  replace (findOptimalSplitPoint (split newline (content documentedFunction)) 0
             (Z.min (0 + 2) (len (split newline (content documentedFunction))))
             (js "javascript")) with (Some 1) by (vm_compute; reflexivity).
  replace (1 - 2 >=? len (split newline (content documentedFunction)) - 2)
    with false by (vm_compute; reflexivity).
  replace (1 - 2 <? len (split newline (content documentedFunction))) with true
    by (vm_compute; reflexivity).
  replace (findOptimalSplitPoint (split newline (content documentedFunction))
             (1 - 2)
             (Z.min (1 - 2 + 2)
                (len (split newline (content documentedFunction))))
             (js "javascript")) with (@None Z) by (vm_compute; reflexivity).
  reflexivity.
Qed.

End Properties.

Import Embedder Uninstaller.

(* ================================================================= *)
(** * Further properties: strings and the metadata enricher *)

Section StringFacts.

Lemma split_app_sep (sep : ascii) (a b : jstring) :
  split sep (a ++ sep :: b) = split sep a ++ split sep b.
Proof.
  induction a as [|c a IH]; simpl.
  - now rewrite Ascii.eqb_refl.
  - destruct (Ascii.eqb c sep); [now rewrite IH|].
    rewrite IH. destruct (split_cons sep a) as (l & ls & ->). reflexivity.
Qed.

Lemma trimStart_spec (s : jstring) :
  exists p, s = p ++ trimStart s /\ Forall (fun c => isSpace c = true) p.
Proof.
  induction s as [|c s (p & E & F)]; simpl.
  - exists []. split; [reflexivity|constructor].
  - destruct (isSpace c) eqn:Ec.
    + exists (c :: p). split; [simpl; now rewrite <- E|now constructor].
    + exists []. split; [reflexivity|constructor].
Qed.

Lemma trimStart_head (s : jstring) (c : ascii) :
  hd_error (trimStart s) = Some c -> isSpace c = false.
Proof.
  induction s as [|x s IH]; simpl; [discriminate|].
  destruct (isSpace x) eqn:E; [exact IH|].
  simpl. now intros [= <-].
Qed.

Lemma trimEnd_spec (s : jstring) :
  exists q, s = trimEnd s ++ q /\ Forall (fun c => isSpace c = true) q.
Proof.
  destruct (trimStart_spec (rev s)) as (p & E & F).
  exists (rev p). split.
  - unfold trimEnd. rewrite <- rev_app_distr, <- E. now rewrite rev_involutive.
  - apply Forall_rev, F.
Qed.

Lemma trimEnd_last (s : jstring) (c : ascii) :
  hd_error (rev (trimEnd s)) = Some c -> isSpace c = false.
Proof. unfold trimEnd. rewrite rev_involutive. apply trimStart_head. Qed.

Lemma trim_spec (s : jstring) :
  exists p q, s = p ++ trim s ++ q
              /\ Forall (fun c => isSpace c = true) p
              /\ Forall (fun c => isSpace c = true) q.
Proof.
  destruct (trimStart_spec s) as (p & E & F).
  destruct (trimEnd_spec (trimStart s)) as (q & E' & F').
  exists p, q. unfold trim. now rewrite <- E', <- E.
Qed.

Lemma In_trim (s : jstring) (c : ascii) : In c (trim s) -> In c s.
Proof.
  destruct (trim_spec s) as (p & q & E & _). intros H. rewrite E.
  apply in_or_app. right. apply in_or_app. now left.
Qed.

Lemma len_trim_le (s : jstring) : len (trim s) <= len s.
Proof.
  destruct (trim_spec s) as (p & q & E & _).
  rewrite E at 2. rewrite !len_app.
  pose proof (len_nonneg p). pose proof (len_nonneg q). lia.
Qed.

Lemma trim_head (s : jstring) (c : ascii) :
  hd_error (trim s) = Some c -> isSpace c = false.
Proof.
  unfold trim. intros H.
  destruct (trimEnd_spec (trimStart s)) as (q & E & _).
  apply (trimStart_head s). rewrite E.
  destruct (trimEnd (trimStart s)); [discriminate|exact H].
Qed.

Lemma trim_last (s : jstring) (c : ascii) :
  hd_error (rev (trim s)) = Some c -> isSpace c = false.
Proof. unfold trim. apply trimEnd_last. Qed.

End StringFacts.

Section EnricherResults.

(** X17.  The importance score in integers: 5, plus 2 for an
    exported chunk, plus 1 for a public name, for a function or a
    class, for a docstring, and for [async] or a generator (one point
    for either or both, by the rounding), capped at 10. *)
Theorem scoreChunk_closed_form (chunk : Chunk) :
  scoreChunk chunk
  = Z.min 10
      (5 + (if isExported chunk then 2 else 0)
         + (if isPublicName (name chunk) then 1 else 0)
         + (if Js.eqb (type chunk) (js "function")
               || Js.eqb (type chunk) (js "class") then 1 else 0)
         + (if truthy (docstring chunk) then 1 else 0)
         + (if isAsync chunk || isGenerator chunk then 1 else 0)).
Proof.
  unfold scoreChunk.
  destruct (Js.eqb (type chunk) (js "function")) eqn:Ef;
    destruct (Js.eqb (type chunk) (js "class")) eqn:Ec.
  - apply eqb_true_iff in Ef. apply eqb_true_iff in Ec.
    rewrite Ef in Ec. discriminate.
  - destruct (isExported chunk), (isPublicName (name chunk)),
      (truthy (docstring chunk)), (isAsync chunk), (isGenerator chunk);
      vm_compute; reflexivity.
  - destruct (isExported chunk), (isPublicName (name chunk)),
      (truthy (docstring chunk)), (isAsync chunk), (isGenerator chunk);
      vm_compute; reflexivity.
  - destruct (isExported chunk), (isPublicName (name chunk)),
      (truthy (docstring chunk)), (isAsync chunk), (isGenerator chunk);
      vm_compute; reflexivity.
Qed.

(** X18.  The count of code lines adds up over a line feed, and
    it lies between 0 and the number of lines. *)
Theorem calculateLOC_adds_over_lines (a b : jstring) :
  calculateLOC (a ++ newline :: b) = calculateLOC a + calculateLOC b
  /\ 0 <= calculateLOC a <= lineCount a.
Proof.
  unfold calculateLOC, lineCount. split.
  - rewrite split_app_sep, filter_app, len_app. reflexivity.
  - split; [apply len_nonneg|].
    unfold len. apply inj_le, filter_length_le.
Qed.

(** X19.  The preview of an enriched chunk has at most 200 code
    units, holds no line feed, and neither opens nor closes with white
    space. *)
Theorem preview_is_one_short_line (env : Env) (chunk : Chunk)
  (fullContent filePath : jstring) (calculate : bool) :
  match enrichChunkMetadata env chunk fullContent filePath calculate with
  | Enriched text m =>
      len (preview m) <= 200
      /\ ~ In newline (preview m)
      /\ (forall c, hd_error (preview m) = Some c -> isSpace c = false)
      /\ (forall c, hd_error (rev (preview m)) = Some c -> isSpace c = false)
  | Plain _ => False
  end.
Proof.
  cbn [enrichChunkMetadata preview].
  split; [|split; [|split]].
  - etransitivity; [apply len_trim_le|].
    unfold flattenNewlines. rewrite len_map.
    unfold substring, len.
    etransitivity; [apply inj_le, firstn_le_length|].
    unfold clamp. lia.
  - intros H. apply In_trim in H. unfold flattenNewlines in H.
    apply in_map_iff in H. destruct H as (c & E & _).
    destruct (Ascii.eqb c newline) eqn:Ec; [discriminate|].
    subst c. now rewrite Ascii.eqb_refl in Ec.
  - intros c. apply trim_head.
  - intros c. apply trim_last.
Qed.

End EnricherResults.

(* ================================================================= *)
(** * Further properties: the structural parsers *)

Section LanguageDetection.

Variable env : Env.

Lemma eqb_false_iff (a b : jstring) : Js.eqb a b = false <-> a <> b.
Proof.
  split.
  - intros H E. apply eqb_true_iff in E. congruence.
  - intros H. destruct (Js.eqb a b) eqn:E; [|reflexivity].
    apply eqb_true_iff in E. contradiction.
Qed.

(** X1.  The language of a file depends only on its extension in
    lower case: four extensions give [javascript], two [typescript],
    two [python], and every other extension, or none, gives
    [unknown]. *)
Theorem detectLanguage_table (filePath : jstring) :
  let ext := toLowerCase (extname env filePath) in
  (detectLanguage env filePath = js "javascript"
   <-> In ext [js ".js"; js ".jsx"; js ".mjs"; js ".cjs"])
  /\ (detectLanguage env filePath = js "typescript"
      <-> In ext [js ".ts"; js ".tsx"])
  /\ (detectLanguage env filePath = js "python"
      <-> In ext [js ".py"; js ".pyw"])
  /\ (detectLanguage env filePath = unknown
      <-> ~ In ext (map fst languageMap)).
Proof.
  unfold detectLanguage. generalize (toLowerCase (extname env filePath)).
  intros e. cbv zeta. cbn [lookup languageMap map fst].
  repeat match goal with
         | |- context [Js.eqb e ?k] =>
             let E := fresh "E" in
             destruct (Js.eqb e k) eqn:E;
             [apply eqb_true_iff in E; subst e
             |apply eqb_false_iff in E]
         end;
    repeat split; intros H; cbn [In] in *;
    try (vm_compute in H; discriminate H);
    try (vm_compute; reflexivity);
    try tauto;
    try (intuition congruence);
    try (exfalso; intuition (try congruence; try discriminate)).
Qed.

End LanguageDetection.

Section SortFacts.

Lemma insertByStart_perm (c : Chunk) (l : list Chunk) :
  Permutation (insertByStart c l) (c :: l).
Proof.
  induction l as [|d l IH]; simpl; [reflexivity|].
  destruct (startChar c <? startChar d); [reflexivity|].
  rewrite IH. apply perm_swap.
Qed.

Lemma fold_insert_perm (l acc : list Chunk) :
  Permutation (fold_left (fun acc c => insertByStart c acc) l acc) (l ++ acc).
Proof.
  revert acc. induction l as [|c l IH]; intros acc; simpl; [reflexivity|].
  rewrite IH, insertByStart_perm. symmetry. apply Permutation_middle.
Qed.

Lemma sortByStart_perm (l : list Chunk) : Permutation (sortByStart l) l.
Proof. unfold sortByStart. rewrite fold_insert_perm. now rewrite app_nil_r. Qed.

Lemma insertByStart_sorted (c : Chunk) (l : list Chunk) :
  StronglySorted byStart l -> StronglySorted byStart (insertByStart c l).
Proof.
  induction l as [|d l IH]; intros S; simpl.
  - constructor; constructor.
  - inversion S as [|? ? S' F]; subst.
    destruct (startChar c <? startChar d) eqn:E.
    + apply Z.ltb_lt in E. constructor; [exact S|].
      constructor; [unfold byStart; lia|].
      eapply Forall_impl; [|exact F]. unfold byStart. intros; lia.
    + apply Z.ltb_ge in E. constructor; [now apply IH|].
      apply Forall_forall. intros x Hx.
      apply In_insertByStart in Hx. destruct Hx as [->|Hx]; [exact E|].
      rewrite Forall_forall in F. now apply F.
Qed.

Lemma fold_insert_sorted (l acc : list Chunk) :
  StronglySorted byStart acc ->
  StronglySorted byStart (fold_left (fun acc c => insertByStart c acc) l acc).
Proof.
  revert acc. induction l as [|c l IH]; intros acc S; simpl; [exact S|].
  apply IH, insertByStart_sorted, S.
Qed.

Lemma sortByStart_sorted (l : list Chunk) : StronglySorted byStart (sortByStart l).
Proof. apply fold_insert_sorted. constructor. Qed.

End SortFacts.

Section ParserResults.

Variable env : Env.

(** X7.  [parsePython] returns the chunks of the functions and of
    the classes, or the whole file when there is none, in the order of
    their start offsets; none is lost and none is added. *)
Theorem parsePython_is_sorted_by_offset (code filePath : jstring) :
  let lines := split newline code in
  let found :=
    map (functionChunk code lines) (execFunctionPattern env code)
    ++ map (classChunk code lines) (execClassPattern env code) in
  StronglySorted byStart (parsePython env code filePath)
  /\ Permutation (parsePython env code filePath)
       (match found with
        | [] => [wholeFile (js "module") (len lines) code]
        | _ :: _ => found
        end).
Proof.
  cbv zeta. unfold parsePython. split; [apply sortByStart_sorted|].
  rewrite sortByStart_perm.
  destruct (map (functionChunk code (split newline code))
              (execFunctionPattern env code)
            ++ map (classChunk code (split newline code))
                 (execClassPattern env code)); reflexivity.
Qed.

Lemma parseJavaScript_nonempty (code filePath : jstring) :
  parseJavaScript env code filePath <> [].
Proof.
  unfold parseJavaScript. destruct (parse env code); [|discriminate].
  destruct (collectNodes body code (split newline code)) as [[|c cs] [|]];
    try discriminate.
Qed.

Lemma parsePython_nonempty (code filePath : jstring) :
  parsePython env code filePath <> [].
Proof.
  unfold parsePython. intros H.
  match type of H with sortByStart ?l = _ =>
    pose proof (sortByStart_perm l) as P; rewrite H in P;
    apply Permutation_nil in P end.
  destruct (map (functionChunk code (split newline code))
              (execFunctionPattern env code)
            ++ map (classChunk code (split newline code))
                 (execClassPattern env code)); discriminate P.
Qed.

(** X2.  Whatever the language and the text, the empty text
    included, [extractChunks] returns at least one chunk. *)
Theorem extractChunks_is_never_empty (code filePath : jstring) :
  extractChunks env code filePath <> [].
Proof.
  unfold extractChunks.
  repeat case_if; try discriminate;
    auto using parseJavaScript_nonempty, parsePython_nonempty.
Qed.

End ParserResults.

Section ParsedChunks.

Variable env : Env.
Variable code : jstring.

Lemma extractNodeInfo_shape (lines : list jstring) :
  forall (node : Node) (c : Chunk),
    extractNodeInfo node code lines = Value (Some c) ->
    isExported c = isExportNode node
    /\ (type c = js "function" \/ type c = js "class")
    /\ unsplit c.
Proof.
  fix IH 1. intros node c.
  destruct node as [sp id a g b|sp id|sp ds|sp d|sp d|sp];
    cbn [extractNodeInfo isExportNode].
  - destruct (extractJSDoc sp lines); [|discriminate].
    intros [= <-]. unfold unsplit. simpl. auto.
  - destruct (extractJSDoc sp lines); [|discriminate].
    intros [= <-]. unfold unsplit. simpl. auto.
  - destruct (firstFunctionDeclarator ds) as [[d async]|]; [|discriminate].
    destruct (extractJSDoc sp lines); [|discriminate].
    intros [= <-]. unfold unsplit. simpl. auto.
  - destruct d as [d|]; [|discriminate].
    destruct (extractNodeInfo d code lines) as [[c0|]|] eqn:E; try discriminate.
    intros [= <-]. destruct (IH d c0 E) as (_ & T & S). simpl. auto.
  - destruct d as [d|]; [|discriminate].
    destruct (extractNodeInfo d code lines) as [[c0|]|] eqn:E; try discriminate.
    intros [= <-]. destruct (IH d c0 E) as (_ & T & S). simpl. auto.
  - discriminate.
Qed.

Lemma collectNodes_shape (lines : list jstring) (body : list Node) :
  forall c, In c (fst (collectNodes body code lines)) ->
            (type c = js "function" \/ type c = js "class") /\ unsplit c.
Proof.
  induction body as [|n body IH]; intros c; cbn [collectNodes]; [intros []|].
  destruct (extractNodeInfo n code lines) as [[c0|]|] eqn:E; [| |intros []].
  - destruct (collectNodes body code lines) as [cs r]. cbn [fst In] in *.
    intros [<-|H]; [|now apply IH].
    now destruct (extractNodeInfo_shape lines n c0 E) as (_ & T & U).
  - exact (IH c).
Qed.

Lemma wholeFile_shape (nm : jstring) (k : Z) :
  structuralKind (type (wholeFile nm k code)) /\ unsplit (wholeFile nm k code).
Proof. unfold structuralKind, unsplit. simpl. auto. Qed.

Lemma parseJavaScript_shape (filePath : jstring) :
  forall c, In c (parseJavaScript env code filePath) ->
            structuralKind (type c) /\ unsplit c.
Proof.
  intros c. unfold parseJavaScript. destruct (parse env code).
  - pose proof (collectNodes_shape (split newline code) body) as S.
    destruct (collectNodes body code (split newline code)) as [cs r].
    cbn [fst] in S.
    assert (In c cs -> structuralKind (type c) /\ unsplit c) as S'.
    { intros H. destruct (S c H) as ([T|T] & U); unfold structuralKind; auto. }
    destruct cs as [|c0 cs], r.
    + intros [<-|[]]. apply wholeFile_shape.
    + intros [<-|[]]. apply wholeFile_shape.
    + intros H. apply in_app_or in H. destruct H as [H|[<-|[]]];
        [now apply S'|apply wholeFile_shape].
    + exact S'.
  - intros [<-|[]]. apply wholeFile_shape.
Qed.

Lemma parsePython_shape (filePath : jstring) :
  forall c, In c (parsePython env code filePath) ->
            structuralKind (type c) /\ unsplit c.
Proof.
  intros c H. unfold parsePython in H. apply In_sortByStart in H.
  assert (In c (map (functionChunk code (split newline code))
                  (execFunctionPattern env code)
                ++ map (classChunk code (split newline code))
                     (execClassPattern env code))
          -> structuralKind (type c) /\ unsplit c) as S.
  { intros H'. apply in_app_or in H'.
    destruct H' as [H'|H']; apply in_map_iff in H'; destruct H' as (m & <- & _).
    - unfold functionChunk, structuralKind, unsplit.
      destruct (findPythonBlockEnd _ _ _). simpl. auto.
    - unfold classChunk, structuralKind, unsplit.
      destruct (findPythonBlockEnd _ _ _). simpl. auto. }
  destruct (map (functionChunk code (split newline code))
              (execFunctionPattern env code)
            ++ map (classChunk code (split newline code))
                 (execClassPattern env code)) as [|c0 cs].
  - destruct H as [<-|[]]. apply wholeFile_shape.
  - now apply S.
Qed.

Lemma extractChunks_shape (filePath : jstring) :
  forall c, In c (extractChunks env code filePath) ->
            structuralKind (type c) /\ unsplit c.
Proof.
  intros c. unfold extractChunks. repeat case_if.
  - apply parseJavaScript_shape.
  - apply parsePython_shape.
  - intros [<-|[]]. apply wholeFile_shape.
Qed.

End ParsedChunks.

Section TrimFacts.

Lemma startsWith_iff (p s : jstring) :
  startsWith p s = true <-> exists u, s = p ++ u.
Proof.
  revert s. induction p as [|x p IH]; intros s; simpl.
  - split; [intros _; now exists s|reflexivity].
  - destruct s as [|y s].
    + split; [discriminate|intros (u & E); discriminate].
    + rewrite andb_true_iff, IH. split.
      * intros (E & u & ->). apply Ascii.eqb_eq in E. subst. now exists u.
      * intros (u & [= -> ->]). split; [apply Ascii.eqb_refl|now exists u].
Qed.

Lemma trimStart_app_code (a b : jstring) (c : ascii) :
  hd_error b = Some c -> isSpace c = false ->
  trimStart (a ++ b) = trimStart a ++ b.
Proof.
  intros Hb Hc. induction a as [|x a IH]; simpl.
  - destruct b as [|y b]; [discriminate|]. simpl in *.
    injection Hb as ->. now rewrite Hc.
  - destruct (isSpace x); [exact IH|reflexivity].
Qed.

Lemma trimStart_app_kept (l r : jstring) :
  trimStart l <> [] -> trimStart (l ++ r) = trimStart l ++ r.
Proof.
  induction l as [|x l IH]; simpl; [congruence|].
  destruct (isSpace x); [exact IH|reflexivity].
Qed.

Lemma trimEnd_app_code (p u : jstring) (c : ascii) :
  hd_error (rev p) = Some c -> isSpace c = false ->
  trimEnd (p ++ u) = p ++ trimEnd u.
Proof.
  intros Hp Hc. unfold trimEnd.
  rewrite rev_app_distr, (trimStart_app_code _ _ c Hp Hc).
  now rewrite rev_app_distr, rev_involutive.
Qed.

(** A prefix that ends with a code unit that is not white space
    survives what follows the line. *)
Lemma trim_keeps_prefix (p l r : jstring) (c : ascii) :
  hd_error (rev p) = Some c -> isSpace c = false ->
  startsWith p (trim l) = true -> startsWith p (trim (l ++ r)) = true.
Proof.
  intros Hp Hc H. apply startsWith_iff in H. destruct H as (u & E).
  unfold trim in E.
  destruct (trimEnd_spec (trimStart l)) as (q & E' & _).
  rewrite E in E'.
  assert (trimStart l <> []) as Hne.
  { rewrite E'. destruct p; [discriminate|discriminate]. }
  unfold trim. rewrite (trimStart_app_kept _ _ Hne), E'.
  rewrite <- !app_assoc, (trimEnd_app_code _ _ c Hp Hc).
  apply startsWith_iff. eexists. reflexivity.
Qed.

Lemma trimStart_fixed (s : jstring) :
  (forall c, hd_error s = Some c -> isSpace c = false) -> trimStart s = s.
Proof.
  destruct s as [|c s]; [reflexivity|]. intros H. simpl.
  now rewrite (H c eq_refl).
Qed.

Lemma trim_idempotent (s : jstring) : trim (trim s) = trim s.
Proof.
  unfold trim at 1. rewrite trimStart_fixed by apply trim_head.
  unfold trimEnd. rewrite trimStart_fixed by apply trim_last.
  apply rev_involutive.
Qed.

End TrimFacts.

Section JsDocFacts.

Lemma get_inside {A : Type} (l : list A) (i : Z) :
  0 <= i < len l -> exists x, get l i = Some x.
Proof.
  intros H. unfold get. replace (i <? 0) with false by (symmetry; apply Z.ltb_ge; lia).
  destruct (nth_error l (Z.to_nat i)) eqn:E; [eauto|].
  apply nth_error_None in E. unfold len in H. lia.
Qed.

Lemma get_outside {A : Type} (l : list A) (i : Z) :
  len l <= i -> get l i = None.
Proof.
  intros H. unfold get. pose proof (len_nonneg l).
  replace (i <? 0) with false by (symmetry; apply Z.ltb_ge; lia).
  apply nth_error_None. unfold len in H. lia.
Qed.

Lemma jsDocLoop_no_raise (lines : list jstring) (startLine : Z) (fuel : nat)
  (i : Z) :
  i < len lines -> jsDocLoop lines startLine fuel i <> Raise.
Proof.
  revert i. induction fuel as [|fuel IH]; intros i Hi; cbn [jsDocLoop];
    [discriminate|].
  destruct ((0 <=? i) && (startLine - 10 <=? i)) eqn:C; [|discriminate].
  apply andb_true_iff in C. destruct C as [C _]. apply Z.leb_le in C.
  destruct (get_inside lines i) as (l & ->); [lia|].
  repeat case_if; try discriminate. apply IH. lia.
Qed.

Lemma slice_from {A : Type} (l : list A) (i j : Z) (x : A) :
  get l i = Some x -> i < j ->
  exists rest, slice l i j = x :: rest.
Proof.
  unfold get. destruct (i <? 0) eqn:Ei; [discriminate|].
  apply Z.ltb_ge in Ei. intros Hx Hj.
  assert (Z.to_nat i < List.length l)%nat as Hlen
      by (apply nth_error_Some; congruence).
  unfold slice, relIndex. rewrite (proj2 (Z.ltb_ge i 0) Ei).
  replace (j <? 0) with false by (symmetry; apply Z.ltb_ge; lia).
  unfold len.
  replace (Z.min i (Z.of_nat (List.length l))) with i by lia.
  destruct (nth_error_split l (Z.to_nat i) Hx) as (l1 & l2 & -> & Hl1).
  replace (skipn (Z.to_nat i) (l1 ++ x :: l2)) with (x :: l2)
    by (rewrite <- Hl1, skipn_app, skipn_all, Nat.sub_diag; reflexivity).
  destruct (Z.to_nat (Z.min j (Z.of_nat (List.length (l1 ++ x :: l2))) - i))
    eqn:En.
  - rewrite length_app in En. simpl in En. lia.
  - simpl. eauto.
Qed.

Lemma join_cons_prefix (sep l : jstring) (ls : list jstring) :
  exists r, join sep (l :: ls) = l ++ r.
Proof.
  destruct ls as [|l' ls]; simpl.
  - exists []. now rewrite app_nil_r.
  - eexists. reflexivity.
Qed.

Lemma jsDocLoop_begins (lines : list jstring) (startLine : Z) (fuel : nat)
  (i : Z) (d : jstring) :
  i < startLine - 1 ->
  jsDocLoop lines startLine fuel i = Value (Some d) ->
  startsWith (js "/**") d = true.
Proof.
  revert i. induction fuel as [|fuel IH]; intros i Hi; cbn [jsDocLoop];
    [discriminate|].
  destruct ((0 <=? i) && (startLine - 10 <=? i)); [|discriminate].
  destruct (get lines i) as [l|] eqn:G; [|discriminate].
  destruct (startsWith (js "/**") (trim l)) eqn:S.
  - intros [= <-].
    destruct (slice_from lines i (startLine - 1) l G Hi) as (rest & ->).
    destruct (join_cons_prefix [newline] l rest) as (r & ->).
    now apply (trim_keeps_prefix _ _ _ "*"%char).
  - case_if; [discriminate|]. apply IH. lia.
Qed.

End JsDocFacts.

Section JsParserResults.

Variable env : Env.

(** X4.  [extractJSDoc] raises a [TypeError] exactly when the
    declaration starts, by acorn's count, two lines or more after the
    last of the lines that [split] gives: the look-back then opens on a
    line that does not exist. *)
Theorem extractJSDoc_raises_beyond_last_line (sp : Span) (lines : list jstring) :
  extractJSDoc sp lines = Raise
  <-> 2 <= loc_start_line sp /\ len lines <= loc_start_line sp - 2.
Proof.
  unfold extractJSDoc. split.
  - intros H.
    destruct (Z_lt_le_dec (loc_start_line sp - 2) (len lines)) as [L|L].
    + now apply jsDocLoop_no_raise in H.
    + split; [|exact L].
      destruct (Z_lt_le_dec (loc_start_line sp) 2) as [L2|L2]; [|exact L2].
      simpl in H.
      replace (0 <=? loc_start_line sp - 2) with false in H
        by (symmetry; apply Z.leb_gt; lia).
      discriminate.
  - intros (H2 & HL). simpl.
    replace (0 <=? loc_start_line sp - 2) with true
      by (symmetry; apply Z.leb_le; lia).
    replace (loc_start_line sp - 10 <=? loc_start_line sp - 2) with true
      by (symmetry; apply Z.leb_le; lia).
    now rewrite get_outside.
Qed.

(** X5.  A documentation comment that [extractJSDoc] returns opens
    with the marker [/**]. *)
Theorem jsdoc_begins_with_its_marker (sp : Span) (lines : list jstring)
  (doc : jstring) :
  extractJSDoc sp lines = Value (Some doc) ->
  startsWith (js "/**") doc = true.
Proof. unfold extractJSDoc. apply jsDocLoop_begins. lia. Qed.

(** X3.  A chunk extracted from a top-level statement is a
    function or a class, and it is marked as exported exactly when the
    statement is an export declaration. *)
Theorem exported_flag_follows_export_statement (code : jstring)
  (lines : list jstring) (node : Node) (c : Chunk) :
  extractNodeInfo node code lines = Value (Some c) ->
  isExported c = isExportNode node
  /\ (type c = js "function" \/ type c = js "class").
Proof.
  intros H. destruct (extractNodeInfo_shape code lines node c H) as (E & T & _).
  now split.
Qed.

Lemma collectNodes_app (before after : list Node) (code : jstring)
  (lines : list jstring) (chunks : list Chunk) :
  collectNodes before code lines = (chunks, false) ->
  collectNodes (before ++ after) code lines
  = (chunks ++ fst (collectNodes after code lines),
     snd (collectNodes after code lines)).
Proof.
  revert chunks. induction before as [|n before IH]; intros chunks; simpl.
  - intros [= <-]. simpl. now destruct (collectNodes after code lines).
  - destruct (extractNodeInfo n code lines) as [[c|]|]; [| |discriminate].
    + destruct (collectNodes before code lines) as [cs r] eqn:E.
      intros [= <- ->]. now rewrite (IH cs eq_refl).
    + intros H. now rewrite (IH chunks H).
Qed.

(** X6.  When the extraction raises on a statement, the chunks
    of the statements before it stay in the array, and the [catch] block
    adds the whole file, named [unparseable], after them. *)
Theorem exception_keeps_chunks_already_extracted (code filePath : jstring)
  (before after : list Node) (node : Node) (chunks : list Chunk) :
  parse env code = ParseOk (before ++ node :: after) ->
  collectNodes before code (split newline code) = (chunks, false) ->
  extractNodeInfo node code (split newline code) = Raise ->
  parseJavaScript env code filePath
  = chunks ++ [wholeFile (js "unparseable") (lineCount code) code].
Proof.
  intros P B R. unfold parseJavaScript. rewrite P.
  rewrite (collectNodes_app _ _ _ _ _ B). cbn [collectNodes]. rewrite R.
  cbn [fst snd]. rewrite app_nil_r. now destruct chunks.
Qed.

End JsParserResults.

Lemma exported_flag_follows_export_statement_witness :
  extractNodeInfo exportedNode exportedSource (split newline exportedSource)
  = Value (Some exportedChunk)
  /\ isExported exportedChunk = isExportNode exportedNode
  /\ (type exportedChunk = js "function" \/ type exportedChunk = js "class").
Proof.
  split; [vm_compute; reflexivity|].
  apply (exported_flag_follows_export_statement exportedSource
           (split newline exportedSource) exportedNode).
  vm_compute. reflexivity.
Defined.

Lemma exception_keeps_chunks_already_extracted_witness :
  parse carriageEnv carriageSource
  = ParseOk ([firstCarriageNode] ++ secondCarriageNode :: [])
  /\ collectNodes [firstCarriageNode] carriageSource
       (split newline carriageSource) = (carriageChunks, false)
  /\ extractNodeInfo secondCarriageNode carriageSource
       (split newline carriageSource) = Raise
  /\ parseJavaScript carriageEnv carriageSource (js "old.js")
     = carriageChunks
       ++ [wholeFile (js "unparseable") (lineCount carriageSource)
             carriageSource].
Proof.
  split; [reflexivity|]. split; [vm_compute; reflexivity|].
  split; [vm_compute; reflexivity|].
  apply (exception_keeps_chunks_already_extracted carriageEnv carriageSource
           (js "old.js") [firstCarriageNode] [] secondCarriageNode
           carriageChunks).
  - reflexivity.
  - vm_compute. reflexivity.
  - vm_compute. reflexivity.
Defined.

Lemma jsdoc_begins_with_its_marker_witness :
  extractJSDoc
    {| node_start := 11; node_end := 38;
       loc_start_line := 2; loc_end_line := 5 |}
    (split newline functionSource)
  = Value (Some (js "/** doc */"))
  /\ startsWith (js "/**") (js "/** doc */") = true.
Proof.
  split; [reflexivity|].
  apply (jsdoc_begins_with_its_marker
           {| node_start := 11; node_end := 38;
              loc_start_line := 2; loc_end_line := 5 |}
           (split newline functionSource)).
  reflexivity.
Defined.

Section DocstringFacts.

Lemma closeDocstring_trimmed (rest : list jstring) (quote : jstring) :
  forall docLines doc,
    closeDocstring rest quote docLines = Some doc -> trim doc = doc.
Proof.
  induction rest as [|l rest IH]; intros docLines doc; cbn [closeDocstring];
    [discriminate|].
  destruct (endsWith quote (trim l)); [|apply IH].
  intros [= <-]. apply trim_idempotent.
Qed.

Lemma docstringLoop_found (lines : list jstring) (stop : Z) (fuel : nat) :
  forall i doc,
    docstringLoop lines stop fuel i = Some doc ->
    exists k l,
      i <= k < i + Z.of_nat fuel /\ k < stop
      /\ get lines k = Some l
      /\ (startsWith tripleDouble (trim l) = true
          \/ startsWith tripleSingle (trim l) = true)
      /\ (forall j lj, i <= j < k -> get lines j = Some lj ->
                       pythonSkipped lj = true)
      /\ trim doc = doc.
Proof.
  induction fuel as [|fuel IH]; intros i doc; cbn [docstringLoop];
    [discriminate|].
  destruct (i <? stop) eqn:S; [|discriminate]. apply Z.ltb_lt in S.
  destruct (get lines i) as [l|] eqn:G; [|discriminate].
  set (quoted := startsWith tripleDouble (trim l)
                 || startsWith tripleSingle (trim l)).
  assert (quoted = true ->
          startsWith tripleDouble (trim l) = true
          \/ startsWith tripleSingle (trim l) = true) as Q
      by (unfold quoted; intros H; now apply orb_true_iff in H).
  destruct (quoted && endsWith (substring (trim l) 0 3) (trim l)
            && (6 <? len (trim l))) eqn:One.
  - intros [= <-]. exists i, l.
    apply andb_true_iff in One. destruct One as (One & _).
    apply andb_true_iff in One. destruct One as (One & _).
    split; [lia|]. split; [lia|]. split; [exact G|].
    split; [now apply Q|]. split; [intros; lia|]. apply trim_idempotent.
  - destruct (if quoted
              then closeDocstring (skipn (Z.to_nat (i + 1)) lines)
                     (substring (trim l) 0 3) [trim l]
              else None) as [d|] eqn:C.
    + intros [= <-]. destruct quoted eqn:Eq; [|discriminate].
      exists i, l. split; [lia|]. split; [lia|]. split; [exact G|].
      split; [now apply Q|]. split; [intros; lia|].
      now apply closeDocstring_trimmed in C.
    + destruct (nonEmpty (trim l) && negb (startsWith (js "#") (trim l)))
        eqn:Code; [discriminate|].
      intros H. destruct (IH _ _ H) as (k & lk & B & Bs & Gk & Qk & Sk & T).
      exists k, lk. split; [lia|]. split; [lia|]. split; [exact Gk|].
      split; [exact Qk|]. split; [|exact T].
      intros j lj Hj Gj. destruct (Z.eq_dec j i) as [->|N].
      * rewrite G in Gj. injection Gj as <-. unfold pythonSkipped.
        destruct (nonEmpty (trim l)); [|reflexivity].
        cbn [andb negb orb] in *. now apply negb_false_iff in Code.
      * apply (Sk j lj); [lia|exact Gj].
Qed.

End DocstringFacts.

Section DocstringResult.

(** X30.  A Python docstring is only ever read off the first line that
    is neither blank nor a comment among the five lines below the
    header, and only if that line opens with three quotes; what is
    returned has no white space at either end. *)
Theorem python_docstring_sits_under_the_header (lines : list jstring)
  (startLine : Z) (doc : jstring) :
  extractPythonDocstring lines startLine = Some doc ->
  exists k l,
    startLine <= k < startLine + 5
    /\ get lines k = Some l
    /\ (startsWith tripleDouble (trim l) = true
        \/ startsWith tripleSingle (trim l) = true)
    /\ (forall j lj, startLine <= j < k -> get lines j = Some lj ->
                     pythonSkipped lj = true)
    /\ trim doc = doc.
Proof.
  unfold extractPythonDocstring. intros H.
  destruct (docstringLoop_found _ _ _ _ _ H)
    as (k & l & B & _ & G & Q & S & T).
  exists k, l. split; [lia|]. split; [exact G|]. split; [exact Q|].
  split; [exact S|exact T].
Qed.

End DocstringResult.

Lemma python_docstring_sits_under_the_header_witness :
  let lines := [js "def f():"; js "  # note"; js "  '''Adds.'''"; js "  pass"] in
  extractPythonDocstring lines 1 = Some (js "Adds.")
  /\ exists k l,
       1 <= k < 1 + 5
       /\ get lines k = Some l
       /\ (startsWith tripleDouble (trim l) = true
           \/ startsWith tripleSingle (trim l) = true)
       /\ (forall j lj, 1 <= j < k -> get lines j = Some lj ->
                        pythonSkipped lj = true)
       /\ trim (js "Adds.") = js "Adds.".
Proof.
  cbv zeta. split; [vm_compute; reflexivity|].
  apply (python_docstring_sits_under_the_header
           [js "def f():"; js "  # note"; js "  '''Adds.'''"; js "  pass"] 1
           (js "Adds.")).
  vm_compute. reflexivity.
Defined.

(* ================================================================= *)
(** * Further properties: split points and the oversize splitter *)

Section PythonBlocks.

Lemma scanBlock_spec (baseIndent : Z) (rest : list jstring) :
  forall endLine,
    let e := scanBlock rest endLine baseIndent in
    endLine <= e <= endLine + len rest
    /\ (forall k l, nth_error rest k = Some l -> endLine + Z.of_nat k < e ->
                    pythonSkipped l = true \/ baseIndent < indentation l)
    /\ (e < endLine + len rest ->
        exists l, nth_error rest (Z.to_nat (e - endLine)) = Some l
                  /\ pythonSkipped l = false /\ indentation l <= baseIndent).
Proof.
  induction rest as [|line rest IH]; intros endLine; cbv zeta; cbn [scanBlock].
  - rewrite len_nil. split; [lia|]. split; [intros [|k] l; discriminate|lia].
  - rewrite len_cons. pose proof (len_nonneg rest) as Hr.
    fold (pythonSkipped line). fold (indentation line).
    destruct (IH (endLine + 1)) as (B & HS & T). cbv zeta in B, HS, T.
    destruct (pythonSkipped line) eqn:P.
    + split; [lia|]. split.
      * intros [|k] l; simpl.
        -- intros [= <-] _. now left.
        -- intros Hl Hk. apply (HS k l Hl). lia.
      * intros He. destruct T as (l & Hl & Hs); [lia|]. exists l.
        replace (Z.to_nat (scanBlock rest (endLine + 1) baseIndent - endLine))
          with (S (Z.to_nat (scanBlock rest (endLine + 1) baseIndent
                             - (endLine + 1)))) by lia.
        auto.
    + destruct (indentation line <=? baseIndent) eqn:I.
      * apply Z.leb_le in I. split; [lia|]. split.
        -- intros k l _ Hk. lia.
        -- intros _. exists line. rewrite Z.sub_diag. auto.
      * apply Z.leb_gt in I. split; [lia|]. split.
        -- intros [|k] l; simpl.
           ++ intros [= <-] _. now right.
           ++ intros Hl Hk. apply (HS k l Hl). lia.
        -- intros He. destruct T as (l & Hl & Hs); [lia|]. exists l.
           replace (Z.to_nat (scanBlock rest (endLine + 1) baseIndent - endLine))
             with (S (Z.to_nat (scanBlock rest (endLine + 1) baseIndent
                                - (endLine + 1)))) by lia.
           auto.
Qed.

Lemma len_skipn {A : Type} (n : nat) (l : list A) :
  len (skipn n l) = Z.max 0 (len l - Z.of_nat n).
Proof. unfold len. rewrite length_skipn. lia. Qed.

(** X8.  The block of a [def] or [class] line runs to the first
    later line that is neither blank nor a comment and is indented no
    deeper than [baseIndent], or to the end of the file; [endChar] is
    the length of the lines before that line, joined. *)
Theorem findPythonBlockEnd_stops_at_first_dedent (lines : list jstring)
  (startLine baseIndent : Z) :
  0 <= startLine ->
  let e := fst (findPythonBlockEnd lines startLine baseIndent) in
  startLine + 1 <= e <= Z.max (startLine + 1) (len lines)
  /\ (forall j l, startLine + 1 <= j < e -> get lines j = Some l ->
                  pythonSkipped l = true \/ baseIndent < indentation l)
  /\ (e < len lines ->
      exists l, get lines e = Some l
                /\ pythonSkipped l = false /\ indentation l <= baseIndent)
  /\ snd (findPythonBlockEnd lines startLine baseIndent)
     = len (join [newline] (firstn (Z.to_nat e) lines)).
Proof.
  intros Hs. cbv zeta. unfold findPythonBlockEnd. cbn [fst snd].
  set (n := Z.to_nat (startLine + 1)).
  destruct (scanBlock_spec baseIndent (skipn n lines) (startLine + 1))
    as (B & HS & T). cbv zeta in B, HS, T.
  set (e := scanBlock (skipn n lines) (startLine + 1) baseIndent) in *.
  rewrite len_skipn in B, T.
  split; [lia|]. split; [|split].
  - intros j l Hj G. unfold get in G.
    replace (j <? 0) with false in G by (symmetry; apply Z.ltb_ge; lia).
    apply (HS (Z.to_nat j - n)%nat l); [|lia].
    rewrite nth_error_skipn. rewrite <- G. f_equal. lia.
  - intros He. destruct T as (l & Hl & Hk); [lia|]. exists l. split; [|exact Hk].
    unfold get. replace (e <? 0) with false by (symmetry; apply Z.ltb_ge; lia).
    rewrite nth_error_skipn in Hl. rewrite <- Hl. f_equal. lia.
  - rewrite slice_zero_nonneg by lia. reflexivity.
Qed.

End PythonBlocks.

Section SplitPoints.

Variable lines : list jstring.
Variable language : jstring.

Lemma scanWindow_argmax (count : nat) :
  forall i bestScore bestLine,
    0 <= i -> i + Z.of_nat count <= len lines ->
    exists r,
      scanWindow lines language count i bestScore bestLine = Some r
      /\ ((r = bestLine
           /\ forall j l, i <= j < i + Z.of_nat count -> get lines j = Some l ->
                          scoreSplitPoint l language <= bestScore)
          \/ (i <= r < i + Z.of_nat count
              /\ exists lr,
                   get lines r = Some lr
                   /\ bestScore < scoreSplitPoint lr language
                   /\ (forall j l, i <= j < i + Z.of_nat count ->
                                   get lines j = Some l ->
                                   scoreSplitPoint l language
                                   <= scoreSplitPoint lr language)
                   /\ (forall j l, i <= j < r -> get lines j = Some l ->
                                   scoreSplitPoint l language
                                   < scoreSplitPoint lr language))).
Proof.
  induction count as [|count IH]; intros i bs bl Hi Hc; cbn [scanWindow].
  - exists bl. split; [reflexivity|]. left. split; [reflexivity|]. intros; lia.
  - destruct (get_inside lines i) as (line & G); [lia|]. rewrite G.
    destruct (scoreSplitPoint line language >? bs) eqn:E.
    + apply Z.gtb_lt in E.
      destruct (IH (i + 1) (scoreSplitPoint line language) i) as (r & R & D);
        [lia|lia|].
      exists r. split; [exact R|]. right.
      destruct D as [(-> & A)|(Hr & lr & Glr & Hb & A & B)].
      * split; [lia|]. exists line. split; [exact G|]. split; [exact E|]. split.
        -- intros j l Hj Gj. destruct (Z.eq_dec j i) as [->|N].
           ++ rewrite G in Gj. injection Gj as <-. lia.
           ++ apply (A j l); [lia|exact Gj].
        -- intros; lia.
      * split; [lia|]. exists lr. split; [exact Glr|]. split; [lia|]. split.
        -- intros j l Hj Gj. destruct (Z.eq_dec j i) as [->|N].
           ++ rewrite G in Gj. injection Gj as <-. lia.
           ++ apply (A j l); [lia|exact Gj].
        -- intros j l Hj Gj. destruct (Z.eq_dec j i) as [->|N].
           ++ rewrite G in Gj. injection Gj as <-. lia.
           ++ apply (B j l); [lia|exact Gj].
    + assert (scoreSplitPoint line language <= bs) as E'.
      { destruct (Z.gtb_spec (scoreSplitPoint line language) bs);
          [discriminate|lia]. }
      destruct (IH (i + 1) bs bl) as (r & R & D); [lia|lia|].
      exists r. split; [exact R|].
      destruct D as [(-> & A)|(Hr & lr & Glr & Hb & A & B)].
      * left. split; [reflexivity|].
        intros j l Hj Gj. destruct (Z.eq_dec j i) as [->|N].
        -- rewrite G in Gj. injection Gj as <-. lia.
        -- apply (A j l); [lia|exact Gj].
      * right. split; [lia|]. exists lr. split; [exact Glr|]. split; [lia|].
        split.
        -- intros j l Hj Gj. destruct (Z.eq_dec j i) as [->|N].
           ++ rewrite G in Gj. injection Gj as <-. lia.
           ++ apply (A j l); [lia|exact Gj].
        -- intros j l Hj Gj. destruct (Z.eq_dec j i) as [->|N].
           ++ rewrite G in Gj. injection Gj as <-. lia.
           ++ apply (B j l); [lia|exact Gj].
Qed.

(** X9.  When the search window is not empty and starts at a
    line that exists, [findOptimalSplitPoint] returns the first line of
    the window with the highest score. *)
Theorem findOptimalSplitPoint_picks_first_best (startLine idealEndLine : Z) :
  let searchStart := Z.max startLine (idealEndLine - windowSize) in
  let searchEnd := Z.min (len lines) (idealEndLine + windowSize) in
  0 <= searchStart -> searchStart < searchEnd ->
  exists r best,
    findOptimalSplitPoint lines startLine idealEndLine language = Some r
    /\ searchStart <= r < searchEnd
    /\ get lines r = Some best
    /\ forall j l, searchStart <= j < searchEnd -> get lines j = Some l ->
         scoreSplitPoint l language <= scoreSplitPoint best language
         /\ (j < r -> scoreSplitPoint l language < scoreSplitPoint best language).
Proof.
  cbv zeta. intros H0 Hw. unfold findOptimalSplitPoint.
  set (s := Z.max startLine (idealEndLine - windowSize)) in *.
  set (e := Z.min (len lines) (idealEndLine + windowSize)) in *.
  destruct (scanWindow_argmax (Z.to_nat (e - s)) s (-1) idealEndLine)
    as (r & R & D); [lia|lia|].
  rewrite Z2Nat.id in D by lia. replace (s + (e - s)) with e in D by lia.
  destruct D as [(_ & A)|(Hr & lr & Glr & _ & A & B)].
  - exfalso. destruct (get_inside lines s) as (l & G); [lia|].
    pose proof (A s l ltac:(lia) G).
    pose proof (scoreSplitPoint_range l language). lia.
  - exists r, lr. repeat split; try lia; try assumption.
    + now apply (A j l).
    + intros Hj. apply (B j l); [lia|assumption].
Qed.

(** X10.  With an empty search window [findOptimalSplitPoint]
    returns the ideal end line as it is; with a window that starts
    before line 0 it raises a [TypeError]. *)
Theorem findOptimalSplitPoint_outside_the_lines (startLine idealEndLine : Z) :
  let searchStart := Z.max startLine (idealEndLine - windowSize) in
  let searchEnd := Z.min (len lines) (idealEndLine + windowSize) in
  (searchEnd <= searchStart ->
   findOptimalSplitPoint lines startLine idealEndLine language
   = Some idealEndLine)
  /\ (searchStart < 0 -> searchStart < searchEnd ->
      findOptimalSplitPoint lines startLine idealEndLine language = None).
Proof.
  cbv zeta. unfold findOptimalSplitPoint. split.
  - intros H. replace (Z.to_nat _) with 0%nat by lia. reflexivity.
  - intros H0 Hw.
    destruct (Z.to_nat (Z.min (len lines) (idealEndLine + windowSize)
                        - Z.max startLine (idealEndLine - windowSize)))
      eqn:E; [lia|].
    cbn [scanWindow]. unfold get.
    now replace (Z.max startLine (idealEndLine - windowSize) <? 0) with true
      by (symmetry; apply Z.ltb_lt; lia).
Qed.

End SplitPoints.

Lemma findPythonBlockEnd_stops_at_first_dedent_witness :
  0 <= 0
  /\ let e := fst (findPythonBlockEnd pythonLines 0 0) in
     0 + 1 <= e <= Z.max (0 + 1) (len pythonLines)
     /\ (forall j l, 0 + 1 <= j < e -> get pythonLines j = Some l ->
                     pythonSkipped l = true \/ 0 < indentation l)
     /\ (e < len pythonLines ->
         exists l, get pythonLines e = Some l
                   /\ pythonSkipped l = false /\ indentation l <= 0)
     /\ snd (findPythonBlockEnd pythonLines 0 0)
        = len (join [newline] (firstn (Z.to_nat e) pythonLines)).
Proof.
  split; [lia|].
  apply (findPythonBlockEnd_stops_at_first_dedent pythonLines 0 0). lia.
Defined.

Lemma findOptimalSplitPoint_picks_first_best_witness :
  let lines := [js "a"; js ""; js "b"] in
  let language := js "javascript" in
  let searchStart := Z.max 0 (1 - windowSize) in
  let searchEnd := Z.min (len lines) (1 + windowSize) in
  (0 <= searchStart /\ searchStart < searchEnd)
  /\ exists r best,
       findOptimalSplitPoint lines 0 1 language = Some r
       /\ searchStart <= r < searchEnd
       /\ get lines r = Some best
       /\ forall j l, searchStart <= j < searchEnd -> get lines j = Some l ->
            scoreSplitPoint l language <= scoreSplitPoint best language
            /\ (j < r ->
                scoreSplitPoint l language < scoreSplitPoint best language).
Proof.
  cbv zeta. split; [split; [vm_compute; discriminate|reflexivity]|].
  apply (findOptimalSplitPoint_picks_first_best [js "a"; js ""; js "b"]
           (js "javascript") 0 1).
  - vm_compute. discriminate.
  - reflexivity.
Defined.

Section SplitterEnds.

Variable chunk : Chunk.
Variable lines : list jstring.
Variables linesPerChunk overlapLines : Z.
Variable preserve : bool.
Variable language : jstring.



End SplitterEnds.

Section SplitterEndsResult.


End SplitterEndsResult.


Section LastLine.

Variable chunk : Chunk.
Variable lines : list jstring.
Variable language : jstring.

Lemma splitPoint_below_last (linesPerChunk currentLine sp : Z) :
  currentLine < len lines ->
  findOptimalSplitPoint lines currentLine
    (Z.min (currentLine + linesPerChunk) (len lines)) language = Some sp ->
  sp < len lines.
Proof.
  intros Hc. unfold findOptimalSplitPoint, windowSize.
  set (e := Z.min (currentLine + linesPerChunk) (len lines)).
  assert (e <= len lines) as He by (unfold e; lia). clearbody e.
  intros H.
  destruct (Z.to_nat (Z.min (len lines) (e + 10) - Z.max currentLine (e - 10)))
    as [|n] eqn:En.
  - cbn [scanWindow] in H. injection H as <-. lia.
  - apply scanWindow_inside in H; [|lia]. lia.
Qed.

Lemma removelast_firstn_all {A : Type} (l : list A) :
  removelast l = firstn (List.length l - 1) l.
Proof.
  destruct l as [|x l] using rev_ind; [reflexivity|].
  rewrite removelast_last, length_app. cbn [List.length].
  replace (List.length l + 1 - 1)%nat with (List.length l + 0)%nat by lia.
  rewrite firstn_app_2. cbn [firstn]. now rewrite app_nil_r.
Qed.

Lemma subChunk_below_last (preserve : bool) (line sp k : Z) :
  0 < len lines -> sp < len lines ->
  endLine (subChunk chunk lines preserve line sp k)
  <= startLine chunk + len lines - 2
  /\ endChar (subChunk chunk lines preserve line sp k)
     <= startChar chunk + len (join [newline] (removelast lines)).
Proof.
  intros Hp Hs. cbn [endLine endChar subChunk]. split; [lia|].
  rewrite slice_zero, removelast_firstn_all.
  apply Zplus_le_compat_l, len_join_firstn_mono.
  unfold relIndex. unfold len in *.
  destruct (sp <? 0) eqn:E; [apply Z.ltb_lt in E|]; lia.
Qed.

End LastLine.

Section LastLineResult.

(** X29.  No sub-chunk of the oversize splitter reaches the last line of
    the chunk it splits: whatever the sizes, every sub-chunk in the
    array of the splitter ends, in lines and in offsets, before that
    line. *)
Theorem sub_chunks_stop_before_the_last_line (fuel : nat) (chunk : Chunk)
  (maxSize over : Z) (preserve : bool) (language : jstring) (c : Chunk) :
  In c (chunksAfter fuel chunk maxSize over preserve language) ->
  endLine c <= startLine chunk + lineCount (content chunk) - 2
  /\ endChar c
     <= startChar chunk
        + len (join [newline] (removelast (split newline (content chunk)))).
Proof.
  unfold chunksAfter, splitRun, lineCount.
  destruct (lineGeometry _ _ _ _) as [[lpc ol]|]; [|intros []].
  pose proof (len_split_pos newline (content chunk)) as Hp.
  destruct (splitLoop fuel chunk (split newline (content chunk)) lpc ol
              preserve language 0 0) as [cs st] eqn:L.
  assert (forall c0, In c0 cs ->
            endLine c0
            <= startLine chunk + len (split newline (content chunk)) - 2
            /\ endChar c0
               <= startChar chunk
                  + len (join [newline]
                           (removelast (split newline (content chunk)))))
    as Hall.
  { intros c0 H0. apply In_nth_error in H0. destruct H0 as (i & Hi).
    destruct (splitLoop_pushed _ _ _ _ _ _ _ _ _ _ _ L i c0 Hi)
      as (line & sp & -> & _ & Hl & F).
    apply subChunk_below_last; [lia|].
    exact (splitPoint_below_last _ language lpc line sp Hl F). }
  destruct st; intros H; try (now apply Hall).
  apply In_backfill in H. destruct H as (c0 & H0 & ->).
  cbn [endLine endChar setTotalParts]. now apply Hall.
Qed.

End LastLineResult.

Lemma sub_chunks_stop_before_the_last_line_witness :
  let c := hd documentedFunction documentedParts in
  In c (chunksAfter 2 documentedFunction 14 0 true (js "javascript"))
  /\ endLine c
     <= startLine documentedFunction
        + lineCount (content documentedFunction) - 2
  /\ endChar c
     <= startChar documentedFunction
        + len (join [newline]
                 (removelast (split newline (content documentedFunction)))).
Proof.
  cbv zeta.
  assert (In (hd documentedFunction documentedParts)
            (chunksAfter 2 documentedFunction 14 0 true (js "javascript")))
    as Hin by (vm_compute; left; reflexivity).
  split; [exact Hin|].
  apply (sub_chunks_stop_before_the_last_line 2 documentedFunction 14 0 true
           (js "javascript") (hd documentedFunction documentedParts)).
  exact Hin.
Defined.

(* ================================================================= *)
(** * Further properties: the fallback windower *)

Section WindowerLoop.

Variable text : jstring.
Variables maxSize over : Z.

Lemma simpleLoop_never_raises (fuel : nat) (start part : Z) :
  snd (simpleLoop fuel text maxSize over start part) <> Raised.
Proof.
  revert start part. induction fuel as [|fuel IH]; intros start part;
    cbn [simpleLoop]; [discriminate|].
  destruct (start <? len text); [|discriminate].
  destruct (_ >=? _); [discriminate|].
  specialize (IH (Z.min (start + maxSize) (len text) - over) (part + 1)).
  destruct (simpleLoop fuel text maxSize over _ _) as [cs st]. exact IH.
Qed.

Lemma simpleLoop_numbered (fuel : nat) (start part : Z) (cs : list Chunk)
  (st : status) :
  simpleLoop fuel text maxSize over start part = (cs, st) ->
  forall i c, nth_error cs i = Some c ->
    exists s,
      c = textChunk text maxSize s (Z.min (s + maxSize) (len text))
            (part + Z.of_nat i)
      /\ (i = 0%nat -> s = start).
Proof.
  revert start part cs st. induction fuel as [|fuel IH]; intros start part cs st;
    cbn [simpleLoop].
  - intros [= <- _] [|i] c; discriminate.
  - destruct (start <? len text); [|intros [= <- _] [|i] c; discriminate].
    destruct (_ >=? _).
    + intros [= <- _] [|[|i]] c; try discriminate. intros [= <-].
      exists start. rewrite Z.add_0_r. auto.
    + destruct (simpleLoop fuel text maxSize over _ _) as [cs' st'] eqn:E.
      intros [= <- _] [|i] c.
      * intros [= <-]. exists start. rewrite Z.add_0_r. auto.
      * intros H. destruct (IH _ _ _ _ E i c H) as (s & -> & _).
        exists s. split; [f_equal; lia|lia].
Qed.

Lemma len_split_lines (s : jstring) :
  len (split newline s) = 1 + len (filter (Ascii.eqb newline) s).
Proof.
  induction s as [|c s IH]; [reflexivity|]. cbn [split filter].
  rewrite (Ascii.eqb_sym newline c).
  destruct (Ascii.eqb c newline).
  - rewrite !len_cons. lia.
  - destruct (split_cons newline s) as (l & ls & E). rewrite E in *.
    rewrite len_cons in *. lia.
Qed.

Lemma substring_from_zero (s : jstring) (p : Z) :
  substring s 0 p = firstn (Z.to_nat p) s.
Proof.
  unfold substring, clamp. pose proof (len_nonneg s) as H.
  replace (Z.min (Z.max 0 (Z.min 0 (len s))) (Z.max 0 (Z.min p (len s))))
    with 0 by lia.
  replace (Z.max (Z.max 0 (Z.min 0 (len s))) (Z.max 0 (Z.min p (len s))) - 0)
    with (Z.max 0 (Z.min p (len s))) by lia.
  simpl skipn. unfold len in *.
  destruct (Z_le_gt_dec p (Z.of_nat (List.length s))).
  - f_equal. lia.
  - rewrite !firstn_all2 by lia. reflexivity.
Qed.

Lemma map_content_backfill (cs : list Chunk) :
  map content (backfill cs) = map content cs.
Proof. unfold backfill. rewrite map_map. reflexivity. Qed.

End WindowerLoop.

Section WindowerReassembly.

Variable text : jstring.
Variables maxSize over : Z.
Hypothesis over_nonneg : 0 <= over.
Hypothesis over_small : over < maxSize.

Lemma simpleLoop_reassembles (fuel : nat) :
  forall start part,
    0 <= start -> start + over < len text ->
    len text - start <= Z.of_nat fuel ->
    exists cs,
      simpleLoop fuel text maxSize over start part = (cs, Finished)
      /\ List.concat (map (fun c => skipn (Z.to_nat over) (content c)) cs)
         = skipn (Z.to_nat (start + over)) text.
Proof.
  induction fuel as [|fuel IH]; intros start part H0 H1 Hf; [lia|].
  cbn [simpleLoop].
  replace (start <? len text) with true by (symmetry; apply Z.ltb_lt; lia).
  set (stop := Z.min (start + maxSize) (len text)).
  assert (content (textChunk text maxSize start stop part)
          = firstn (Z.to_nat (stop - start)) (skipn (Z.to_nat start) text))
    as Hc by (cbn [content textChunk]; apply substring_inside; lia).
  assert (skipn (Z.to_nat over)
            (content (textChunk text maxSize start stop part))
          = firstn (Z.to_nat (stop - start - over))
              (skipn (Z.to_nat (start + over)) text)) as Hk.
  { rewrite Hc, skipn_firstn_comm, skipn_skipn. f_equal; [lia|f_equal; lia]. }
  destruct (stop - over >=? len text - over) eqn:B.
  - exists [textChunk text maxSize start stop part]. split; [reflexivity|].
    cbn [map List.concat]. rewrite app_nil_r, Hk.
    apply firstn_all2. rewrite length_skipn.
    assert (stop = len text) by lia. unfold len in *. lia.
  - assert (stop = start + maxSize /\ start + maxSize < len text) as (Es & Hlt)
        by lia.
    destruct (IH (stop - over) (part + 1)) as (cs & -> & R); [lia|lia|lia|].
    eexists. split; [reflexivity|].
    cbn [map List.concat]. rewrite Hk, R.
    replace (Z.to_nat (stop - over + over))
      with (Z.to_nat (stop - start - over) + Z.to_nat (start + over))%nat by lia.
    rewrite <- skipn_skipn. apply firstn_skipn.
Qed.

End WindowerReassembly.

Section WindowerReturns.

(** X13.  For [0 <= overlap < maxChunkSize < len(content)] the
    windower returns, and the text is its first [overlap] code units
    followed by what every chunk holds after its own first [overlap]
    code units; with [overlap = 0] the chunks are a partition of the
    text. *)
Theorem simpleChunk_reassembles (text : jstring) (maxSize over : Z) :
  0 <= over -> over < maxSize -> maxSize < len text ->
  exists chunks,
    (forall fuel, (Z.to_nat (len text) <= fuel)%nat ->
                  simpleChunk fuel text maxSize over = Returns chunks)
    /\ firstn (Z.to_nat over) text
       ++ List.concat (map (fun c => skipn (Z.to_nat over) (content c)) chunks)
       = text.
Proof.
  intros H0 H1 H2.
  destruct (simpleLoop_reassembles text maxSize over H0 H1
              (Z.to_nat (len text)) 0 0) as (cs & L & R); [lia|lia|lia|].
  exists (backfill cs). split.
  - intros fuel Hf. unfold simpleChunk.
    replace (len text <=? maxSize) with false by (symmetry; apply Z.leb_gt; lia).
    now rewrite (simpleLoop_more_fuel _ _ _ _ _ _ _ _ L Hf).
  - unfold backfill. rewrite map_map. cbn [content setTotalParts].
    rewrite R. rewrite Z.add_0_l. apply firstn_skipn.
Qed.

(** X14.  When the text is longer than [maxChunkSize] and the
    overlap is as large as [maxChunkSize] or larger, both below
    [2 ^ 53], where the differences [end - overlap] and
    [content.length - overlap] of the first iteration are exact in
    binary64, the windower never returns, and neither does the engine on
    a file of unknown language. *)
Theorem simpleChunk_runs_forever_when_overlap_reaches_budget
  (text : jstring) (maxSize over : Z) :
  0 <= maxSize -> maxSize < len text -> maxSize <= over ->
  over < 2 ^ 53 -> len text < 2 ^ 53 ->
  forall fuel,
    simpleChunk fuel text maxSize over = Running
    /\ forall env filePath options,
         detectLanguage env filePath = unknown ->
         maxChunkSize options = Some maxSize -> overlap options = Some over ->
         intelligentChunk env fuel text filePath options = Running.
Proof.
  intros H0 H1 H2 _ _ fuel.
  assert (simpleChunk fuel text maxSize over = Running) as R.
  { unfold simpleChunk.
    replace (len text <=? maxSize) with false by (symmetry; apply Z.leb_gt; lia).
    pose proof (simpleLoop_not_finished text maxSize over fuel 0 0 H0 H1 H2
                  (Z.le_refl 0)) as NF.
    pose proof (simpleLoop_never_raises text maxSize over fuel 0 0) as NR.
    destruct (simpleLoop fuel text maxSize over 0 0) as [cs [| |]];
      simpl in *; congruence. }
  split; [exact R|].
  intros env filePath options L M O. unfold intelligentChunk.
  rewrite L, M, O. cbn [orDefault]. rewrite eqb_refl. now rewrite R.
Qed.

(** X15.  The windows of a text longer than [maxChunkSize] are
    numbered from 0 in order, named [chunk_0], [chunk_1], ..., of type
    [text], partial, and [totalParts] is their number on each. *)
Theorem simpleChunk_numbers_its_windows (text : jstring) (maxSize over : Z)
  (fuel : nat) (chunks : list Chunk) :
  maxSize < len text ->
  simpleChunk fuel text maxSize over = Returns chunks ->
  forall i c, nth_error chunks i = Some c ->
    partNumber c = Some (Z.of_nat i)
    /\ totalParts c = Some (len chunks)
    /\ name c = Some (js "chunk_" ++ ofInt (Z.of_nat i))
    /\ type c = js "text"
    /\ isPartial c = true.
Proof.
  intros H. unfold simpleChunk.
  replace (len text <=? maxSize) with false by (symmetry; apply Z.leb_gt; lia).
  destruct (simpleLoop fuel text maxSize over 0 0) as [cs [| |]] eqn:L;
    try discriminate.
  intros [= <-] i c Hc.
  apply nth_error_backfill in Hc. destruct Hc as (c0 & Hc0 & ->).
  destruct (simpleLoop_numbered _ _ _ _ _ _ _ _ L i c0 Hc0) as (s & -> & _).
  rewrite len_backfill. cbn. repeat split.
  now apply Z.ltb_lt.
Qed.

(** X16.  On a window, [endLine] is the line that holds the end
    offset, and [startLine] is one more than the line that holds the
    start offset: the first window reports [startLine] 2. *)
Theorem simpleChunk_start_line_is_one_ahead (text : jstring)
  (maxSize over : Z) (fuel : nat) (chunks : list Chunk) :
  maxSize < len text ->
  simpleChunk fuel text maxSize over = Returns chunks ->
  (forall c, In c chunks ->
     startLine c = lineAt text (startChar c) + 1
     /\ endLine c = lineAt text (endChar c))
  /\ (forall c, hd_error chunks = Some c -> startLine c = 2).
Proof.
  intros H. unfold simpleChunk.
  replace (len text <=? maxSize) with false by (symmetry; apply Z.leb_gt; lia).
  destruct (simpleLoop fuel text maxSize over 0 0) as [cs [| |]] eqn:L;
    try discriminate.
  intros [= <-]. split.
  - intros c Hc. apply In_backfill in Hc. destruct Hc as (c0 & Hc0 & ->).
    apply In_nth_error in Hc0. destruct Hc0 as (i & Hi).
    destruct (simpleLoop_numbered _ _ _ _ _ _ _ _ L i c0 Hi) as (s & -> & _).
    cbn [startLine endLine startChar endChar setTotalParts textChunk].
    unfold lineAt. now rewrite !len_split_lines, !substring_from_zero.
  - intros c Hc.
    assert (nth_error (backfill cs) 0 = Some c) as Hn
        by (destruct (backfill cs); [discriminate|exact Hc]).
    apply nth_error_backfill in Hn. destruct Hn as (c0 & Hc0 & ->).
    destruct (simpleLoop_numbered _ _ _ _ _ _ _ _ L 0%nat c0 Hc0)
      as (s & -> & Hs).
    rewrite (Hs eq_refl). cbn [startLine setTotalParts textChunk].
    now rewrite substring_from_zero.
Qed.

End WindowerReturns.

Lemma simpleChunk_runs_forever_when_overlap_reaches_budget_witness :
  (0 <= 5 /\ 5 < len alphabet /\ 5 <= 5 /\ 5 < 2 ^ 53
   /\ len alphabet < 2 ^ 53)
  /\ forall fuel,
       simpleChunk fuel alphabet 5 5 = Running
       /\ forall env filePath options,
            detectLanguage env filePath = unknown ->
            maxChunkSize options = Some 5 -> overlap options = Some 5 ->
            intelligentChunk env fuel alphabet filePath options = Running.
Proof.
  split;
    [split; [lia|split; [reflexivity|split; [lia|split; [lia|reflexivity]]]]|].
  apply (simpleChunk_runs_forever_when_overlap_reaches_budget alphabet 5 5);
    [lia|reflexivity|lia|lia|reflexivity].
Defined.

Lemma simpleChunk_numbers_its_windows_witness :
  (5 < len alphabet /\ simpleChunk 12 alphabet 5 2 = Returns alphabetWindows)
  /\ forall i c, nth_error alphabetWindows i = Some c ->
       partNumber c = Some (Z.of_nat i)
       /\ totalParts c = Some (len alphabetWindows)
       /\ name c = Some (js "chunk_" ++ ofInt (Z.of_nat i))
       /\ type c = js "text"
       /\ isPartial c = true.
Proof.
  split; [split; [reflexivity|vm_compute; reflexivity]|].
  apply (simpleChunk_numbers_its_windows alphabet 5 2 12 alphabetWindows).
  - reflexivity.
  - vm_compute. reflexivity.
Defined.

Lemma simpleChunk_start_line_is_one_ahead_witness :
  (5 < len alphabet /\ simpleChunk 12 alphabet 5 2 = Returns alphabetWindows)
  /\ (forall c, In c alphabetWindows ->
        startLine c = lineAt alphabet (startChar c) + 1
        /\ endLine c = lineAt alphabet (endChar c))
  /\ (forall c, hd_error alphabetWindows = Some c -> startLine c = 2).
Proof.
  split; [split; [reflexivity|vm_compute; reflexivity]|].
  apply (simpleChunk_start_line_is_one_ahead alphabet 5 2 12 alphabetWindows).
  - reflexivity.
  - vm_compute. reflexivity.
Defined.

Lemma simpleChunk_reassembles_witness :
  (0 <= 2 /\ 2 < 5 /\ 5 < len alphabet)
  /\ exists chunks,
       (forall fuel, (Z.to_nat (len alphabet) <= fuel)%nat ->
                     simpleChunk fuel alphabet 5 2 = Returns chunks)
       /\ firstn (Z.to_nat 2) alphabet
          ++ List.concat (map (fun c => skipn (Z.to_nat 2) (content c)) chunks)
          = alphabet.
Proof.
  split; [split; [lia|split; [lia|reflexivity]]|].
  apply (simpleChunk_reassembles alphabet 5 2); [lia|lia|reflexivity].
Defined.

(* ================================================================= *)
(** * Further properties: the engine *)

Section EngineResults.

Variable env : Env.

Lemma simpleChunk_kind (fuel : nat) (text : jstring) (maxSize over : Z)
  (chunks : list Chunk) :
  simpleChunk fuel text maxSize over = Returns chunks ->
  forall c, In c chunks -> type c = js "text".
Proof.
  unfold simpleChunk. destruct (len text <=? maxSize).
  - intros [= <-] c [<-|[]]. reflexivity.
  - destruct (simpleLoop fuel text maxSize over 0 0) as [cs [| |]] eqn:L;
      try discriminate.
    intros [= <-] c Hc. apply In_backfill in Hc. destruct Hc as (c0 & Hc0 & ->).
    destruct (simpleLoop_pushed _ _ _ _ _ _ _ _ L c0 Hc0) as (s & k & ->).
    reflexivity.
Qed.

Lemma simpleChunk_nonempty (fuel : nat) (text : jstring) (maxSize over : Z)
  (chunks : list Chunk) :
  0 <= maxSize ->
  simpleChunk fuel text maxSize over = Returns chunks -> chunks <> [].
Proof.
  intros H0. unfold simpleChunk. destruct (len text <=? maxSize) eqn:E.
  - intros [= <-]. discriminate.
  - apply Z.leb_gt in E. destruct fuel as [|fuel]; cbn [simpleLoop];
      [discriminate|].
    replace (0 <? len text) with true by (symmetry; apply Z.ltb_lt; lia).
    destruct (_ >=? _).
    + intros [= <-]. discriminate.
    + destruct (simpleLoop fuel text maxSize over _ _) as [cs [| |]];
        try discriminate.
      intros [= <-]. discriminate.
Qed.

Lemma detectLanguage_known (filePath : jstring) :
  Js.eqb (detectLanguage env filePath) unknown = false ->
  In (detectLanguage env filePath)
    [js "javascript"; js "typescript"; js "python"].
Proof.
  unfold detectLanguage.
  generalize (toLowerCase (extname env filePath)). intros e.
  cbn [lookup languageMap].
  repeat match goal with
         | |- context [Js.eqb e ?k] => destruct (Js.eqb e k)
         end;
    intros H; cbn [In]; auto; try discriminate H.
Qed.

Lemma subChunk_type (chunk : Chunk) (lines : list jstring) (preserve : bool)
  (line sp k : Z) :
  type (subChunk chunk lines preserve line sp k) = type chunk.
Proof. reflexivity. Qed.

Lemma splitWithOverlap_kind (fuel : nat) (chunk : Chunk) (maxSize over : Z)
  (preserve : bool) (language : jstring) (subs : list Chunk) :
  splitWithOverlap fuel chunk maxSize over preserve language = Returns subs ->
  forall c, In c subs -> type c = type chunk.
Proof.
  unfold splitWithOverlap, splitRun.
  destruct (lineGeometry _ _ _ _) as [[lpc ol]|]; [|discriminate].
  destruct (splitLoop _ _ _ _ _ _ _ _ _) as [cs [| |]] eqn:L; try discriminate.
  intros [= <-] c Hc. apply In_backfill in Hc. destruct Hc as (c0 & Hc0 & ->).
  apply In_nth_error in Hc0. destruct Hc0 as (i & Hi).
  destruct (splitLoop_pushed _ _ _ _ _ _ _ _ _ _ _ L i c0 Hi)
    as (line & sp & -> & _).
  reflexivity.
Qed.

(** X20.  An output of the engine is of one kind: for a file of
    unknown language every element is a bare chunk of type [text]; for
    a recognized language every element is enriched, reports that
    language, and has the type [function], [class] or [other]. *)
Theorem engine_output_is_uniform (fuel : nat) (text filePath : jstring)
  (options : Options) (items : list Item) :
  intelligentChunk env fuel text filePath options = Returns items ->
  (detectLanguage env filePath = unknown
   /\ forall item, In item items ->
        exists c, item = Plain c /\ type c = js "text")
  \/ (In (detectLanguage env filePath)
        [js "javascript"; js "typescript"; js "python"]
      /\ forall item, In item items ->
           exists t m, item = Enriched t m
                       /\ language m = detectLanguage env filePath
                       /\ structuralKind (chunk_type m)).
Proof.
  intros H. pose proof H as H'. unfold intelligentChunk in H.
  destruct (Js.eqb (detectLanguage env filePath) unknown) eqn:E.
  - left. split; [now apply eqb_true_iff|].
    destruct (simpleChunk fuel text _ _) as [chunks| | |] eqn:S;
      try discriminate.
    injection H as <-. intros item Hi. apply in_map_iff in Hi.
    destruct Hi as (c & <- & Hc). exists c. split; [reflexivity|].
    exact (simpleChunk_kind _ _ _ _ _ S c Hc).
  - right. split; [now apply detectLanguage_known|].
    intros item Hi.
    destruct (processChunks_items _ _ _ _ _ _ _ _ _ _ _ H item Hi)
      as (c & -> & D).
    eexists. eexists. split; [reflexivity|]. split; [reflexivity|].
    cbn [chunk_type].
    destruct D as [(Hc & _)|(parent & subs & Hp & _ & S & Hc)].
    + now apply (extractChunks_shape env text filePath).
    + rewrite (splitWithOverlap_kind _ _ _ _ _ _ _ S c Hc).
      now apply (extractChunks_shape env text filePath).
Qed.

(** X21.  With a [maxChunkSize] that is not negative the engine
    never returns an empty array. *)
Theorem engine_output_is_never_empty (fuel : nat) (text filePath : jstring)
  (options : Options) (items : list Item) :
  0 <= orDefault 4000 (maxChunkSize options) ->
  intelligentChunk env fuel text filePath options = Returns items ->
  items <> [].
Proof.
  intros H0 H. unfold intelligentChunk in H.
  destruct (Js.eqb (detectLanguage env filePath) unknown).
  - destruct (simpleChunk fuel text _ _) as [chunks| | |] eqn:S;
      try discriminate.
    injection H as <-. apply simpleChunk_nonempty in S; [|exact H0].
    destruct chunks; [contradiction|discriminate].
  - pose proof (parseJavaScript_nonempty env text filePath) as NJ.
    pose proof (parsePython_nonempty env text filePath) as NP.
    assert (extractChunks env text filePath <> []) as NE
        by (unfold extractChunks; repeat case_if; auto; discriminate).
    destruct (extractChunks env text filePath) as [|c cs]; [contradiction|].
    cbn [processChunks] in H.
    destruct (len (content c) <=? _).
    + destruct (processChunks _ _ cs _ _ _ _ _ _ _); try discriminate.
      injection H as <-. discriminate.
    + destruct (splitWithOverlap _ _ _ _ _ _) as [subs| | |] eqn:S;
        try discriminate.
      apply splitWithOverlap_numbered in S. destruct S as (S & _).
      destruct (processChunks _ _ cs _ _ _ _ _ _ _); try discriminate.
      injection H as <-. destruct subs; [contradiction|discriminate].
Qed.

Lemma processChunks_within_budget (fuel : nat) (parsed : list Chunk)
  (text filePath : jstring) (maxSize over : Z) (preserve calculate : bool)
  (language : jstring) :
  (forall c, In c parsed -> len (content c) <= maxSize) ->
  processChunks env fuel parsed text filePath maxSize over preserve calculate
    language
  = Returns (map (fun c => enrichChunkMetadata env c text filePath calculate)
               parsed).
Proof.
  induction parsed as [|c parsed IH]; intros H; cbn [processChunks map];
    [reflexivity|].
  replace (len (content c) <=? maxSize) with true
    by (symmetry; apply Z.leb_le, H; now left).
  rewrite IH; [reflexivity|]. intros x Hx. apply H. now right.
Qed.

(** X22.  A file no longer than [maxChunkSize] is never split:
    the engine returns whatever the fuel, and what it returns is not
    empty.  For a recognized language it is one enriched element per
    parsed chunk, in order, none of them partial.  For an unknown
    language it is one bare chunk that holds the whole text: its content
    is the text, its offsets are 0 and the length of the text, its lines
    are 1 and the number of lines, and it is of type [text], named
    [content], and not a part of a split. *)
Theorem file_within_budget_is_not_split (text filePath : jstring)
  (options : Options) :
  wellFormed env text ->
  len text <= orDefault 4000 (maxChunkSize options) ->
  forall fuel,
    exists items,
      intelligentChunk env fuel text filePath options = Returns items
      /\ items <> []
      /\ (Js.eqb (detectLanguage env filePath) unknown = false ->
          items
          = map (fun c => enrichChunkMetadata env c text filePath
                            (orDefault true (calculateComplexity options)))
              (extractChunks env text filePath))
      /\ (Js.eqb (detectLanguage env filePath) unknown = true ->
          exists c,
            items = [Plain c]
            /\ content c = text
            /\ startChar c = 0 /\ endChar c = len text
            /\ startLine c = 1 /\ endLine c = len (split newline text)
            /\ type c = js "text" /\ name c = Some (js "content")
            /\ unsplit c)
      /\ forall item, In item items ->
           match item with
           | Enriched _ m =>
               is_partial m = false /\ part_number m = 0 /\ total_parts m = 1
           | Plain c => isPartial c = false /\ items = [Plain c]
           end.
Proof.
  intros W B fuel. unfold intelligentChunk.
  destruct (Js.eqb (detectLanguage env filePath) unknown) eqn:E.
  - unfold simpleChunk.
    replace (len text <=? orDefault 4000 (maxChunkSize options)) with true
      by (symmetry; now apply Z.leb_le).
    eexists. split; [reflexivity|]. split; [discriminate|].
    split; [discriminate|]. split.
    + intros _. eexists. split; [reflexivity|]. cbn.
      repeat split; reflexivity.
    + intros item [<-|[]]. split; reflexivity.
  - rewrite processChunks_within_budget.
    + eexists. split; [reflexivity|]. split; [|split; [reflexivity|split]].
      * pose proof (parseJavaScript_nonempty env text filePath) as NJ.
        pose proof (parsePython_nonempty env text filePath) as NP.
        assert (extractChunks env text filePath <> []) as NE
            by (unfold extractChunks; repeat case_if; auto; discriminate).
        destruct (extractChunks env text filePath); [contradiction|].
        discriminate.
      * discriminate.
      * intros item Hi. apply in_map_iff in Hi. destruct Hi as (c & <- & Hc).
        destruct (extractChunks_shape env text filePath c Hc)
          as (_ & P & N & T).
        cbn. rewrite P, N, T. auto.
    + intros c Hc.
      destruct (extractChunks_inside env text filePath W c Hc) as (I & S).
      unfold isSlice in S. unfold offsetsInside in I.
      rewrite S, len_substring by lia. lia.
Qed.

(** X12.  With [maxChunkSize] and [overlap] not negative, and
    an overlap and a chunk below [2 ^ 51], where the line numbers of the
    loop stay below [2 ^ 53] and are exact in binary64, the oversize
    splitter does not return for a parsed chunk above the budget; so the
    engine returns for no file of a recognized language that has such a
    chunk. *)
Theorem oversize_chunk_never_comes_back (text filePath : jstring)
  (options : Options) (chunk : Chunk) :
  Js.eqb (detectLanguage env filePath) unknown = false ->
  0 <= orDefault 4000 (maxChunkSize options) ->
  0 <= orDefault 200 (overlap options) < 2 ^ 51 ->
  In chunk (extractChunks env text filePath) ->
  orDefault 4000 (maxChunkSize options) < len (content chunk) ->
  len (content chunk) < 2 ^ 51 ->
  forall fuel,
    (forall subs,
       splitWithOverlap fuel chunk (orDefault 4000 (maxChunkSize options))
         (orDefault 200 (overlap options))
         (orDefault true (preserveSignatures options))
         (detectLanguage env filePath) <> Returns subs)
    /\ forall items,
         intelligentChunk env fuel text filePath options <> Returns items.
Proof.
  intros L M [O _] C B _ fuel. split.
  - intros subs. now apply splitWithOverlap_never_returns.
  - intros items H. unfold intelligentChunk in H. rewrite L in H.
    apply processChunks_blocked in H; eauto.
Qed.

End EngineResults.

Lemma engine_output_is_never_empty_witness :
  (0 <= orDefault 4000 (maxChunkSize withoutComplexity)
   /\ intelligentChunk (envWith syntaxError) 1 (js "function (")
        (js "broken.js") withoutComplexity = Returns brokenFileOutput)
  /\ brokenFileOutput <> [].
Proof.
  split; [split; [vm_compute; discriminate|vm_compute; reflexivity]|].
  apply (engine_output_is_never_empty (envWith syntaxError) 1
           (js "function (") (js "broken.js") withoutComplexity
           brokenFileOutput).
  - vm_compute. discriminate.
  - vm_compute. reflexivity.
Defined.

Lemma file_within_budget_is_not_split_witness :
  (wellFormed (envWith syntaxError) notes
   /\ len notes <= orDefault 4000 (maxChunkSize noOptions)
   /\ Js.eqb (detectLanguage (envWith syntaxError) (js "notes.txt")) unknown
      = true)
  /\ (forall fuel,
        exists items,
          intelligentChunk (envWith syntaxError) fuel notes (js "notes.txt")
            noOptions = Returns items
          /\ items <> []
          /\ (Js.eqb (detectLanguage (envWith syntaxError) (js "notes.txt"))
                unknown = false ->
              items
              = map (fun c =>
                       enrichChunkMetadata (envWith syntaxError) c notes
                         (js "notes.txt")
                         (orDefault true (calculateComplexity noOptions)))
                  (extractChunks (envWith syntaxError) notes (js "notes.txt")))
          /\ (Js.eqb (detectLanguage (envWith syntaxError) (js "notes.txt"))
                unknown = true ->
              exists c,
                items = [Plain c]
                /\ content c = notes
                /\ startChar c = 0 /\ endChar c = len notes
                /\ startLine c = 1 /\ endLine c = len (split newline notes)
                /\ type c = js "text" /\ name c = Some (js "content")
                /\ unsplit c)
          /\ forall item, In item items ->
               match item with
               | Enriched _ m =>
                   is_partial m = false /\ part_number m = 0
                   /\ total_parts m = 1
               | Plain c => isPartial c = false /\ items = [Plain c]
               end)
  /\ (wellFormed functionEnv functionSource
      /\ len functionSource <= orDefault 4000 (maxChunkSize noOptions)
      /\ Js.eqb (detectLanguage functionEnv (js "f.js")) unknown = false)
  /\ (forall fuel,
        exists items,
          intelligentChunk functionEnv fuel functionSource (js "f.js")
            noOptions = Returns items
          /\ items <> []
          /\ (Js.eqb (detectLanguage functionEnv (js "f.js")) unknown = false ->
              items
              = map (fun c =>
                       enrichChunkMetadata functionEnv c functionSource
                         (js "f.js")
                         (orDefault true (calculateComplexity noOptions)))
                  (extractChunks functionEnv functionSource (js "f.js")))
          /\ (Js.eqb (detectLanguage functionEnv (js "f.js")) unknown = true ->
              exists c,
                items = [Plain c]
                /\ content c = functionSource
                /\ startChar c = 0 /\ endChar c = len functionSource
                /\ startLine c = 1
                /\ endLine c = len (split newline functionSource)
                /\ type c = js "text" /\ name c = Some (js "content")
                /\ unsplit c)
          /\ forall item, In item items ->
               match item with
               | Enriched _ m =>
                   is_partial m = false /\ part_number m = 0
                   /\ total_parts m = 1
               | Plain c => isPartial c = false /\ items = [Plain c]
               end).
Proof.
  assert (W : wellFormed (envWith syntaxError) notes)
    by (repeat split; constructor).
  split; [split; [exact W|split; [vm_compute; discriminate|reflexivity]]|].
  split.
  - apply (file_within_budget_is_not_split (envWith syntaxError) notes
             (js "notes.txt") noOptions).
    + exact W.
    + vm_compute. discriminate.
  - split.
    + split; [apply functionEnv_wellFormed|].
      split; [vm_compute; discriminate|reflexivity].
    + apply (file_within_budget_is_not_split functionEnv functionSource
               (js "f.js") noOptions).
      * apply functionEnv_wellFormed.
      * vm_compute. discriminate.
Defined.

Lemma oversize_chunk_never_comes_back_witness :
  (Js.eqb (detectLanguage oneLineEnv (js "bundle.js")) unknown = false
   /\ 0 <= orDefault 4000 (maxChunkSize noOptions)
   /\ 0 <= orDefault 200 (overlap noOptions) < 2 ^ 51
   /\ In (wholeFile (js "module") 1 oneLine)
        (extractChunks oneLineEnv oneLine (js "bundle.js"))
   /\ orDefault 4000 (maxChunkSize noOptions)
      < len (content (wholeFile (js "module") 1 oneLine))
   /\ len (content (wholeFile (js "module") 1 oneLine)) < 2 ^ 51)
  /\ forall fuel,
       (forall subs,
          splitWithOverlap fuel (wholeFile (js "module") 1 oneLine)
            (orDefault 4000 (maxChunkSize noOptions))
            (orDefault 200 (overlap noOptions))
            (orDefault true (preserveSignatures noOptions))
            (detectLanguage oneLineEnv (js "bundle.js")) <> Returns subs)
       /\ forall items,
            intelligentChunk oneLineEnv fuel oneLine (js "bundle.js") noOptions
            <> Returns items.
Proof.
  assert (In (wholeFile (js "module") 1 oneLine)
            (extractChunks oneLineEnv oneLine (js "bundle.js"))) as Hin
      by (left; vm_compute; reflexivity).
  split.
  - split; [reflexivity|]. split; [vm_compute; discriminate|].
    split; [split; [vm_compute; discriminate|reflexivity]|].
    split; [exact Hin|]. split; reflexivity.
  - apply (oversize_chunk_never_comes_back oneLineEnv oneLine (js "bundle.js")
             noOptions (wholeFile (js "module") 1 oneLine)).
    + reflexivity.
    + vm_compute. discriminate.
    + split; [vm_compute; discriminate|reflexivity].
    + exact Hin.
    + reflexivity.
    + reflexivity.
Defined.

Lemma engine_output_is_uniform_witness :
  intelligentChunk (envWith syntaxError) 1 (js "function (") (js "broken.js")
    withoutComplexity = Returns brokenFileOutput
  /\ ((detectLanguage (envWith syntaxError) (js "broken.js") = unknown
       /\ forall item, In item brokenFileOutput ->
            exists c, item = Plain c /\ type c = js "text")
      \/ (In (detectLanguage (envWith syntaxError) (js "broken.js"))
            [js "javascript"; js "typescript"; js "python"]
          /\ forall item, In item brokenFileOutput ->
               exists t m,
                 item = Enriched t m
                 /\ language m
                    = detectLanguage (envWith syntaxError) (js "broken.js")
                 /\ structuralKind (chunk_type m))).
Proof.
  split; [vm_compute; reflexivity|].
  apply (engine_output_is_uniform (envWith syntaxError) 1 (js "function (")
           (js "broken.js") withoutComplexity brokenFileOutput).
  vm_compute. reflexivity.
Defined.

(* ================================================================= *)
(** * The embedding client: batches and retries *)

Section BatchFacts.

Context {A : Type}.
Variable items : list A.
Variable size : Z.

Lemma slice_inside (i j : Z) :
  0 <= i -> i <= j ->
  slice items i j = firstn (Z.to_nat (j - i)) (skipn (Z.to_nat i) items).
Proof.
  intros Hi Hj. unfold slice, relIndex.
  replace (i <? 0) with false by (symmetry; apply Z.ltb_ge; lia).
  replace (j <? 0) with false by (symmetry; apply Z.ltb_ge; lia).
  unfold len.
  destruct (Z_le_gt_dec i (Z.of_nat (List.length items))) as [L|L].
  - replace (Z.min i (Z.of_nat (List.length items))) with i by lia.
    destruct (Z_le_gt_dec j (Z.of_nat (List.length items))) as [L'|L'].
    + now replace (Z.min j (Z.of_nat (List.length items))) with j by lia.
    + replace (Z.min j (Z.of_nat (List.length items)))
        with (Z.of_nat (List.length items)) by lia.
      rewrite !firstn_all2; [reflexivity| |]; rewrite length_skipn; lia.
  - rewrite !skipn_all2 by lia. now rewrite !firstn_nil.
Qed.

Hypothesis size_pos : 0 < size.

Lemma batchLoop_partition (fuel : nat) :
  forall i,
    0 <= i -> Z.max 0 (len items - i) < Z.of_nat fuel ->
    exists batches,
      batchLoop fuel items size i = (batches, Finished)
      /\ List.concat batches = skipn (Z.to_nat i) items
      /\ Forall (fun b => 0 < len b <= size) batches
      /\ (forall k b, nth_error batches k = Some b ->
                      (S k < List.length batches)%nat -> len b = size)
      /\ len batches = (Z.max 0 (len items - i) + size - 1) / size.
Proof.
  induction fuel as [|fuel IH]; intros i Hi Hf; [lia|].
  cbn [batchLoop]. destruct (i <? len items) eqn:E.
  - apply Z.ltb_lt in E.
    destruct (IH (i + size)) as (bs & -> & C & F & N & L); [lia|lia|].
    eexists. split; [reflexivity|].
    rewrite slice_inside by lia. replace (i + size - i) with size by lia.
    assert (0 < len (firstn (Z.to_nat size) (skipn (Z.to_nat i) items)) <= size)
      as Hb.
    { unfold len in *. rewrite length_firstn, length_skipn. lia. }
    split; [|split; [|split]].
    + cbn [List.concat]. rewrite C.
      replace (Z.to_nat (i + size)) with (Z.to_nat size + Z.to_nat i)%nat by lia.
      rewrite <- skipn_skipn. apply firstn_skipn.
    + now constructor.
    + intros [|k] b; cbn [nth_error List.length].
      * intros [= <-] Hk. destruct bs as [|b' bs]; [simpl in Hk; lia|].
        assert (i + size < len items) as Hlt.
        { destruct (Z_lt_le_dec (i + size) (len items)); [assumption|].
          rewrite len_cons in L. pose proof (len_nonneg bs).
          replace (Z.max 0 (len items - (i + size))) with 0 in L by lia.
          rewrite Z.div_small in L by lia. lia. }
        unfold len in *. rewrite length_firstn, length_skipn. lia.
      * intros Hb' Hk. apply (N k b Hb'). lia.
    + rewrite len_cons, L.
      destruct (Z_le_gt_dec (i + size) (len items)).
      * replace (Z.max 0 (len items - i) + size - 1)
          with (Z.max 0 (len items - (i + size)) + size - 1 + 1 * size) by lia.
        rewrite Z.div_add by lia. reflexivity.
      * replace (Z.max 0 (len items - (i + size))) with 0 by lia.
        rewrite Z.div_small by lia.
        apply Z.div_unique with (r := len items - i - 1); lia.
  - apply Z.ltb_ge in E. exists []. split; [reflexivity|].
    split; [|split; [constructor|split]].
    + rewrite skipn_all2; [reflexivity|]. unfold len in E. lia.
    + intros [|k] b; discriminate.
    + replace (Z.max 0 (len items - i)) with 0 by lia.
      rewrite Z.div_small by lia. reflexivity.
Qed.

Lemma batchLoop_more_fuel (fuel fuel' : nat) (i : Z) (bs : list (list A)) :
  batchLoop fuel items size i = (bs, Finished) -> (fuel <= fuel')%nat ->
  batchLoop fuel' items size i = (bs, Finished).
Proof.
  revert fuel' i bs. induction fuel as [|fuel IH]; intros fuel' i bs;
    [discriminate|].
  intros H Hf. destruct fuel' as [|fuel']; [lia|]. cbn [batchLoop] in *.
  destruct (i <? len items); [|exact H].
  destruct (batchLoop fuel items size (i + size)) as [bs0 st] eqn:E.
  injection H as <- ->. rewrite (IH fuel' _ _ E); [reflexivity|lia].
Qed.

End BatchFacts.

Section EmbedderResults.

(** X23.  With a positive size [createBatches] returns; the
    batches, in order, make up the items; every batch but the last has
    the full size, the last one is not empty and not larger; there are
    [ceil(n / size)] of them. *)
Theorem createBatches_partitions_the_items {A : Type} (items : list A)
  (size : Z) :
  0 < size ->
  exists batches,
    (forall fuel, (List.length items < fuel)%nat ->
                  createBatches fuel items size = Returns batches)
    /\ List.concat batches = items
    /\ Forall (fun b => 0 < len b <= size) batches
    /\ (forall k b, nth_error batches k = Some b ->
                    (S k < List.length batches)%nat -> len b = size)
    /\ len batches = (len items + size - 1) / size.
Proof.
  intros Hs.
  destruct (batchLoop_partition items size Hs (S (List.length items)) 0)
    as (bs & L & C & F & N & K); [lia|unfold len; lia|].
  exists bs. split; [|split; [exact C|split; [exact F|split; [exact N|]]]].
  - intros fuel Hf. unfold createBatches.
    rewrite (batchLoop_more_fuel items size _ fuel _ _ L); [reflexivity|lia].
  - rewrite K. pose proof (len_nonneg items). f_equal. lia.
Qed.

Lemma batchLoop_stuck {A : Type} (items : list A) (size : Z) (fuel : nat) :
  forall i, size <= 0 -> i < len items ->
            snd (batchLoop fuel items size i) = OutOfFuel.
Proof.
  induction fuel as [|fuel IH]; intros i Hs Hi; [reflexivity|].
  cbn [batchLoop].
  replace (i <? len items) with true by (symmetry; apply Z.ltb_lt; lia).
  specialize (IH (i + size) Hs ltac:(lia)).
  destruct (batchLoop fuel items size (i + size)). exact IH.
Qed.

(** X24.  With a size of 0 or below and at least one item
    [createBatches] never returns: the index never reaches the
    length. *)
Theorem createBatches_never_returns_without_a_positive_size {A : Type}
  (items : list A) (size : Z) :
  size <= 0 -> items <> [] ->
  forall fuel, createBatches fuel items size = Running.
Proof.
  intros Hs Hi fuel. unfold createBatches.
  pose proof (batchLoop_stuck items size fuel 0 Hs) as S.
  destruct (batchLoop fuel items size 0) as [bs st]. cbn [snd] in S.
  rewrite S; [reflexivity|].
  destruct items; [contradiction|]. rewrite len_cons.
  pose proof (len_nonneg items). lia.
Qed.

Lemma sameNumber_eq (x y : number) : sameNumber x y = true -> x = y.
Proof.
  destruct x as [a|a| |s m e], y as [b|b| |s' m' e']; simpl;
    try discriminate; try reflexivity.
  - intros H. apply Bool.eqb_prop in H. now subst.
  - intros H. apply Bool.eqb_prop in H. now subst.
  - intros H. apply andb_prop in H. destruct H as [H He].
    apply andb_prop in H. destruct H as [Hs Hm].
    apply Bool.eqb_prop in Hs. apply Pos.eqb_eq in Hm. apply Z.eqb_eq in He.
    now subst.
Qed.

(** Up to [retryCount = 1014] the delay is the integer
    [1000 * 2 ^ retryCount], which binary64 holds exactly; the next one,
    a multiple of [2 ^ 1018] above [2 ^ 1024], is [Infinity]. *)
Lemma backoff_exact (k : Z) :
  0 <= k <= 1014 ->
  mul (pow2 k) (ofZ 1000) = ofZ (1000 * 2 ^ k)
  /\ floor (ofZ (1000 * 2 ^ k)) = Some (1000 * 2 ^ k).
Proof.
  intros H.
  assert (T : forallb backoffIsExact (seq 0 1015) = true)
    by (vm_compute; reflexivity).
  rewrite forallb_forall in T.
  assert (E : backoffIsExact (Z.to_nat k) = true)
    by (apply T, in_seq; lia).
  unfold backoffIsExact in E. cbv zeta in E.
  rewrite Z2Nat.id in E by lia.
  apply andb_prop in E. destruct E as [E1 E2]. split.
  - now apply sameNumber_eq.
  - destruct (floor (ofZ (1000 * 2 ^ k))) as [z|]; [|discriminate].
    apply Z.eqb_eq in E2. now subst.
Qed.

Lemma withRetry_spec {A : Type} (maxRetries : Z) (fn : nat -> Settled A)
  (fuel : nat) :
  maxRetries <= 1015 ->
  forall call retryCount,
    0 <= retryCount -> Z.max 0 (maxRetries - retryCount) < Z.of_nat fuel ->
    exists delays settled,
      withRetry fuel maxRetries fn call retryCount = (delays, Some settled)
      /\ len delays <= Z.max 0 (maxRetries - retryCount)
      /\ (forall k d, nth_error delays k = Some d ->
                      d = ofZ (1000 * 2 ^ (retryCount + Z.of_nat k))
                      /\ floor d = Some (1000 * 2 ^ (retryCount + Z.of_nat k))
                      /\ exists e, fn (call + k)%nat = Rejected e
                                   /\ shouldRetryError e = true)
      /\ fn (call + List.length delays)%nat = settled
      /\ (forall e, settled = Rejected e ->
                    shouldRetryError e = false
                    \/ maxRetries <= retryCount + len delays).
Proof.
  intros Hmax.
  induction fuel as [|fuel IH]; intros call retryCount H0 Hf; [lia|].
  cbn [withRetry]. destruct (fn call) as [a|error] eqn:F.
  - exists [], (Fulfilled a). split; [reflexivity|]. rewrite len_nil.
    split; [lia|]. split; [intros [|k] d; discriminate|].
    cbn [List.length]. rewrite Nat.add_0_r. split; [exact F|discriminate].
  - destruct (shouldRetryError error) eqn:R; cbn [andb negb].
    + destruct (retryCount <? maxRetries) eqn:M; cbn [negb].
      * apply Z.ltb_lt in M.
        destruct (IH (S call) (retryCount + 1)) as (ds & s & -> & L & D & E & T);
          [lia|lia|].
        destruct (backoff_exact retryCount ltac:(lia)) as [B1 B2].
        eexists. eexists. split; [reflexivity|]. rewrite len_cons.
        split; [lia|]. split; [|split].
        -- intros [|k] d; cbn [nth_error].
           ++ intros [= <-]. rewrite Z.add_0_r, Nat.add_0_r.
              split; [exact B1|].
              split; [exact (eq_trans (f_equal floor B1) B2)|]. eauto.
           ++ intros Hd. destruct (D k d Hd) as (Dv & Df & e & He & Re).
              replace (retryCount + Z.of_nat (S k))
                with (retryCount + 1 + Z.of_nat k) by lia.
              split; [exact Dv|]. split; [exact Df|].
              exists e. split; [|exact Re]. rewrite <- He. f_equal. lia.
        -- cbn [List.length]. rewrite <- E. f_equal. lia.
        -- intros e He. destruct (T e He) as [T'|T']; [now left|right; lia].
      * apply Z.ltb_ge in M.
        exists [], (Rejected error). split; [reflexivity|]. rewrite len_nil.
        split; [lia|]. split; [intros [|k] d; discriminate|].
        cbn [List.length]. rewrite Nat.add_0_r. split; [exact F|].
        intros e [= <-]. right. lia.
    + exists [], (Rejected error). split; [reflexivity|]. rewrite len_nil.
      split; [lia|]. split; [intros [|k] d; discriminate|].
      cbn [List.length]. rewrite Nat.add_0_r. split; [exact F|].
      intros e [= <-]. now left.
Qed.

Lemma withRetry_more_fuel {A : Type} (maxRetries : Z) (fn : nat -> Settled A)
  (fuel fuel' : nat) (call : nat) (retryCount : Z) (delays : list number)
  (settled : Settled A) :
  withRetry fuel maxRetries fn call retryCount = (delays, Some settled) ->
  (fuel <= fuel')%nat ->
  withRetry fuel' maxRetries fn call retryCount = (delays, Some settled).
Proof.
  revert fuel' call retryCount delays.
  induction fuel as [|fuel IH]; intros fuel' call rc delays; [discriminate|].
  intros H Hf. destruct fuel' as [|fuel']; [lia|]. cbn [withRetry] in *.
  destruct (fn call); [exact H|].
  destruct (negb _); [exact H|].
  destruct (withRetry fuel maxRetries fn (S call) (rc + 1)) as [ds [s|]] eqn:E;
    [|discriminate].
  injection H as <- ->. rewrite (IH fuel' _ _ _ E); [reflexivity|lia].
Qed.

(** X25.  For [maxRetries] from 0 to 1015, [withRetry] calls
    [fn] at most [maxRetries + 1] times; the delay it computes before
    the retry number [k] is the number [1000 * 2 ^ k], exact in
    binary64; every call but the last was rejected with an error worth a
    retry; the promise settles as the last call did, and a rejection is
    either not worth a retry or the one of call number [maxRetries]. *)
Theorem withRetry_backs_off_and_gives_up {A : Type} (maxRetries : Z)
  (fn : nat -> Settled A) :
  0 <= maxRetries <= 1015 ->
  exists delays settled,
    (forall fuel, (Z.to_nat maxRetries < fuel)%nat ->
                  withRetry fuel maxRetries fn 0 0 = (delays, Some settled))
    /\ len delays <= maxRetries
    /\ (forall k d, nth_error delays k = Some d ->
                    d = ofZ (1000 * 2 ^ Z.of_nat k)
                    /\ floor d = Some (1000 * 2 ^ Z.of_nat k)
                    /\ exists e, fn k = Rejected e /\ shouldRetryError e = true)
    /\ fn (List.length delays) = settled
    /\ (forall e, settled = Rejected e ->
                  shouldRetryError e = false \/ len delays = maxRetries).
Proof.
  intros [H0 H1].
  destruct (withRetry_spec maxRetries fn (S (Z.to_nat maxRetries)) H1 0 0)
    as (ds & s & W & L & D & E & T); [lia|lia|].
  exists ds, s. split; [|split; [lia|split; [|split]]].
  - intros fuel Hf. apply (withRetry_more_fuel _ _ _ _ _ _ _ _ W). lia.
  - intros k d Hd. destruct (D k d Hd) as (Dv & Df & e & He & Re).
    rewrite Z.add_0_l in Dv, Df. split; [exact Dv|]. split; [exact Df|].
    exists e. now split.
  - exact E.
  - intros e He. destruct (T e He) as [T'|T']; [now left|right; lia].
Qed.

End EmbedderResults.

Lemma createBatches_never_returns_without_a_positive_size_witness :
  (-1 <= 0 /\ [1; 2; 3] <> [])
  /\ forall fuel, createBatches fuel [1; 2; 3] (-1) = Running.
Proof.
  split; [split; [lia|discriminate]|].
  apply (createBatches_never_returns_without_a_positive_size [1; 2; 3] (-1));
    [lia|discriminate].
Defined.

Lemma withRetry_backs_off_and_gives_up_witness :
  let fn := fun _ : nat => @Rejected Z rateLimited in
  0 <= 3 <= 1015
  /\ map floor (fst (withRetry 4 3 fn 0 0)) = [Some 1000; Some 2000; Some 4000]
  /\ exists delays settled,
       (forall fuel, (Z.to_nat 3 < fuel)%nat ->
                     withRetry fuel 3 fn 0 0 = (delays, Some settled))
       /\ len delays <= 3
       /\ (forall k d, nth_error delays k = Some d ->
                       d = ofZ (1000 * 2 ^ Z.of_nat k)
                       /\ floor d = Some (1000 * 2 ^ Z.of_nat k)
                       /\ exists e, fn k = Rejected e
                                    /\ shouldRetryError e = true)
       /\ fn (List.length delays) = settled
       /\ (forall e, settled = Rejected e ->
                     shouldRetryError e = false \/ len delays = 3).
Proof.
  cbv zeta. split; [lia|]. split; [vm_compute; reflexivity|].
  apply (withRetry_backs_off_and_gives_up 3
           (fun _ : nat => @Rejected Z rateLimited)).
  lia.
Defined.

Lemma createBatches_partitions_the_items_witness :
  0 < 2
  /\ exists batches,
       (forall fuel, (List.length [1; 2; 3; 4; 5] < fuel)%nat ->
                     createBatches fuel [1; 2; 3; 4; 5] 2 = Returns batches)
       /\ List.concat batches = [1; 2; 3; 4; 5]
       /\ Forall (fun b => 0 < len b <= 2) batches
       /\ (forall k b, nth_error batches k = Some b ->
                       (S k < List.length batches)%nat -> len b = 2)
       /\ len batches = (len [1; 2; 3; 4; 5] + 2 - 1) / 2.
Proof.
  split; [lia|].
  apply (createBatches_partitions_the_items [1; 2; 3; 4; 5] 2). lia.
Defined.

(* ================================================================= *)
(** * The uninstaller: the prompt and the configuration file *)

Section SearchFacts.

Lemma occurs_cons (p : jstring) (c : ascii) (s : jstring) :
  occurs p (c :: s) <-> startsWith p (c :: s) = true \/ occurs p s.
Proof.
  split.
  - intros ([|x a] & b & E).
    + left. apply startsWith_iff. now exists b.
    + right. injection E as -> ->. now exists a, b.
  - intros [H|(a & b & ->)].
    + apply startsWith_iff in H. destruct H as (u & ->). now exists [], u.
    + now exists (c :: a), b.
Qed.

Lemma occurs_nil (p : jstring) : occurs p [] <-> p = [].
Proof.
  split.
  - intros (a & b & E). symmetry in E. apply app_eq_nil in E.
    destruct E as (_ & E). now apply app_eq_nil in E.
  - intros ->. now exists [], [].
Qed.

Lemma indexFrom_spec (p s : jstring) :
  forall pos,
    (indexFrom p s pos = -1 /\ 0 <= pos -> ~ occurs p s)
    /\ (0 <= pos -> indexFrom p s pos <> -1 ->
        pos <= indexFrom p s pos <= pos + len s
        /\ startsWith p (skipn (Z.to_nat (indexFrom p s pos - pos)) s) = true).
Proof.
  induction s as [|c s IH]; intros pos; cbn [indexFrom].
  - destruct (startsWith p []) eqn:E.
    + split; [intros (H & H0); lia|]. intros H0 _. rewrite len_nil.
      split; [lia|]. now rewrite Z.sub_diag.
    + split; [|intros; congruence].
      intros _ H. apply occurs_nil in H. subst. discriminate.
  - destruct (startsWith p (c :: s)) eqn:E.
    + split; [intros (H & H0); lia|]. intros H0 _. rewrite len_cons.
      pose proof (len_nonneg s). split; [lia|]. now rewrite Z.sub_diag.
    + destruct (IH (pos + 1)) as (N & F). split.
      * intros (H & H0) O. apply occurs_cons in O. destruct O as [O|O];
          [congruence|]. apply N; [split; [exact H|lia]|exact O].
      * intros H0 H. destruct (F ltac:(lia) H) as (B & S').
        rewrite len_cons. split; [lia|].
        replace (Z.to_nat (indexFrom p s (pos + 1) - pos))
          with (S (Z.to_nat (indexFrom p s (pos + 1) - (pos + 1)))) by lia.
        exact S'.
Qed.

Lemma indexFrom_found (p s : jstring) (pos : Z) :
  occurs p s -> 0 <= pos -> indexFrom p s pos <> -1.
Proof.
  intros O H0 E. now apply (proj1 (indexFrom_spec p s pos)) in O.
Qed.

Lemma includes_iff (s p : jstring) : includes s p = true <-> occurs p s.
Proof.
  unfold includes, indexOf, clamp. pose proof (len_nonneg s).
  replace (Z.max 0 (Z.min 0 (len s))) with 0 by lia. simpl skipn.
  rewrite negb_true_iff, Z.eqb_neq. split.
  - intros N. destruct (proj2 (indexFrom_spec p s 0) (Z.le_refl 0) N) as (_ & W).
    apply startsWith_iff in W. destruct W as (u & W).
    exists (firstn (Z.to_nat (indexFrom p s 0 - 0)) s), u.
    rewrite <- W. symmetry. apply firstn_skipn.
  - intros O. now apply indexFrom_found.
Qed.

End SearchFacts.

Section SearchBounds.

Lemma startsWith_len (p s : jstring) :
  startsWith p s = true -> len p <= len s.
Proof.
  intros H. apply startsWith_iff in H. destruct H as (u & ->).
  rewrite len_app. pose proof (len_nonneg u). lia.
Qed.

Lemma indexOf_found (s p : jstring) (from : Z) :
  indexOf s p from <> -1 ->
  Z.max 0 (Z.min from (len s)) <= indexOf s p from
  /\ indexOf s p from + len p <= len s
  /\ startsWith p (skipn (Z.to_nat (indexOf s p from)) s) = true.
Proof.
  unfold indexOf, clamp. pose proof (len_nonneg s) as Hs.
  set (k := Z.max 0 (Z.min from (len s))).
  assert (0 <= k <= len s) as Hk by (unfold k; lia).
  clearbody k. intros N.
  destruct (proj2 (indexFrom_spec p (skipn (Z.to_nat k) s) k) ltac:(lia) N)
    as (B & W).
  rewrite skipn_skipn in W.
  replace (Z.to_nat (indexFrom p (skipn (Z.to_nat k) s) k - k) + Z.to_nat k)%nat
    with (Z.to_nat (indexFrom p (skipn (Z.to_nat k) s) k)) in W by lia.
  split; [lia|]. split; [|exact W].
  apply startsWith_len in W. unfold len in *. rewrite length_skipn in W, B. lia.
Qed.

Lemma lastIndexFrom_le (p s : jstring) (i : nat) :
  -1 <= lastIndexFrom p s i <= Z.of_nat i.
Proof.
  induction i as [|i IH]; cbn [lastIndexFrom];
    destruct (startsWith p _); lia.
Qed.

Lemma lastIndexOf_le (s p : jstring) (from : Z) :
  0 <= from -> -1 <= lastIndexOf s p from <= from.
Proof.
  intros H. unfold lastIndexOf, clamp.
  destruct (_ <? 0) eqn:E; [lia|]. apply Z.ltb_ge in E.
  pose proof (lastIndexFrom_le p s
                (Z.to_nat (Z.min (Z.max 0 (Z.min from (len s))) (len s - len p)))).
  lia.
Qed.

Lemma lookBack_le (config : jstring) (startIdx : Z) (above : list jstring) :
  forall sectionStart,
    0 <= startIdx -> -1 <= sectionStart <= startIdx ->
    -1 <= lookBack config startIdx above sectionStart <= startIdx.
Proof.
  induction above as [|l above IH]; intros ss H0 H; cbn [lookBack]; [exact H|].
  destruct (_ || _); [|exact H].
  apply IH; [exact H0|]. destruct (_ || _); [|exact H].
  now apply lastIndexOf_le.
Qed.

Lemma substring_to_end (s : jstring) (a : Z) :
  0 <= a <= len s -> substring s a (len s) = skipn (Z.to_nat a) s.
Proof.
  intros H. rewrite substring_inside by lia.
  apply firstn_all2. rewrite length_skipn. unfold len in *. lia.
Qed.

(** The two ends of the cut: a prefix that stops at or before the
    marker, and a suffix that is empty or opens with a line feed. *)
Lemma removeSection_cut (config : jstring) (startIdx : Z) :
  0 <= startIdx < len config ->
  exists a b,
    removeSection config startIdx = firstn a config ++ skipn b config
    /\ (Z.of_nat a <= startIdx < Z.of_nat b)
    /\ (Z.of_nat b <= len config)
    /\ (skipn b config = [] \/ exists r, skipn b config = newline :: r).
Proof.
  intros H. unfold removeSection.
  pose proof (lookBack_le config startIdx
                (rev (split newline (substring config 0 startIdx))) startIdx
                ltac:(lia) ltac:(lia)) as L.
  set (ss := lookBack _ _ _ _) in *.
  rewrite substring_from_zero.
  destruct (indexOf config (newline :: js "[") (startIdx + 1) =? -1) eqn:E.
  - exists (Z.to_nat ss), (List.length config).
    rewrite substring_to_end by (pose proof (len_nonneg config); lia).
    unfold len at 1. rewrite Nat2Z.id.
    split; [reflexivity|]. unfold len in *. split; [lia|]. split; [lia|].
    left. apply skipn_all.
  - apply Z.eqb_neq in E. destruct (indexOf_found _ _ _ E) as (B & U & W).
    set (ns := indexOf config (newline :: js "[") (startIdx + 1)) in *.
    exists (Z.to_nat ss), (Z.to_nat ns).
    pose proof (len_nonneg (newline :: js "[")).
    rewrite substring_to_end by lia.
    split; [reflexivity|]. split; [lia|]. split; [lia|].
    right. apply startsWith_iff in W. destruct W as (u & ->).
    eexists. reflexivity.
Qed.

Lemma removeSection_shrinks (config : jstring) (startIdx : Z) :
  0 <= startIdx < len config ->
  len (removeSection config startIdx) < len config.
Proof.
  intros H. destruct (removeSection_cut config startIdx H)
    as (a & b & -> & B & B' & _).
  rewrite len_app. unfold len in *. rewrite length_firstn, length_skipn. lia.
Qed.

Lemma occurs_firstn (p s : jstring) (n : nat) :
  occurs p (firstn n s) -> occurs p s.
Proof.
  intros (a & b & E). exists a, (b ++ skipn n s).
  rewrite <- (firstn_skipn n s) at 1. rewrite E. now rewrite <- !app_assoc.
Qed.

Lemma occurs_skipn (p s : jstring) (n : nat) :
  occurs p (skipn n s) -> occurs p s.
Proof.
  intros (a & b & E). exists (firstn n s ++ a), b.
  rewrite <- (firstn_skipn n s) at 1. rewrite E. now rewrite <- !app_assoc.
Qed.

(** A text of one line that occurs in a junction whose right side opens
    with a line feed occurs on one side of it. *)
Lemma occurs_app_newline (p l r : jstring) :
  oneLined p -> (r = [] \/ exists r', r = newline :: r') ->
  occurs p (l ++ r) -> occurs p l \/ occurs p r.
Proof.
  intros Hp Hr (a & b & E).
  apply app_eq_app in E. destruct E as (m & [(-> & E)|(-> & ->)]).
  - apply app_eq_app in E. destruct E as (m' & [(-> & ->)|(-> & ->)]).
    + destruct m' as [|x m'].
      * left. exists a, []. now rewrite !app_nil_r.
      * destruct Hr as [Hr|(r' & Hr)]; [discriminate|].
        injection Hr as -> _. exfalso. apply Hp.
        apply in_or_app. right. now left.
    + left. exists a, m'. reflexivity.
  - right. now exists m, b.
Qed.

Lemma removeSection_no_new (p config : jstring) (startIdx : Z) :
  oneLined p -> 0 <= startIdx < len config ->
  occurs p (removeSection config startIdx) -> occurs p config.
Proof.
  intros Hp H O. destruct (removeSection_cut config startIdx H)
    as (a & b & E & _ & _ & R).
  rewrite E in O. apply occurs_app_newline in O; [|exact Hp|exact R].
  destruct O as [O|O]; [now apply occurs_firstn in O|now apply occurs_skipn in O].
Qed.

End SearchBounds.

Section MarkerLoops.

Lemma includes_false_iff (s p : jstring) : includes s p = false <-> ~ occurs p s.
Proof.
  rewrite <- includes_iff. destruct (includes s p); split; congruence.
Qed.

Lemma marker_inside (config marker : jstring) :
  marker <> [] -> indexOf config marker 0 <> -1 ->
  0 <= indexOf config marker 0 < len config.
Proof.
  intros Hm N. destruct (indexOf_found _ _ _ N) as (B & U & _).
  assert (0 < len marker)
    by (destruct marker; [contradiction|rewrite len_cons;
                                        pose proof (len_nonneg marker); lia]).
  lia.
Qed.

Lemma removeMarker_returns (marker : jstring) (fuel : nat) :
  marker <> [] ->
  forall config modified,
    len config < Z.of_nat fuel ->
    exists config' modified',
      removeMarker fuel marker config modified = Some (config', modified')
      /\ len config' <= len config.
Proof.
  intros Hm. induction fuel as [|fuel IH]; intros config modified Hf;
    [pose proof (len_nonneg config); lia|].
  cbn [removeMarker]. destruct (indexOf config marker 0 =? -1) eqn:E.
  - exists config, modified. split; [reflexivity|lia].
  - apply Z.eqb_neq in E. pose proof (marker_inside _ _ Hm E) as B.
    pose proof (removeSection_shrinks config _ B) as S'.
    destruct (IH (removeSection config (indexOf config marker 0)) true)
      as (c' & m' & -> & L); [lia|].
    exists c', m'. split; [reflexivity|lia].
Qed.

Lemma removeMarker_clears (marker : jstring) (fuel : nat) :
  marker <> [] ->
  forall config modified config' modified',
    removeMarker fuel marker config modified = Some (config', modified') ->
    includes config' marker = false
    /\ (forall p, oneLined p -> occurs p config' -> occurs p config)
    /\ (modified' = false -> modified = false /\ config' = config)
    /\ (modified' = true -> modified = true \/ occurs marker config).
Proof.
  intros Hm. induction fuel as [|fuel IH]; intros config modified c' m';
    [discriminate|].
  cbn [removeMarker]. destruct (indexOf config marker 0 =? -1) eqn:E.
  - intros [= <- <-]. split; [|split; [|split]]; auto.
    unfold includes. now rewrite E.
  - pose proof E as E'. apply Z.eqb_neq in E.
    pose proof (marker_inside _ _ Hm E) as B.
    intros H. destruct (IH _ _ _ _ H) as (I & P & M & _).
    split; [exact I|]. split; [|split].
    + intros p Hp O. apply (removeSection_no_new p config _ Hp B). now apply P.
    + intros ->. now destruct (M eq_refl).
    + intros _. right. apply includes_iff. unfold includes. now rewrite E'.
Qed.

Lemma removeMarkers_returns (fuel : nat) (markers : list jstring) :
  Forall (fun m => m <> []) markers ->
  forall config modified,
    len config < Z.of_nat fuel ->
    exists config' modified',
      removeMarkers fuel markers config modified = Some (config', modified').
Proof.
  induction 1 as [|m markers Hm _ IH]; intros config modified Hf;
    cbn [removeMarkers]; [eauto|].
  destruct (removeMarker_returns m fuel Hm config modified Hf)
    as (c' & m' & -> & L).
  apply IH. lia.
Qed.

Lemma removeMarkers_clears (fuel : nat) (markers : list jstring) :
  Forall (fun m => m <> [] /\ oneLined m) markers ->
  forall config modified config' modified',
    removeMarkers fuel markers config modified = Some (config', modified') ->
    (forall m, In m markers -> ~ occurs m config')
    /\ (forall p, oneLined p -> occurs p config' -> occurs p config)
    /\ (modified' = false ->
        modified = false /\ config' = config
        /\ forall m, In m markers -> ~ occurs m config)
    /\ (modified' = true ->
        modified = true \/ exists m, In m markers /\ occurs m config).
Proof.
  induction 1 as [|m markers (Hm & Hl) Hrest IH];
    intros config modified c' m'; cbn [removeMarkers].
  - intros [= <- <-]. split; [intros m []|]. split; [auto|]. split.
    + intros ->. split; [reflexivity|]. split; [reflexivity|]. intros m [].
    + now left.
  - destruct (removeMarker fuel m config modified) as [[c1 m1]|] eqn:E;
      [|discriminate].
    intros H.
    destruct (removeMarker_clears m fuel Hm _ _ _ _ E) as (I & P & M & T).
    destruct (IH _ _ _ _ H) as (C & P' & M' & T').
    apply includes_false_iff in I.
    split; [|split; [|split]].
    + intros x [<-|Hx]; [|now apply C]. intros O. apply I. now apply P'.
    + intros p Hp O. apply P; [exact Hp|]. now apply P'.
    + intros ->. destruct (M' eq_refl) as (-> & -> & N).
      destruct (M eq_refl) as (-> & ->).
      split; [reflexivity|]. split; [reflexivity|].
      intros x [<-|Hx]; [exact I|now apply N].
    + intros ->. destruct (T' eq_refl) as [->|(x & Hx & O)].
      * destruct (T eq_refl) as [->|O]; [now left|].
        right. exists m. split; [now left|exact O].
      * right. exists x. split; [now right|]. apply P; [|exact O].
        rewrite Forall_forall in Hrest. now apply Hrest.
Qed.

End MarkerLoops.

Section CollapseFacts.

Lemma startsWith_collapse (p : jstring) :
  oneLined p ->
  forall s, startsWith p (collapseBlankLines s 0) = startsWith p s.
Proof.
  induction p as [|x p IH]; intros Hp s; [reflexivity|].
  assert (oneLined p) as Hp' by (intros H; apply Hp; now right).
  assert (Ascii.eqb x newline = false) as Hx.
  { apply Ascii.eqb_neq. intros ->. apply Hp. now left. }
  destruct s as [|c s]; [reflexivity|]. cbn [collapseBlankLines].
  destruct (Ascii.eqb c newline) eqn:E.
  - apply Ascii.eqb_eq in E. subst c. cbn [Nat.ltb Nat.leb startsWith].
    now rewrite Hx.
  - cbn [startsWith]. now rewrite IH.
Qed.

Lemma occurs_collapse (p : jstring) :
  oneLined p -> p <> [] ->
  forall s run, occurs p (collapseBlankLines s run) -> occurs p s.
Proof.
  intros Hp Hn s. induction s as [|c s IH]; intros run; cbn [collapseBlankLines].
  - auto.
  - destruct (Ascii.eqb c newline) eqn:E.
    + apply Ascii.eqb_eq in E. subst c.
      destruct (run <? 2)%nat.
      * intros O. apply occurs_cons in O. apply occurs_cons. right.
        destruct O as [O|O]; [|now apply IH in O].
        exfalso. destruct p as [|x p]; [contradiction|].
        cbn [startsWith] in O. apply andb_true_iff in O. destruct O as (O & _).
        apply Ascii.eqb_eq in O. subst x. apply Hp. now left.
      * intros O. apply occurs_cons. right. now apply IH in O.
    + intros O. apply occurs_cons in O. apply occurs_cons.
      destruct O as [O|O]; [left|right; now apply IH in O].
      destruct p as [|x p]; [reflexivity|].
      cbn [startsWith] in *. apply andb_true_iff in O. destruct O as (O1 & O2).
      rewrite O1. cbn [andb]. rewrite <- O2. symmetry. apply startsWith_collapse.
      intros H. apply Hp. now right.
Qed.

Lemma occurs_trim (p s : jstring) : occurs p (trim s) -> occurs p s.
Proof.
  intros (a & b & E). destruct (trim_spec s) as (l & r & -> & _).
  exists (l ++ a), (b ++ r). rewrite E. now rewrite <- !app_assoc.
Qed.

End CollapseFacts.

Section TidyFacts.

Lemma collapse_runs (s : jstring) :
  forall run,
    ((2 <= run)%nat ->
     startsWith [newline] (collapseBlankLines s run) = false)
    /\ ((1 <= run)%nat ->
        startsWith [newline; newline] (collapseBlankLines s run) = false)
    /\ startsWith tripleNewline (collapseBlankLines s run) = false
    /\ ~ occurs tripleNewline (collapseBlankLines s run).
Proof.
  induction s as [|c s IH]; intros run; cbn [collapseBlankLines].
  - repeat split; try reflexivity. intros O. apply occurs_nil in O. discriminate.
  - destruct (Ascii.eqb c newline) eqn:E.
    + apply Ascii.eqb_eq in E. subst c.
      destruct (IH (S run)) as (A & B & C & D).
      destruct (run <? 2)%nat eqn:R.
      * apply Nat.ltb_lt in R.
        assert (startsWith tripleNewline
                  (newline :: collapseBlankLines s (S run)) = false) as T.
        { unfold tripleNewline. cbn [startsWith]. rewrite Ascii.eqb_refl.
          cbn [andb]. apply B. lia. }
        split; [intros; lia|]. split; [|split; [exact T|]].
        -- intros H. cbn [startsWith]. rewrite Ascii.eqb_refl. cbn [andb].
           apply A. lia.
        -- intros O. apply occurs_cons in O. destruct O as [O|O];
             [congruence|contradiction].
      * apply Nat.ltb_ge in R. split; [intros; apply A; lia|].
        split; [intros; apply B; lia|]. now split.
    + destruct (IH 0%nat) as (_ & _ & _ & D).
      assert (forall p, startsWith (newline :: p)
                          (c :: collapseBlankLines s 0) = false) as N.
      { intros p. cbn [startsWith]. rewrite Ascii.eqb_sym, E. reflexivity. }
      split; [intros; apply N|]. split; [intros; apply N|].
      split; [apply N|].
      intros O. apply occurs_cons in O. destruct O as [O|O]; [|contradiction].
      unfold tripleNewline in O. now rewrite N in O.
Qed.

Lemma tidy_end (body : jstring) :
  (forall c, hd_error (rev body) = Some c -> isSpace c = false) ->
  ~ occurs tripleNewline body ->
  ~ occurs tripleNewline (body ++ [newline]).
Proof.
  intros L N (a & b & E).
  destruct b as [|x b] using rev_ind.
  - rewrite app_nil_r in E.
    change tripleNewline with ([newline; newline] ++ [newline]) in E.
    rewrite app_assoc in E. apply app_inj_tail in E. destruct E as (E & _).
    specialize (L newline). rewrite E, rev_app_distr in L.
    discriminate (L eq_refl).
  - rewrite !app_assoc in E. apply app_inj_tail in E. destruct E as (E & _).
    apply N. exists a, b. now rewrite app_assoc.
Qed.

Lemma lowerChar_y (c : ascii) :
  Ascii.eqb "y"%char (lowerChar c)
  = Ascii.eqb c "y"%char || Ascii.eqb c "Y"%char.
Proof. destruct c as [[] [] [] [] [] [] [] []]; reflexivity. Qed.

Lemma markers_are_lines :
  Forall (fun m => m <> [] /\ oneLined m) startMarkers.
Proof.
  assert (forall m, negb (existsb (Ascii.eqb newline) m) = true -> oneLined m)
    as H.
  { intros m Hm Hin. apply negb_true_iff in Hm.
    assert (existsb (Ascii.eqb newline) m = true) as Hex
        by (apply existsb_exists; exists newline; split;
            [exact Hin|apply Ascii.eqb_refl]).
    congruence. }
  unfold startMarkers.
  repeat constructor; try discriminate; apply H; reflexivity.
Qed.

End TidyFacts.

Section UninstallerResults.

(** X26.  A blank answer gives the default.  Any other answer is
    a yes exactly when its very first code unit is [y] or [Y]: an answer
    that opens with white space is a no. *)
Theorem confirm_reads_the_first_code_unit (answer : jstring)
  (defaultValue : bool) :
  (trim answer = [] -> confirm answer defaultValue = defaultValue)
  /\ (trim answer <> [] ->
      (confirm answer defaultValue = true
       <-> exists rest, answer = "y"%char :: rest \/ answer = "Y"%char :: rest)).
Proof.
  unfold confirm. split.
  - intros ->. reflexivity.
  - intros N. rewrite (proj2 (eqb_false_iff (trim answer) [])) by exact N.
    destruct answer as [|c rest]; [now contradiction N|].
    cbn [toLowerCase map startsWith js list_ascii_of_string].
    rewrite lowerChar_y, andb_true_r, orb_true_iff, !Ascii.eqb_eq.
    split.
    + intros [ -> | -> ]; exists rest; auto.
    + intros (r & [E|E]); injection E as -> _; auto.
Qed.

(** X27.  [cleanCodexConfig] comes to an end on every file, each
    of its loops within as many iterations as the file has code units
    and one more.  What it writes holds none of the five markers, and
    it writes nothing exactly when the file holds none of them. *)
Theorem cleanCodexConfig_removes_every_marker (config : jstring) (fuel : nat) :
  len config < Z.of_nat fuel ->
  exists written,
    cleanCodexConfig fuel (Some config) = Returns written
    /\ (forall text, written = Some text ->
          forall m, In m startMarkers -> includes text m = false)
    /\ (written = None
        <-> forall m, In m startMarkers -> includes config m = false).
Proof.
  intros Hf. unfold cleanCodexConfig.
  assert (Forall (fun m : jstring => m <> []) startMarkers) as Hne.
  { eapply Forall_impl; [|apply markers_are_lines]. now intros m (H & _). }
  destruct (removeMarkers_returns fuel startMarkers Hne config false Hf)
    as (c' & m' & R).
  rewrite R.
  destruct (removeMarkers_clears fuel startMarkers markers_are_lines
              _ _ _ _ R) as (C & P & M & T).
  destruct m'.
  - eexists. split; [reflexivity|]. split.
    + intros text [= <-] m Hm. apply includes_false_iff. intros O.
      pose proof markers_are_lines as L. rewrite Forall_forall in L.
      destruct (L m Hm) as (Hn & Hl).
      apply occurs_app_newline in O; [|exact Hl|right; eexists; reflexivity].
      destruct O as [O|O].
      * apply occurs_trim, occurs_collapse in O; [|exact Hl|exact Hn].
        now apply (C m Hm).
      * apply occurs_cons in O. destruct O as [O|O].
        -- destruct m as [|x m]; [contradiction|].
           cbn [startsWith] in O. apply andb_true_iff in O.
           destruct O as (O & _). apply Ascii.eqb_eq in O. subst x.
           apply Hl. now left.
        -- apply occurs_nil in O. contradiction.
    + split; [discriminate|]. intros N.
      destruct (T eq_refl) as [?|(m & Hm & O)]; [discriminate|].
      apply includes_iff in O. rewrite (N m Hm) in O. discriminate.
  - exists None. split; [reflexivity|]. split; [discriminate|].
    split; [|reflexivity]. intros _ m Hm. apply includes_false_iff.
    destruct (M eq_refl) as (_ & _ & N). now apply N.
Qed.

(** X28.  The text [cleanCodexConfig] writes is a body without
    white space at either end followed by one line feed, and it holds
    no three line feeds in a row. *)
Theorem cleaned_config_is_tidy (config text : jstring) (fuel : nat) :
  cleanCodexConfig fuel (Some config) = Returns (Some text) ->
  exists body,
    text = body ++ [newline]
    /\ trim body = body
    /\ ~ occurs tripleNewline text.
Proof.
  unfold cleanCodexConfig.
  destruct (removeMarkers fuel startMarkers config false) as [[c' [|]]|];
    try discriminate.
  intros [= <-]. eexists. split; [reflexivity|].
  split; [apply trim_idempotent|].
  apply tidy_end; [apply trim_last|].
  intros O. apply occurs_trim in O.
  now apply (proj2 (proj2 (proj2 (collapse_runs c' 0%nat)))) in O.
Qed.

End UninstallerResults.

Lemma cleaned_config_is_tidy_witness :
  cleanCodexConfig 118 (Some codexConfig) = Returns (Some cleanedCodexConfig)
  /\ exists body,
       cleanedCodexConfig = body ++ [newline]
       /\ trim body = body
       /\ ~ occurs tripleNewline cleanedCodexConfig.
Proof.
  split; [vm_compute; reflexivity|].
  apply (cleaned_config_is_tidy codexConfig cleanedCodexConfig 118).
  vm_compute. reflexivity.
Defined.

Lemma cleanCodexConfig_removes_every_marker_witness :
  len codexConfig < Z.of_nat 118
  /\ exists written,
       cleanCodexConfig 118 (Some codexConfig) = Returns written
       /\ (forall text, written = Some text ->
             forall m, In m startMarkers -> includes text m = false)
       /\ (written = None
           <-> forall m, In m startMarkers -> includes codexConfig m = false).
Proof.
  split; [reflexivity|].
  apply (cleanCodexConfig_removes_every_marker codexConfig 118). reflexivity.
Defined.
